(** * Single-epoch GNSS position/velocity/time solver (pvt.c)

    A shallow embedding of [src/src/pvt.c]: the Newton-Raphson least-squares
    step [pvt_solve], the iteration controller [pvt_iter], the residual
    (RAIM) test and the leave-one-out repair search, the DOP calculator, the
    quality filter and the orchestrator [calc_PVT].

    The C code computes on [double].  The embedding is written once over an
    abstract scalar type with the operations the code uses (class [Scalar]),
    and instantiated with IEEE-754 binary64 (Rocq's primitive floats,
    instance [Scalar_float]).  Theorems about control flow, return codes
    and side effects are proved for every instance; what depends on the
    arithmetic (rounding, signed zeros, infinities, NaN) is proved on
    binary64, from the specification of the primitive operations.

    Conventions.  Arrays are lists, matrices are row-major flat lists as
    the code passes them to the linear algebra routines.  [u8] and [s8]
    values are integers with the wrap-around written where an operation can
    leave the range.  Output parameters and the static [rx_state] are passed
    in and returned.  A failed [assert] ends a call without a result.  The
    routines and constants of headers that are not among the sources are
    the fields of a record [Externals] that every function takes. *)

From Stdlib Require Import ZArith List Bool Lia Permutation.
From Stdlib Require PrimFloat Uint63 String FloatOps FloatAxioms SpecFloat.
Import ListNotations String.StringSyntax.

Set Implicit Arguments.

(** ** Scalars: the operations of C's [double] used by pvt.c *)

Class Scalar (D : Type) : Type := {
  d_zero : D;
  d_one : D;
  d_add : D -> D -> D;
  d_sub : D -> D -> D;
  d_mul : D -> D -> D;
  d_div : D -> D -> D;
  d_opp : D -> D;
  d_sqrt : D -> D;
  (** C's [a < b] *)
  d_lt : D -> D -> bool;
  (** the decimal literal [m]e[e], i.e. m * 10^e *)
  d_lit : Z -> Z -> D
}.

Declare Scope double_scope.
Delimit Scope double_scope with D.
Notation "x + y" := (d_add x y) : double_scope.
Notation "x - y" := (d_sub x y) : double_scope.
Notation "x * y" := (d_mul x y) : double_scope.
Notation "x / y" := (d_div x y) : double_scope.
Notation "- x" := (d_opp x) : double_scope.
Notation "x <? y" := (d_lt x y) : double_scope.
Notation "x >? y" := (d_lt y x) : double_scope.

(** binary64: Rocq's primitive floats are IEEE-754 double precision with
    round-to-nearest-even, the arithmetic of C's [double]. *)
Definition float_of_Z (z : Z) : PrimFloat.float :=
  match z with
  | Z0 => PrimFloat.zero
  | Zpos _ => PrimFloat.of_uint63 (Uint63.of_Z z)
  | Zneg _ => PrimFloat.opp (PrimFloat.of_uint63 (Uint63.of_Z (- z)))
  end.

Definition float_lit (m e : Z) : PrimFloat.float :=
  if (0 <=? e)%Z
  then PrimFloat.mul (float_of_Z m) (float_of_Z (10 ^ e))
  else PrimFloat.div (float_of_Z m) (float_of_Z (10 ^ (- e))).

#[export] Instance Scalar_float : Scalar PrimFloat.float := {|
  d_zero := PrimFloat.zero;
  d_one := PrimFloat.one;
  d_add := PrimFloat.add;
  d_sub := PrimFloat.sub;
  d_mul := PrimFloat.mul;
  d_div := PrimFloat.div;
  d_opp := PrimFloat.opp;
  d_sqrt := PrimFloat.sqrt;
  d_lt := PrimFloat.ltb;
  d_lit := float_lit
|}.

(** ** Arrays *)

(** [a[i]]; an index past the end (undefined behaviour in C) reads [0.0]. *)
Definition at_ {D} {SD : Scalar D} (a : list D) (i : nat) : D := nth i a d_zero.
Notation "a .[ i ]" := (at_ a i) (at level 1, left associativity, format "a .[ i ]").

(** [a[i] = v]; a write past the end is ignored. *)
Fixpoint upd {A} (i : nat) (v : A) (a : list A) : list A :=
  match a, i with
  | [], _ => []
  | _ :: t, O => v :: t
  | h :: t, S i' => h :: upd i' v t
  end.

(** ** Linear algebra (linear_algebra.h) *)

Section LinearAlgebra.
Context {D : Type} {SD : Scalar D}.
Local Open Scope double_scope.

(** Modelled from the spec: vector subtraction [c = a - b] on [n] entries
    (linear_algebra.c is not among the sources). *)
Definition vector_subtract (n : nat) (a b : list D) : list D :=
  map (fun i => a.[i] - b.[i]) (seq 0 n).

(** Modelled from the spec: dot product of two [n]-vectors, accumulated
    from [0.0] in index order. *)
Definition vector_dot (n : nat) (a b : list D) : D :=
  fold_left (fun acc i => acc + a.[i] * b.[i]) (seq 0 n) d_zero.

(** Modelled from the spec: Euclidean norm of an [n]-vector. *)
Definition vector_norm (n : nat) (a : list D) : D :=
  d_sqrt (fold_left (fun acc i => acc + a.[i] * a.[i]) (seq 0 n) d_zero).

(** Modelled from the spec: [C = A * B] for row-major flat arrays,
    [A] being [n] x [m] and [B] being [m] x [p]. *)
Definition matrix_multiply (n m p : nat) (a b : list D) : list D :=
  flat_map (fun i =>
    map (fun j =>
      fold_left (fun acc k => acc + a.[(m * i + k)] * b.[(p * k + j)])
                (seq 0 m) d_zero)
      (seq 0 p))
    (seq 0 n).

(** Modelled from the spec: transpose of the [n] x [m] row-major matrix
    [a], an [m] x [n] row-major matrix. *)
Definition matrix_transpose (n m : nat) (a : list D) : list D :=
  flat_map (fun j => map (fun i => a.[(m * i + j)]) (seq 0 n)) (seq 0 m).
End LinearAlgebra.

(** ** Data model (pvt.h, track.h, gpstime.h) *)

(** gnss_signal_t: the identity of a satellite signal. *)
Record gnss_signal_t : Type := { sat : Z; code : Z }.

Section DataModel.
Variable D : Type.

(** gps_time_t *)
Record gps_time_t : Type := { tow : D; wn : Z }.

(** navigation_measurement_t, the fields pvt.c reads *)
Record navigation_measurement_t : Type := {
  pseudorange : D;
  doppler : D;
  sat_pos : list D;
  sat_vel : list D;
  tot : gps_time_t;
  sid : gnss_signal_t
}.

(** dops_t *)
Record dops_t : Type := {
  pdop : D; gdop : D; tdop : D; hdop : D; vdop : D
}.

(** gnss_solution *)
Record gnss_solution : Type := {
  pos_llh : list D;
  pos_ecef : list D;
  vel_ned : list D;
  vel_ecef : list D;
  err_cov : list D;
  clock_offset : D;
  clock_bias : D;
  time : gps_time_t;
  valid : Z;
  n_used : Z
}.

(** The collaborators of pvt.c that are not among the sources: the
    constants of constants.h, pvt.h and track.h, the matrix inverse of
    linear_algebra.h, the geodesy routines of coord_system.h and the time
    normalisation of gpstime.h. *)
Record Externals : Type := {
  GPS_C : D;
  GPS_OMEGAE_DOT : D;
  GPS_L1_HZ : D;
  PVT_MAX_ITERATIONS : nat;
  MAX_CHANNELS : nat;
  (** matrix_inverse(n, a, b): the contents of [b] afterwards *)
  matrix_inverse : nat -> list D -> list D;
  (** ecef2ned_matrix(ref_ecef, M): the 3 x 3 matrix [M], row-major *)
  ecef2ned_matrix : list D -> list D;
  (** wgsecef2ned(ecef, ref_ecef, ned) *)
  wgsecef2ned : list D -> list D -> list D;
  (** wgsecef2llh(ecef, llh) *)
  wgsecef2llh : list D -> list D;
  normalize_gps_time : gps_time_t -> gps_time_t
}.

(** A call of the iteration controller or of the residual test, with its
    arguments and its result; the solver keeps a ghost log of them so that
    claims about which stages run can be stated. *)
Inductive event : Type :=
| Ev_pvt_iter (n : nat) (meas : list navigation_measurement_t) (flag : Z)
| Ev_residual_test (n : nat) (passed : bool).

(** The memory the solver stages share: the receiver state vector
    (pos[3], clock error, vel[3], intermediate freq error), the
    observed-minus-predicted buffer, the matrix H (4 x 4, row-major, field [Hmat]), and
    the ghost log. *)
Record solver_mem : Type := {
  rx_state : list D;
  omp : list D;
  Hmat : list D;
  log : list event
}.
(** What calc_PVT reads and writes besides its arguments passed by value:
    the static [rx_state], the caller's [soln] and [dops], and the ghost
    log. *)
Record pvt_world : Type := {
  w_rx_state : list D;
  w_soln : gnss_solution;
  w_dops : dops_t;
  w_log : list event
}.

End DataModel.

Arguments Build_gps_time_t {D}.
Arguments Build_navigation_measurement_t {D}.
Arguments Build_dops_t {D}.
Arguments Build_gnss_solution {D}.
Arguments Build_solver_mem {D}.
Arguments Build_pvt_world {D}.
Arguments Ev_pvt_iter {D}.
Arguments Ev_residual_test {D}.
Arguments Build_Externals {D}.

(** What a call can end in: a return, or a failed [assert]. *)
Inductive outcome (A : Type) : Type :=
| Ret (a : A)
| Assert_failed.
Arguments Ret {A}.
Arguments Assert_failed {A}.

(** ** The solver *)

Section Solver.
Context {D : Type} {SD : Scalar D}.
Variable E : Externals D.
Local Open Scope double_scope.

Abbreviation meas := (navigation_measurement_t D).
Abbreviation mem := (solver_mem D).

(** What a read through a dangling measurement pointer yields in the model
    (undefined behaviour in C). *)
Definition meas_zero : meas :=
  Build_navigation_measurement_t d_zero d_zero [] [] (Build_gps_time_t d_zero 0%Z)
    {| sat := 0; code := 0 |}.

(** [a[off + i] = vals[i]] for every [i]. *)
Fixpoint write_from {A} (off : nat) (vals : list A) (a : list A) : list A :=
  match vals with
  | [] => a
  | v :: vs => write_from (S off) vs (upd off v a)
  end.

(** vel_solve: the four entries it writes through [rx_vel]. *)
Definition vel_solve (n_used : nat) (nav_meas : list meas) (G X : list D)
  : list D :=
  let tempvX :=
    map (fun j =>
           let nm := nth j nav_meas meas_zero in
           let pdot_pred := - vector_dot 3 (skipn (4 * j) G) (sat_vel nm) in
           (- doppler nm) * GPS_C E / GPS_L1_HZ E - pdot_pred)
        (seq 0 n_used) in
  matrix_multiply 4 n_used 1 X tempvX.

(** compute_dops *)
Definition compute_dops (H : list D) (pos_ecef : list D) : dops_t D :=
  let pdop_sq := H.[0] + H.[5] + H.[10] in
  let M := ecef2ned_matrix E pos_ecef in
  let down_ecef := [M.[6]; M.[7]; M.[8]; d_zero] in
  let tmp := matrix_multiply 3 4 1 H down_ecef in
  let vdop_sq := vector_dot 3 down_ecef tmp in
  {| pdop := d_sqrt pdop_sq;
     tdop := d_sqrt H.[15];
     gdop := d_sqrt (pdop_sq + H.[15]);
     vdop := d_sqrt vdop_sq;
     hdop := d_sqrt (pdop_sq - vdop_sq) |}.

(** The body of the channel loop of pvt_solve for one measurement: the
    values stored in [omp[j]] and in the row [G[j]]. *)
Definition channel (rx_state : list D) (nm : meas) : D * list D :=
  let tempv := vector_subtract 3 rx_state (sat_pos nm) in
  let tau := vector_norm 3 tempv / GPS_C E in
  let wEtau := GPS_OMEGAE_DOT E * tau in
  let xk_new := [ (sat_pos nm).[0] + wEtau * (sat_pos nm).[1];
                  (sat_pos nm).[1] - wEtau * (sat_pos nm).[0];
                  (sat_pos nm).[2] ] in
  let los := vector_subtract 3 xk_new rx_state in
  let p_pred := vector_norm 3 los in
  (pseudorange nm - p_pred,
   [ (- los.[0]) / p_pred; (- los.[1]) / p_pred; (- los.[2]) / p_pred; d_one ]).

(** The quantities one least-squares step derives from the state and the
    first [n_used] measurements. *)
Definition step_omp (rx_state : list D) (n_used : nat) (nav_meas : list meas)
  : list D :=
  map (fun j => fst (channel rx_state (nth j nav_meas meas_zero))) (seq 0 n_used).

Definition step_G (rx_state : list D) (n_used : nat) (nav_meas : list meas)
  : list D :=
  flat_map (fun j => snd (channel rx_state (nth j nav_meas meas_zero)))
           (seq 0 n_used).

Definition step_H (rx_state : list D) (n_used : nat) (nav_meas : list meas)
  : list D :=
  let G := step_G rx_state n_used nav_meas in
  let Gtrans := matrix_transpose n_used 4 G in
  let GtG := matrix_multiply 4 n_used 4 Gtrans G in
  matrix_inverse E 4 GtG.

Definition step_X (rx_state : list D) (n_used : nat) (nav_meas : list meas)
  : list D :=
  let G := step_G rx_state n_used nav_meas in
  let Gtrans := matrix_transpose n_used 4 G in
  matrix_multiply 4 4 n_used (step_H rx_state n_used nav_meas) Gtrans.

Definition step_correction (rx_state : list D) (n_used : nat)
  (nav_meas : list meas) : list D :=
  matrix_multiply 4 n_used 1 (step_X rx_state n_used nav_meas)
                  (step_omp rx_state n_used nav_meas).

(** pvt_solve: one Newton-Raphson step.  Returns the signed norm of the
    position correction; [rx_state], [omp] and [H] are updated in place. *)
Definition pvt_solve (m : mem) (n_used : nat) (nav_meas : list meas) : D * mem :=
  let rx := rx_state m in
  let correction := step_correction rx n_used nav_meas in
  let rx1 := upd 2 (rx.[2] + correction.[2])
            (upd 1 (rx.[1] + correction.[1])
            (upd 0 (rx.[0] + correction.[0]) rx)) in
  let rx2 := upd 3 correction.[3] rx1 in
  let m' := {| rx_state := rx2;
               omp := write_from 0 (step_omp rx n_used nav_meas) (omp m);
               Hmat := step_H rx n_used nav_meas;
               log := log m |} in
  let tempd := vector_norm 3 correction in
  if tempd >? d_lit 1 (-3) then
    (- tempd, m')
  else
    let rx_vel := vel_solve n_used nav_meas (step_G rx n_used nav_meas)
                            (step_X rx n_used nav_meas) in
    (tempd, {| rx_state := write_from 4 rx_vel rx2;
               omp := omp m'; Hmat := Hmat m'; log := log m' |}).

(** filter_solution *)
Definition filter_solution (soln : gnss_solution D) (dops : dops_t D) : Z :=
  if pdop dops >? d_lit 50 0 then 1%Z
  else if ((pos_llh soln).[2] <? d_lit (-1) 3) || ((pos_llh soln).[2] >? d_lit 1 6)
       then 2%Z
       else 0%Z.

(** residual_test: subtracts the clock offset from [omp[0..n_used-1]] in
    place and compares the norm with PVT_RESIDUAL_THRESHOLD (3000).  The
    triple is the result, the norm (what is stored through [residual] when
    that pointer is not null) and the memory afterwards. *)
Definition residual_test (n_used : nat) (m : mem) : bool * D * mem :=
  let omp' := write_from 0 (map (fun i => (omp m).[i] - (rx_state m).[3])
                                (seq 0 n_used)) (omp m) in
  let norm := vector_norm n_used omp' in
  let passed := norm <? d_lit 3000 0 in
  (passed, norm,
   {| rx_state := rx_state m; omp := omp'; Hmat := Hmat m;
      log := log m ++ [Ev_residual_test n_used passed] |}).

(** The Newton-Raphson loop of pvt_iter, [fuel] being the number of
    iterations left (PVT_MAX_ITERATIONS - iters); [true] when the loop was
    left by [break]. *)
Fixpoint pvt_iter_loop (fuel : nat) (m : mem) (n_used : nat)
  (nav_meas : list meas) : bool * mem :=
  match fuel with
  | O => (false, m)
  | S fuel' =>
      let '(r, m') := pvt_solve m n_used nav_meas in
      if r >? d_zero then (true, m')
      else pvt_iter_loop fuel' m' n_used nav_meas
  end.

(** pvt_iter *)
Definition pvt_iter (m : mem) (n_used : nat) (nav_meas : list meas) : Z * mem :=
  let m0 := {| rx_state := write_from 4 [d_zero; d_zero; d_zero; d_zero] (rx_state m);
               omp := omp m; Hmat := Hmat m; log := log m |} in
  let '(broke, m1) := pvt_iter_loop (PVT_MAX_ITERATIONS E) m0 n_used nav_meas in
  if broke then
    (0%Z, {| rx_state := rx_state m1; omp := omp m1; Hmat := Hmat m1;
             log := log m1 ++ [Ev_pvt_iter n_used (firstn n_used nav_meas) 0%Z] |})
  else
    (-1, {| rx_state := write_from 0 [d_zero; d_zero; d_zero] (rx_state m1);
            omp := omp m1; Hmat := Hmat m1;
            log := log m1 ++ [Ev_pvt_iter n_used (firstn n_used nav_meas) (-1)%Z] |})%Z.

(** [temp = a[i]; a[i] = a[j]; a[j] = temp]. *)
Definition swap (i j : nat) (a : list meas) : list meas :=
  let temp := nth i a meas_zero in
  upd j temp (upd i (nth j a meas_zero) a).

(** The search loop of pvt_repair, [k] being [drop + 1] for the next value
    of [drop] ([k = 0]: the loop is over).  The result is the memory
    afterwards and, unless the loop was left by the early [return -1] of a
    subset that does not converge, [num_passing] (u8) and [bad_sat] (s8). *)
Fixpoint repair_loop (k : nat) (one_less : nat) (nav_meas_subset : list meas)
  (m : mem) (num_passing bad_sat : Z) : mem * option (Z * Z) :=
  match k with
  | O => (m, Some (num_passing, bad_sat))
  | S drop =>
      let subset := swap drop one_less nav_meas_subset in
      let '(flag, m1) := pvt_iter m one_less subset in
      if (flag =? -1)%Z then (m1, None)
      else
        let '(passed, _, m2) := residual_test one_less m1 in
        if passed
        then repair_loop drop one_less subset m2
                         ((num_passing + 1) mod 256)%Z (Z.of_nat drop)
        else repair_loop drop one_less subset m2 num_passing bad_sat
  end.

(** pvt_repair.  The result is the return value, what was stored through
    [removed_sid] (if anything) and the memory.  [n_used - 1] and the loop
    counters are s8 in C: the model is the code for [n_used <= 127]. *)
Definition pvt_repair (m : mem) (n_used : nat) (nav_meas : list meas)
  : outcome (Z * option gnss_signal_t * mem) :=
  let one_less := (n_used - 1)%nat in
  let nav_meas_subset := firstn n_used nav_meas in
  match repair_loop n_used one_less nav_meas_subset m 0%Z (-1)%Z with
  | (m1, None) => Ret (-1, None, m1)%Z
  | (m1, Some (num_passing, bad_sat)) =>
      if (num_passing =? 1)%Z then
        let subset0 := firstn n_used nav_meas in
        let subset := upd (Z.to_nat bad_sat) (nth one_less subset0 meas_zero)
                          subset0 in
        let '(flag, m2) := pvt_iter m1 one_less subset in
        if (flag =? 0)%Z
        then Ret (1%Z, Some (sid (nth (Z.to_nat bad_sat) nav_meas meas_zero)), m2)
        else Assert_failed
      else Ret (-1, None, m1)%Z
  end.

(** pvt_solve_raim.  [omp m] is the local array [omp] of [n_used] entries
    as the function finds it on entry. *)
Definition pvt_solve_raim (m : mem) (n_used : nat) (nav_meas : list meas)
  (disable_raim : bool) : outcome (Z * option gnss_signal_t * mem) :=
  if (MAX_CHANNELS E <? n_used)%nat then Assert_failed
  else
    let nav_meas_ptrs := firstn n_used nav_meas in
    let '(flag, m1) := pvt_iter m n_used nav_meas_ptrs in
    if (flag =? -1)%Z then Ret (-3, None, m1)%Z
    else
      let '(ok, m2) :=
        if (0 <=? flag)%Z then
          if disable_raim then (true, m1)
          else let '(passed, _, m2) := residual_test n_used m1 in (passed, m2)
        else (false, m1) in
      if ok then
        if disable_raim || (n_used =? 4)%nat
        then Ret (2, None, m2)%Z
        else Ret (0, None, m2)%Z
      else
        if (n_used <? 6)%nat then Ret (-2, None, m2)%Z
        else pvt_repair m2 n_used nav_meas.

(** memset(soln, 0, sizeof( *soln)) *)
Definition soln_zero : gnss_solution D :=
  {| pos_llh := repeat d_zero 3; pos_ecef := repeat d_zero 3;
     vel_ned := repeat d_zero 3; vel_ecef := repeat d_zero 3;
     err_cov := repeat d_zero 7;
     clock_offset := d_zero; clock_bias := d_zero;
     time := Build_gps_time_t d_zero 0%Z;
     valid := 0; n_used := 0 |}.

(** [soln->valid = v] and [soln->n_used = n]. *)
Definition set_valid (v : Z) (s : gnss_solution D) : gnss_solution D :=
  {| pos_llh := pos_llh s; pos_ecef := pos_ecef s; vel_ned := vel_ned s;
     vel_ecef := vel_ecef s; err_cov := err_cov s;
     clock_offset := clock_offset s; clock_bias := clock_bias s;
     time := time s; valid := v; n_used := n_used s |}.

Definition set_n_used (n : Z) (s : gnss_solution D) : gnss_solution D :=
  {| pos_llh := pos_llh s; pos_ecef := pos_ecef s; vel_ned := vel_ned s;
     vel_ecef := vel_ecef s; err_cov := err_cov s;
     clock_offset := clock_offset s; clock_bias := clock_bias s;
     time := time s; valid := valid s; n_used := n |}.

(** The solution calc_PVT has built when it calls filter_solution. *)
Definition populate (n_reported : Z) (nav_meas : list meas) (rx H : list D)
  (dops : dops_t D) : gnss_solution D :=
  let pos := [rx.[0]; rx.[1]; rx.[2]] in
  let vel := [rx.[4]; rx.[5]; rx.[6]] in
  let nm0 := nth 0 nav_meas meas_zero in
  let t0 := tot nm0 in
  let t1 := Build_gps_time_t (tow t0 + pseudorange nm0 / GPS_C E) (wn t0) in
  let t2 := Build_gps_time_t (tow t1 - rx.[3] / GPS_C E) (wn t1) in
  {| pos_llh := wgsecef2llh E (firstn 3 rx);
     pos_ecef := pos;
     vel_ned := wgsecef2ned E vel pos;
     vel_ecef := vel;
     err_cov := [H.[0]; H.[1]; H.[2]; H.[5]; H.[6]; H.[10]; gdop dops];
     clock_offset := rx.[3] / GPS_C E;
     clock_bias := rx.[7] / GPS_C E;
     time := normalize_gps_time E t2;
     valid := 0;
     n_used := n_reported |}.

(** The part of calc_PVT after the call of pvt_solve_raim, which returned
    [raim_flag] and left the memory [m1]; [soln0] is [soln] as calc_PVT had
    set it before the call. *)
Definition calc_PVT_finish (n_used : nat) (nav_meas : list meas)
  (w : pvt_world D) (soln0 : gnss_solution D) (raim_flag : Z) (m1 : mem)
  : Z * pvt_world D :=
  if (raim_flag <? 0)%Z then
    (raim_flag - 3,
     {| w_rx_state := rx_state m1; w_soln := soln0;
        w_dops := w_dops w; w_log := log m1 |})%Z
  else
    let n_reported :=
      if (raim_flag =? 1)%Z then ((Z.of_nat n_used - 1) mod 256)%Z
      else Z.of_nat n_used in
    let dops := compute_dops (Hmat m1) (firstn 3 (rx_state m1)) in
    let soln := populate n_reported nav_meas (rx_state m1) (Hmat m1) dops in
    let ret := filter_solution soln dops in
    if (ret =? 0)%Z then
      (raim_flag,
       {| w_rx_state := rx_state m1; w_soln := set_valid 1 soln;
          w_dops := dops; w_log := log m1 |})
    else
      (- ret,
       {| w_rx_state := write_from 0 [d_zero; d_zero; d_zero] (rx_state m1);
          w_soln := soln_zero; w_dops := dops; w_log := log m1 |})%Z.

(** The memory pvt_solve_raim starts from inside calc_PVT: the static
    [rx_state], and the locals [omp] and [H], uninitialised in C ([0.0]
    here; both are written by the first least-squares step). *)
Definition entry_mem (n_used : nat) (w : pvt_world D) : mem :=
  {| rx_state := w_rx_state w; omp := repeat d_zero n_used;
     Hmat := repeat d_zero 16; log := w_log w |}.

(** calc_PVT.  [n_used] is a u8. *)
Definition calc_PVT (n_used : nat) (nav_meas : list meas) (disable_raim : bool)
  (w : pvt_world D) : outcome (Z * pvt_world D) :=
  if (n_used <? 4)%nat then Ret (-7, w)%Z
  else
    let soln0 := set_n_used (Z.of_nat n_used) (set_valid 0 (w_soln w)) in
    match pvt_solve_raim (entry_mem n_used w) n_used nav_meas disable_raim with
    | Assert_failed => Assert_failed
    | Ret (raim_flag, removed_sid, m1) =>
        Ret (calc_PVT_finish n_used nav_meas w soln0 raim_flag m1)
    end.
End Solver.

Arguments pvt_solve : simpl never.
Arguments pvt_iter : simpl never.
Arguments residual_test : simpl never.
Arguments pvt_repair : simpl never.
Arguments pvt_solve_raim : simpl never.
Arguments calc_PVT_finish : simpl never.
Arguments compute_dops : simpl never.
Arguments populate : simpl never.
Arguments filter_solution : simpl never.
Arguments vector_norm : simpl never.
Arguments matrix_multiply : simpl never.
Arguments step_correction : simpl never.
Arguments step_omp : simpl never.
Arguments entry_mem : simpl never.

(** ** The vocabulary of the claims *)

Section Vocabulary.
Context {D : Type} {SD : Scalar D}.
Variable E : Externals D.

(** [l] without its entry of index [k]: the leave-one-out subset that
    excludes candidate [k]. *)
Definition remove_nth {A} (k : nat) (l : list A) : list A :=
  firstn k l ++ skipn (S k) l.

(** The pointer array of pvt_repair once candidate [k] has been swapped
    to the excluded slot: the other measurements in their order, then
    measurement [k]. *)
Definition rotated (k : nat) (nav_meas : list (navigation_measurement_t D))
  : list (navigation_measurement_t D) :=
  remove_nth k nav_meas ++ [nth k nav_meas meas_zero].

(** The search of section 4.5: for each candidate index, from last to
    first ([k - 1] down to [0]), solve with the remaining measurements via
    the iteration controller and apply the residual test to that subset.  A
    subset that does not converge aborts the search ([None]); otherwise the
    candidates whose subset passed are returned, the one found last (the
    smallest index) first. *)
Fixpoint leave_one_out (k : nat) (nav_meas : list (navigation_measurement_t D))
  (m : solver_mem D) (passing : list nat) : solver_mem D * option (list nat) :=
  match k with
  | O => (m, Some passing)
  | S drop =>
      let subset := remove_nth drop nav_meas in
      let '(flag, m1) := pvt_iter E m (length subset) subset in
      if (flag =? -1)%Z then (m1, None)
      else
        let '(passed, _, m2) := residual_test (length subset) m1 in
        leave_one_out drop nav_meas m2
                      (if passed then drop :: passing else passing)
  end.

(** The first solve of a call of calc_PVT, on all [n_used] measurements,
    and whether it converged. *)
Definition first_solve (n_used : nat)
  (nav_meas : list (navigation_measurement_t D)) (w : pvt_world D)
  : Z * solver_mem D :=
  pvt_iter E (entry_mem n_used w) n_used (firstn n_used nav_meas).

Definition converged (n_used : nat)
  (nav_meas : list (navigation_measurement_t D)) (w : pvt_world D) : Prop :=
  fst (first_solve n_used nav_meas w) = 0%Z.

(** The residual test on the solution of the first solve. *)
Definition first_test (n_used : nat)
  (nav_meas : list (navigation_measurement_t D)) (w : pvt_world D)
  : bool * D * solver_mem D :=
  residual_test n_used (snd (first_solve n_used nav_meas w)).

Definition test_passed (n_used : nat)
  (nav_meas : list (navigation_measurement_t D)) (w : pvt_world D) : bool :=
  fst (fst (first_test n_used nav_meas w)).

(** The memory after [k] least-squares steps from [m], and the value the
    next step returns. *)
Fixpoint solve_steps (k : nat) (m : solver_mem D) (n_used : nat)
  (nav_meas : list (navigation_measurement_t D)) : solver_mem D :=
  match k with
  | O => m
  | S k' => solve_steps k' (snd (pvt_solve E m n_used nav_meas)) n_used nav_meas
  end.

Definition step_return (k : nat) (m : solver_mem D) (n_used : nat)
  (nav_meas : list (navigation_measurement_t D)) : D :=
  fst (pvt_solve E (solve_steps k m n_used nav_meas) n_used nav_meas).

(** The memory pvt_iter runs its loop from: the velocity and clock-drift
    slots of the state are zero. *)
Definition iter_start (m : solver_mem D) : solver_mem D :=
  {| rx_state := write_from 4 [d_zero; d_zero; d_zero; d_zero] (rx_state m);
     omp := omp m; Hmat := Hmat m; log := log m |}.

(** Two pointer arrays with the same first [n] entries. *)
Definition same_prefix (n : nat)
  (nav1 nav2 : list (navigation_measurement_t D)) : Prop :=
  firstn n nav1 = firstn n nav2.

(** [bad_sat] in terms of the passing candidates, the one found last
    first: -1 when there is none. *)
Definition bad_of (passing : list nat) : Z :=
  match passing with
  | [] => (-1)%Z
  | b :: _ => Z.of_nat b
  end.

(** The return codes of calc_PVT. *)
Definition pvt_code (ret : Z) : Prop :=
  In ret [2; 1; 0; -1; -2; -4; -5; -6; -7]%Z.

(** The residual test ran, according to the log. *)
Definition residual_test_invoked (l : list (event D)) : Prop :=
  exists n passed, In (Ev_residual_test n passed) l.

(** The code the quality filter yields on the solution calc_PVT builds from
    the memory [m], [n_reported] being the measurement count it reports. *)
Definition quality (n_reported : Z) (nav_meas : list (navigation_measurement_t D))
  (m : solver_mem D) : Z :=
  let dops := compute_dops E (Hmat m) (firstn 3 (rx_state m)) in
  filter_solution (populate E n_reported nav_meas (rx_state m) (Hmat m) dops) dops.
End Vocabulary.

(** ** A concrete environment, to run the model *)

Section Standins.
Context {D : Type} {SD : Scalar D}.
Local Open Scope double_scope.

(** One elimination step of Gauss-Jordan on the rows of [A | I], with the
    pivot on the diagonal entry [k]. *)
Definition gj_step (rows : list (list D)) (k : nat) : list (list D) :=
  let prow := nth k rows [] in
  let p := prow.[k] in
  let prow' := map (fun x => x / p) prow in
  map (fun i =>
         if (i =? k)%nat then prow'
         else let r := nth i rows [] in
              let f := r.[k] in
              map (fun j => r.[j] - f * prow'.[j]) (seq 0 (length r)))
      (seq 0 (length rows)).

(** Modelled from the spec: the matrix inverse of linear_algebra.h ("inverse",
    section 6), by Gauss-Jordan elimination without pivoting.  It is used to
    run the model on concrete inputs only; the theorems hold for every
    [matrix_inverse]. *)
Definition gauss_jordan_inverse (n : nat) (a : list D) : list D :=
  let aug :=
    map (fun i => map (fun j => a.[(n * i + j)]) (seq 0 n)
                  ++ map (fun j => if (i =? j)%nat then d_one else d_zero) (seq 0 n))
        (seq 0 n) in
  flat_map (fun r => skipn n r) (fold_left gj_step (seq 0 n) aug).

(** Modelled from the spec: ECEF to geodetic conversion (coord_system.h), on
    a spherical Earth of radius 6378137 m; only the height is computed. *)
Definition sphere_llh (p : list D) : list D :=
  [d_zero; d_zero; vector_norm 3 p - d_lit 6378137 0].

(** Modelled from the spec: the ECEF to local-level (north, east, down)
    rotation at [p], on a spherical Earth. *)
Definition sphere_ned_matrix (p : list D) : list D :=
  let r := vector_norm 3 p in
  let d := [ (- p.[0]) / r; (- p.[1]) / r; (- p.[2]) / r ] in
  let h := d_sqrt (p.[0] * p.[0] + p.[1] * p.[1]) in
  let e := [ (- p.[1]) / h; p.[0] / h; d_zero ] in
  let n := [ e.[1] * d.[2] - e.[2] * d.[1];
             e.[2] * d.[0] - e.[0] * d.[2];
             e.[0] * d.[1] - e.[1] * d.[0] ] in
  n ++ e ++ d.

(** Modelled from the spec: ECEF velocity to local-level velocity. *)
Definition sphere_ecef2ned (v ref : list D) : list D :=
  matrix_multiply 3 3 1 (sphere_ned_matrix ref) v.

(** Modelled from the spec: GPS time normalisation (seconds-of-week
    rollover), one week at most. *)
Definition week_normalize (t : gps_time_t D) : gps_time_t D :=
  if tow t <? d_zero then
    Build_gps_time_t (tow t + d_lit 604800 0) (wn t - 1)
  else if tow t >? d_lit 604800 0 then
    Build_gps_time_t (tow t - d_lit 604800 0) (wn t + 1)
  else t.

(** An environment to run the model in.  The headers are not among the
    sources; the constants are given the values of the GPS interface
    specification (speed of light, rotation rate of the Earth, L1 carrier
    frequency), a cap of 20 iterations and 11 channels. *)
Definition std_env : Externals D :=
  {| GPS_C := d_lit 299792458 0;
     GPS_OMEGAE_DOT := d_lit 72921151467 (-15);
     GPS_L1_HZ := d_lit 157542 4;
     PVT_MAX_ITERATIONS := 20;
     MAX_CHANNELS := 11;
     matrix_inverse := gauss_jordan_inverse;
     ecef2ned_matrix := sphere_ned_matrix;
     wgsecef2ned := sphere_ecef2ned;
     wgsecef2llh := sphere_llh;
     normalize_gps_time := week_normalize |}.
End Standins.

(** ** Concrete inputs (binary64) *)

Abbreviation float := PrimFloat.float.

Definition fenv : Externals float := std_env.

(** A measurement of satellite [id] at ECEF position (x, y, z) km, at rest,
    with zero Doppler and the pseudorange [pr] (m). *)
Definition meas_at (id x y z : Z) (pr : float) : navigation_measurement_t float :=
  Build_navigation_measurement_t pr (d_lit 0 0)
    [d_lit x 3; d_lit y 3; d_lit z 3] [d_lit 0 0; d_lit 0 0; d_lit 0 0]
    (Build_gps_time_t (d_lit 100000 0) 1800) {| sat := id; code := 0 |}.

(** Six satellites seen from a receiver at (6378137, 0, 0) m, with
    pseudoranges to the metre. *)
Definition sky6 : list (navigation_measurement_t float) :=
  [ meas_at 1 26560 0 0 (d_lit 20181863 0);
    meas_at 2 15000 20000 8000 (d_lit 23202080 0);
    meas_at 3 15000 (-20000) 8000 (d_lit 23202080 0);
    meas_at 4 16000 5000 (-20500) (d_lit 23191167 0);
    meas_at 5 14000 (-4000) 22000 (d_lit 23623988 0);
    meas_at 6 20000 12000 (-12000) (d_lit 21761322 0) ].

(** The same sky with the pseudorange of satellite 3 100 km too long. *)
Definition sky6_biased : list (navigation_measurement_t float) :=
  upd 2 (meas_at 3 15000 (-20000) 8000 (d_lit 23302080 0)) sky6.

(** The same sky with the pseudoranges of satellites 3 and 5 100 km too
    long: no subset of five is consistent. *)
Definition sky6_two_biased : list (navigation_measurement_t float) :=
  upd 4 (meas_at 5 14000 (-4000) 22000 (d_lit 23723988 0)) sky6_biased.

(** The sky seen from (8378137, 0, 0) m, 2000 km above the surface, again
    with the pseudorange of satellite 3 100 km too long. *)
Definition sky6_high_biased : list (navigation_measurement_t float) :=
  [ meas_at 1 26560 0 0 (d_lit 18181863 0);
    meas_at 2 15000 20000 8000 (d_lit 22535507 0);
    meas_at 3 15000 (-20000) 8000 (d_lit 22635507 0);
    meas_at 4 16000 5000 (-20500) (d_lit 22435302 0);
    meas_at 5 14000 (-4000) 22000 (d_lit 23056568 0);
    meas_at 6 20000 12000 (-12000) (d_lit 20568610 0) ].

(** [n / 2^k], exactly. *)
Definition dyadic (n k : Z) : float :=
  PrimFloat.div (float_of_Z n) (float_of_Z (2 ^ k)).

(** Four measurements that agree exactly with a receiver at the origin
    with zero clock error: each pseudorange is the range the least-squares
    step predicts from the zero state. *)
Definition sky4_exact : list (navigation_measurement_t float) :=
  [ meas_at 1 26560 0 0 (dyadic 7129645711508785 28);
    meas_at 2 0 26560 0 (dyadic 7129645711508785 28);
    meas_at 3 0 0 26560 (d_lit 26560000 0);
    meas_at 4 15334 15334 15334 (dyadic 3564724485310091 27) ].

Definition dops_zero : dops_t float :=
  Build_dops_t (d_lit 0 0) (d_lit 0 0) (d_lit 0 0) (d_lit 0 0) (d_lit 0 0).

(** The first call in a process: the static state is zero. *)
Definition world_fresh : pvt_world float :=
  {| w_rx_state := repeat d_zero 8; w_soln := soln_zero;
     w_dops := dops_zero; w_log := [] |}.

(** A later call: the state and the caller's solution hold an earlier,
    valid fix. *)
Definition world_stale : pvt_world float :=
  {| w_rx_state := [d_lit 6378137 0; d_lit (-36) 0; d_lit 0 0; d_lit 0 0;
                    d_lit 0 0; d_lit 0 0; d_lit 0 0; d_lit 0 0];
     w_soln := set_n_used 6 (set_valid 1
                 (populate fenv 6 sky6
                    [d_lit 6378137 0; d_lit (-36) 0; d_lit 0 0; d_lit 0 0;
                     d_lit 0 0; d_lit 0 0; d_lit 0 0; d_lit 0 0]
                    (repeat d_one 16) dops_zero));
     w_dops := dops_zero; w_log := [] |}.

(** A memory in the middle of an iteration over [sky6]: the position is
    some 380 km short of the solution and the clock bias holds 500 m. *)
Definition mem_running : solver_mem float :=
  {| rx_state := [d_lit 6000000 0; d_lit 1000 0; d_lit 2000 0; d_lit 500 0;
                  d_zero; d_zero; d_zero; d_zero];
     omp := repeat d_zero 6; Hmat := repeat d_zero 16; log := [] |}.

(** The world a call returned with ([dflt] after a failed assertion). *)
Definition world_of (o : outcome (Z * pvt_world float)) (dflt : pvt_world float)
  : pvt_world float :=
  match o with
  | Ret (_, w) => w
  | Assert_failed => dflt
  end.

(** ** Solver calls and the normal matrix *)

Section Calls.
Context {D : Type} {SD : Scalar D}.
Variable E : Externals D.
Local Open Scope double_scope.

(** The number of iterated solves and of residual tests in a log. *)
Definition is_pvt_iter (e : event D) : bool :=
  match e with Ev_pvt_iter _ _ _ => true | Ev_residual_test _ _ => false end.

Definition is_residual_test (e : event D) : bool :=
  match e with Ev_pvt_iter _ _ _ => false | Ev_residual_test _ _ => true end.

Definition count_iters (l : list (event D)) : nat :=
  length (filter is_pvt_iter l).

Definition count_tests (l : list (event D)) : nat :=
  length (filter is_residual_test l).

(** [w] with another static state. *)
Definition with_rx_state (rx : list D) (w : pvt_world D) : pvt_world D :=
  {| w_rx_state := rx; w_soln := w_soln w; w_dops := w_dops w;
     w_log := w_log w |}.

(** [p_pred[j]] in the channel loop of pvt_solve: the range predicted from
    the state for one measurement, after the correction of the satellite
    position for the rotation of the Earth. *)
Definition predicted_range (rx_state : list D)
  (nm : navigation_measurement_t D) : D :=
  let tempv := vector_subtract 3 rx_state (sat_pos nm) in
  let tau := vector_norm 3 tempv / GPS_C E in
  let wEtau := GPS_OMEGAE_DOT E * tau in
  let xk_new := [ (sat_pos nm).[0] + wEtau * (sat_pos nm).[1];
                  (sat_pos nm).[1] - wEtau * (sat_pos nm).[0];
                  (sat_pos nm).[2] ] in
  vector_norm 3 (vector_subtract 3 xk_new rx_state).

(** A measurement whose pseudorange is the range predicted from the state
    [rx_state]. *)
Definition fitted (rx_state : list D) (nm : navigation_measurement_t D)
  : navigation_measurement_t D :=
  Build_navigation_measurement_t (predicted_range rx_state nm) (doppler nm)
    (sat_pos nm) (sat_vel nm) (tot nm) (sid nm).

(** [G^T G], the matrix pvt_solve hands to matrix_inverse. *)
Definition step_GtG (rx_state : list D) (n_used : nat)
  (nav_meas : list (navigation_measurement_t D)) : list D :=
  let G := step_G E rx_state n_used nav_meas in
  matrix_multiply 4 n_used 4 (matrix_transpose n_used 4 G) G.
End Calls.

(** ** binary64: classes of values and conditions on a solve *)

(** A zero or a finite non-zero number: neither an infinity nor NaN. *)
Definition is_finite (x : float) : bool :=
  match FloatOps.Prim2SF x with
  | SpecFloat.S754_zero _ | SpecFloat.S754_finite _ _ _ => true
  | _ => false
  end.

(** [0.0] or [-0.0]. *)
Definition is_zero (x : float) : bool :=
  match FloatOps.Prim2SF x with
  | SpecFloat.S754_zero _ => true
  | _ => false
  end.

(** [-0.0] *)
Definition neg_zero : float := PrimFloat.opp PrimFloat.zero.

Definition all_finite (a : list float) : bool := forallb is_finite a.


(** The first [n] measurements fit the state [rx] exactly: each observed
    minus predicted pseudorange that a least-squares step computes from
    [rx] is zero. *)
Definition exact_fit (E : Externals float) (rx : list float) (n : nat)
  (nav : list (navigation_measurement_t float)) : bool :=
  forallb is_zero (step_omp E rx n nav).

(** The first [n] measurements have zero Doppler and a satellite at rest. *)
Definition static_sky (n : nat) (nav : list (navigation_measurement_t float))
  : bool :=
  forallb (fun j => let nm := nth j nav meas_zero in
                    is_zero (doppler nm)
                    && forallb (fun i => is_zero (sat_vel nm).[i]) (seq 0 3))
          (seq 0 n).

(** At every state the loop of pvt_iter can reach from [m], the geometry
    matrix [G] and the matrix [X = H G^T] of a step have finite entries. *)
Definition finite_steps (E : Externals float) (m : solver_mem float) (n : nat)
  (nav : list (navigation_measurement_t float)) : bool :=
  forallb (fun k =>
             let rx := rx_state (solve_steps E k (iter_start m) n nav) in
             all_finite (step_G E rx n nav) && all_finite (step_X E rx n nav))
          (seq 0 (PVT_MAX_ITERATIONS E)).

(** A call that finds the state of [mem_running], and the six satellites
    of [sky6] with pseudoranges that fit that state exactly. *)
Definition world_running : pvt_world float :=
  with_rx_state (rx_state mem_running) world_fresh.

Definition sky6_fitted : list (navigation_measurement_t float) :=
  map (fitted fenv (rx_state mem_running)) sky6.

(** [1.0 * 1.0] added [n] times to [0.0], in double arithmetic. *)
Definition count_up (n : nat) : float :=
  fold_left (fun acc (_ : nat) => d_add acc (d_mul d_one d_one)) (seq 0 n) d_zero.



(** ** The table of error strings *)

Section ErrorStrings.
Local Open Scope string_scope.

(** pvt_err_msg: the error strings for the negative return codes of
    calc_PVT. *)
Definition pvt_err_msg : list String.string :=
  [ "PDOP too high";
    "Altitude unreasonable";
    "Velocity >= 1000 kts";
    "RAIM repair attempted, failed";
    "RAIM repair impossible (not enough measurements)";
    "Took too long to converge";
    "Not enough measurements for solution (< 4)" ].

(** [pvt_err_msg[-ret - 1]], [None] when the index is outside the table. *)
Definition err_msg (ret : Z) : option String.string :=
  if (0 <=? - ret - 1)%Z then nth_error pvt_err_msg (Z.to_nat (- ret - 1))
  else None.
End ErrorStrings.

Unset Implicit Arguments.

(** ** Facts about array writes *)

Section Arrays.
Context {A : Type}.

Lemma upd_length (i : nat) (v : A) (a : list A) :
  length (upd i v a) = length a.
Proof.
  revert i; induction a as [|h t IH]; intros [|i]; simpl; auto.
Qed.

Lemma nth_upd_same (i : nat) (v d : A) (a : list A) :
  (i < length a)%nat -> nth i (upd i v a) d = v.
Proof.
  revert i; induction a as [|h t IH]; intros [|i] Hi; simpl in *; try lia; auto.
  apply IH; lia.
Qed.

Lemma nth_upd_other (i j : nat) (v d : A) (a : list A) :
  i <> j -> nth j (upd i v a) d = nth j a d.
Proof.
  revert i j; induction a as [|h t IH]; intros [|i] [|j] Hij; simpl; auto; try lia.
Qed.

Lemma write_from_length (off : nat) (vals a : list A) :
  length (write_from off vals a) = length a.
Proof.
  revert off a; induction vals as [|v vs IH]; intros off a; simpl; auto.
  rewrite IH, upd_length; reflexivity.
Qed.

Lemma nth_write_from_before (off j : nat) (vals a : list A) (d : A) :
  (j < off)%nat -> nth j (write_from off vals a) d = nth j a d.
Proof.
  revert off a; induction vals as [|v vs IH]; intros off a Hj; simpl; auto.
  rewrite IH by lia. apply nth_upd_other; lia.
Qed.

Lemma nth_write_from_after (off j : nat) (vals a : list A) (d : A) :
  (off + length vals <= j)%nat -> nth j (write_from off vals a) d = nth j a d.
Proof.
  revert off a; induction vals as [|v vs IH]; intros off a Hj; simpl in *; auto.
  rewrite IH by lia. apply nth_upd_other; lia.
Qed.

Lemma nth_write_from_inside (off j : nat) (vals a : list A) (d : A) :
  (off <= j < off + length vals)%nat -> (j < length a)%nat ->
  nth j (write_from off vals a) d = nth (j - off) vals d.
Proof.
  revert off a; induction vals as [|v vs IH]; intros off a Hj Hlen; simpl in *.
  - lia.
  - destruct (Nat.eq_dec j off) as [->|Hne].
    + rewrite nth_write_from_before by lia.
      rewrite Nat.sub_diag. apply nth_upd_same; assumption.
    + rewrite IH by (rewrite ?upd_length; lia).
      replace (j - off)%nat with (S (j - S off)) by lia. reflexivity.
Qed.

(** Writing a whole prefix replaces it. *)
Lemma write_from_prefix (vals a : list A) :
  (length vals <= length a)%nat ->
  write_from 0 vals a = vals ++ skipn (length vals) a.
Proof.
  intros Hlen.
  assert (Hn : length (write_from 0 vals a) = length (vals ++ skipn (length vals) a)).
  { rewrite write_from_length, length_app, length_skipn; lia. }
  destruct a as [|a0 a'].
  { destruct vals; simpl in *; [reflexivity | lia]. }
  apply (nth_ext _ _ a0 a0 Hn).
  intros j Hj. rewrite write_from_length in Hj.
  destruct (Nat.lt_ge_cases j (length vals)) as [Hlt|Hge].
  - rewrite nth_write_from_inside by lia.
    rewrite app_nth1 by lia. f_equal; lia.
  - rewrite nth_write_from_after by lia.
    rewrite app_nth2 by lia. rewrite nth_skipn. f_equal; lia.
Qed.

Lemma nth_map_seq (f : nat -> A) (n i : nat) (d : A) :
  (i < n)%nat -> nth i (map f (seq 0 n)) d = f i.
Proof.
  intros Hi.
  rewrite (nth_indep _ d (f 0%nat)) by (rewrite length_map, length_seq; lia).
  rewrite (map_nth f), seq_nth by lia. reflexivity.
Qed.

Lemma upd_as_app (i : nat) (v : A) (a : list A) :
  (i < length a)%nat -> upd i v a = firstn i a ++ v :: skipn (S i) a.
Proof.
  revert i; induction a as [|h t IH]; intros [|i] Hi; simpl in *; try lia.
  - reflexivity.
  - f_equal. apply IH. lia.
Qed.

Lemma upd_same_value (i : nat) (d : A) (a : list A) :
  upd i (nth i a d) a = a.
Proof.
  revert i; induction a as [|h t IH]; intros [|i]; simpl; try reflexivity.
  f_equal. apply IH.
Qed.

Lemma remove_nth_length (k : nat) (l : list A) :
  (k < length l)%nat -> length (remove_nth k l) = (length l - 1)%nat.
Proof.
  intros Hk. unfold remove_nth.
  rewrite length_app, length_firstn, length_skipn. lia.
Qed.

Lemma split_last (d : A) (l : list A) :
  (0 < length l)%nat ->
  l = firstn (length l - 1) l ++ [nth (length l - 1) l d].
Proof.
  intros Hl.
  rewrite <- (firstn_skipn (length l - 1) l) at 1. f_equal.
  apply (nth_ext _ _ d d).
  - rewrite length_skipn. simpl. lia.
  - intros i Hi. rewrite length_skipn in Hi.
    rewrite nth_skipn. replace i with 0%nat by lia.
    rewrite Nat.add_0_r. reflexivity.
Qed.
End Arrays.

(** ** Facts about the solver stages *)

Section SolverFacts.
Context {D : Type} {SD : Scalar D}.
Variable E : Externals D.
Local Open Scope double_scope.

Abbreviation meas := (navigation_measurement_t D).
Abbreviation mem := (solver_mem D).

Lemma pvt_solve_log (m : mem) (n : nat) (nav : list meas) :
  log (snd (pvt_solve E m n nav)) = log m.
Proof.
  unfold pvt_solve.
  destruct (d_lt _ _); reflexivity.
Qed.

Lemma pvt_iter_loop_log (fuel : nat) (m : mem) (n : nat) (nav : list meas) :
  log (snd (pvt_iter_loop E fuel m n nav)) = log m.
Proof.
  revert m; induction fuel as [|fuel IH]; intros m; simpl; [reflexivity|].
  destruct (pvt_solve E m n nav) as [r m'] eqn:Hs.
  assert (Hl : log m' = log m) by (rewrite <- (pvt_solve_log m n nav), Hs; reflexivity).
  destruct (d_lt d_zero r); simpl; [assumption|].
  rewrite IH; assumption.
Qed.

(** pvt_iter returns 0 or -1 and logs exactly one event, its own. *)
Lemma pvt_iter_flag_log (m : mem) (n : nat) (nav : list meas) :
  (fst (pvt_iter E m n nav) = 0%Z \/ fst (pvt_iter E m n nav) = (-1)%Z) /\
  log (snd (pvt_iter E m n nav))
  = log m ++ [Ev_pvt_iter n (firstn n nav) (fst (pvt_iter E m n nav))].
Proof.
  unfold pvt_iter.
  match goal with |- context [pvt_iter_loop E ?f ?m0 n nav] =>
    pose proof (pvt_iter_loop_log f m0 n nav) as Hl;
    destruct (pvt_iter_loop E f m0 n nav) as [broke m1] end.
  simpl in Hl.
  destruct broke; simpl; rewrite Hl; auto.
Qed.

Lemma residual_test_frame (n : nat) (m : mem) :
  rx_state (snd (residual_test n m)) = rx_state m /\
  Hmat (snd (residual_test n m)) = Hmat m /\
  log (snd (residual_test n m))
  = log m ++ [Ev_residual_test n (fst (fst (residual_test n m)))].
Proof. unfold residual_test; cbn; auto. Qed.

(** *** Only the first [n_used] measurements are read *)

Lemma same_prefix_nth (n : nat) (nav1 nav2 : list meas) (j : nat) :
  same_prefix n nav1 nav2 -> (j < n)%nat ->
  nth j nav1 meas_zero = nth j nav2 meas_zero.
Proof.
  intros Hp Hj.
  pose proof (nth_firstn n nav1 j meas_zero) as H1.
  pose proof (nth_firstn n nav2 j meas_zero) as H2.
  destruct (Nat.ltb_spec j n); [|lia].
  rewrite <- H1, <- H2, Hp. reflexivity.
Qed.

Lemma same_prefix_firstn (n : nat) (nav : list meas) :
  same_prefix n (firstn n nav) nav.
Proof. unfold same_prefix. rewrite firstn_firstn, Nat.min_id. reflexivity. Qed.

Lemma step_omp_ext (rx : list D) (n : nat) (nav1 nav2 : list meas) :
  same_prefix n nav1 nav2 -> step_omp E rx n nav1 = step_omp E rx n nav2.
Proof.
  intros Hp. unfold step_omp. apply map_ext_in. intros j Hj.
  apply in_seq in Hj. rewrite (same_prefix_nth n nav1 nav2 j Hp) by lia. reflexivity.
Qed.

Lemma step_G_ext (rx : list D) (n : nat) (nav1 nav2 : list meas) :
  same_prefix n nav1 nav2 -> step_G E rx n nav1 = step_G E rx n nav2.
Proof.
  intros Hp. unfold step_G. rewrite !flat_map_concat_map. f_equal.
  apply map_ext_in. intros j Hj.
  apply in_seq in Hj. rewrite (same_prefix_nth n nav1 nav2 j Hp) by lia. reflexivity.
Qed.

Lemma vel_solve_ext (n : nat) (nav1 nav2 : list meas) (G X : list D) :
  same_prefix n nav1 nav2 -> vel_solve E n nav1 G X = vel_solve E n nav2 G X.
Proof.
  intros Hp. unfold vel_solve. f_equal. apply map_ext_in. intros j Hj.
  apply in_seq in Hj. rewrite (same_prefix_nth n nav1 nav2 j Hp) by lia. reflexivity.
Qed.

Lemma pvt_solve_ext (m : mem) (n : nat) (nav1 nav2 : list meas) :
  same_prefix n nav1 nav2 -> pvt_solve E m n nav1 = pvt_solve E m n nav2.
Proof.
  intros Hp. unfold pvt_solve, step_correction, step_X, step_H.
  rewrite (step_omp_ext _ _ _ _ Hp), (step_G_ext _ _ _ _ Hp), (vel_solve_ext _ _ _ _ _ Hp).
  reflexivity.
Qed.

Lemma pvt_iter_loop_ext (fuel : nat) (m : mem) (n : nat) (nav1 nav2 : list meas) :
  same_prefix n nav1 nav2 ->
  pvt_iter_loop E fuel m n nav1 = pvt_iter_loop E fuel m n nav2.
Proof.
  intros Hp. revert m; induction fuel as [|fuel IH]; intros m; cbn [pvt_iter_loop].
  - reflexivity.
  - rewrite (pvt_solve_ext m _ _ _ Hp).
    destruct (pvt_solve E m n nav2) as [r m'].
    destruct (d_lt d_zero r); [reflexivity | apply IH].
Qed.

Lemma pvt_iter_ext (m : mem) (n : nat) (nav1 nav2 : list meas) :
  same_prefix n nav1 nav2 -> pvt_iter E m n nav1 = pvt_iter E m n nav2.
Proof.
  intros Hp. unfold pvt_iter.
  rewrite (pvt_iter_loop_ext _ _ _ _ _ Hp). rewrite Hp. reflexivity.
Qed.

(** *** The buffer [omp] after a solve *)

Lemma step_omp_length (rx : list D) (n : nat) (nav : list meas) :
  length (step_omp E rx n nav) = n.
Proof. unfold step_omp. rewrite length_map, length_seq. reflexivity. Qed.

Lemma pvt_solve_omp (m : mem) (n : nat) (nav : list meas) :
  omp (snd (pvt_solve E m n nav))
  = write_from 0 (step_omp E (rx_state m) n nav) (omp m).
Proof. unfold pvt_solve. destruct (d_lt _ _); reflexivity. Qed.

(** A loop left by [break] ends with a least-squares step whose return
    value is positive; what it wrote is what the loop leaves. *)
Lemma pvt_iter_loop_last_step (fuel : nat) (m m' : mem) (n : nat)
  (nav : list meas) :
  pvt_iter_loop E fuel m n nav = (true, m') ->
  exists mp r, pvt_solve E mp n nav = (r, m') /\ (r >? d_zero) = true /\
               length (omp mp) = length (omp m).
Proof.
  revert m; induction fuel as [|fuel IH]; intros m; cbn [pvt_iter_loop].
  - discriminate.
  - destruct (pvt_solve E m n nav) as [r m1] eqn:Hs.
    destruct (d_lt d_zero r) eqn:Hr.
    + intros Heq; inversion Heq; subst. exists m, r. auto.
    + intros Hloop. destruct (IH _ Hloop) as (mp & r' & Hs' & Hr' & Hlen).
      exists mp, r'. repeat split; auto.
      rewrite Hlen. pose proof (pvt_solve_omp m n nav) as Ho.
      rewrite Hs in Ho. cbn [snd] in Ho. rewrite Ho, write_from_length.
      reflexivity.
Qed.

(** A converged pvt_iter ends with a least-squares step: the state and
    the buffer [omp] it leaves are those of that step, and the first [n]
    entries of [omp] are the raw observed-minus-predicted values the step
    computed from the state it started from. *)
Lemma pvt_iter_converged_omp (m : mem) (n : nat) (nav : list meas) :
  (n <= length (omp m))%nat ->
  fst (pvt_iter E m n nav) = 0%Z ->
  exists mp r ml,
    pvt_solve E mp n nav = (r, ml) /\ (r >? d_zero) = true /\
    rx_state (snd (pvt_iter E m n nav)) = rx_state ml /\
    omp (snd (pvt_iter E m n nav)) = omp ml /\
    firstn n (omp ml) = step_omp E (rx_state mp) n nav /\
    length (omp ml) = length (omp m).
Proof.
  intros Hlen. unfold pvt_iter.
  destruct (pvt_iter_loop E _ _ n nav) as [[|] m1] eqn:Hloop;
    cbn [fst snd omp rx_state].
  - intros _. apply pvt_iter_loop_last_step in Hloop
      as (mp & r & Hs & Hr & Hl). cbn [omp] in Hl.
    pose proof (pvt_solve_omp mp n nav) as Ho. rewrite Hs in Ho. cbn [snd] in Ho.
    exists mp, r, m1. repeat split; try assumption.
    + rewrite Ho.
      rewrite write_from_prefix by (rewrite step_omp_length; lia).
      rewrite firstn_app, step_omp_length, Nat.sub_diag, firstn_O, app_nil_r.
      apply firstn_all2. rewrite step_omp_length. lia.
    + rewrite Ho, write_from_length. assumption.
  - discriminate.
Qed.

Lemma residual_test_omp (n : nat) (m : mem) (i : nat) :
  (n <= length (omp m))%nat ->
  (omp (snd (residual_test n m))).[i]
  = if (i <? n)%nat then (omp m).[i] - (rx_state m).[3] else (omp m).[i].
Proof.
  intros Hlen. unfold residual_test. cbn [snd omp]. unfold at_.
  destruct (Nat.ltb_spec i n) as [Hi|Hi].
  - rewrite nth_write_from_inside
      by (rewrite ?length_map, ?length_seq; lia).
    rewrite Nat.sub_0_r, nth_map_seq by lia. reflexivity.
  - apply nth_write_from_after. rewrite length_map, length_seq. lia.
Qed.

(** *** The permutation of the pointer array in pvt_repair *)

Lemma nth_swap (i j idx : nat) (l : list meas) :
  (i < length l)%nat -> (j < length l)%nat ->
  nth idx (swap i j l) meas_zero
  = if (idx =? j)%nat then nth i l meas_zero
    else if (idx =? i)%nat then nth j l meas_zero
    else nth idx l meas_zero.
Proof.
  intros Hi Hj. unfold swap.
  destruct (Nat.eqb_spec idx j) as [->|Hnj].
  - apply nth_upd_same. rewrite upd_length. assumption.
  - rewrite nth_upd_other by auto.
    destruct (Nat.eqb_spec idx i) as [->|Hni].
    + apply nth_upd_same. assumption.
    + apply nth_upd_other. auto.
Qed.

Lemma swap_length (i j : nat) (l : list meas) :
  length (swap i j l) = length l.
Proof. unfold swap. rewrite !upd_length. reflexivity. Qed.

Lemma rotated_length (k : nat) (nav : list meas) :
  (k < length nav)%nat -> length (rotated k nav) = length nav.
Proof.
  intros Hk. unfold rotated.
  rewrite length_app, remove_nth_length by assumption. simpl. lia.
Qed.

Lemma nth_rotated (k idx : nat) (nav : list meas) :
  (k < length nav)%nat -> (idx < length nav)%nat ->
  nth idx (rotated k nav) meas_zero
  = if (idx <? k)%nat then nth idx nav meas_zero
    else if (idx <? length nav - 1)%nat then nth (S idx) nav meas_zero
    else nth k nav meas_zero.
Proof.
  intros Hk Hidx. unfold rotated, remove_nth.
  destruct (Nat.ltb_spec idx k) as [H1|H1].
  - rewrite app_nth1 by (rewrite length_app, length_firstn; lia).
    rewrite app_nth1 by (rewrite length_firstn; lia).
    rewrite nth_firstn. destruct (Nat.ltb_spec idx k); [reflexivity | lia].
  - destruct (Nat.ltb_spec idx (length nav - 1)) as [H2|H2].
    + rewrite app_nth1
        by (rewrite length_app, length_firstn, length_skipn; lia).
      rewrite app_nth2 by (rewrite length_firstn; lia).
      rewrite nth_skipn, length_firstn. f_equal. lia.
    + rewrite app_nth2
        by (rewrite length_app, length_firstn, length_skipn; lia).
      rewrite length_app, length_firstn, length_skipn.
      replace (idx - (Nat.min k (length nav) + (length nav - S k)))%nat
        with 0%nat by lia.
      reflexivity.
Qed.

(** Excluding the last measurement leaves the array as it is. *)
Lemma rotated_last (nav : list meas) :
  (0 < length nav)%nat -> rotated (length nav - 1) nav = nav.
Proof.
  intros Hn. apply (nth_ext _ _ meas_zero meas_zero).
  - apply rotated_length. lia.
  - intros idx Hidx. rewrite rotated_length in Hidx by lia.
    rewrite nth_rotated by lia.
    destruct (Nat.ltb_spec idx (length nav - 1)); [reflexivity|].
    f_equal. lia.
Qed.

(** One swap of the search loop moves the exclusion from candidate
    [S k] to candidate [k]. *)
Lemma swap_rotated (k : nat) (nav : list meas) :
  (S k < length nav)%nat ->
  swap k (length nav - 1) (rotated (S k) nav) = rotated k nav.
Proof.
  intros Hk. apply (nth_ext _ _ meas_zero meas_zero).
  - rewrite swap_length, !rotated_length by lia. reflexivity.
  - intros idx Hidx. rewrite swap_length, rotated_length in Hidx by lia.
    rewrite nth_swap by (rewrite rotated_length; lia).
    rewrite !nth_rotated by lia.
    repeat match goal with
    | |- context [(?a <? ?b)%nat] => destruct (Nat.ltb_spec a b); try lia
    | |- context [(?a =? ?b)%nat] => destruct (Nat.eqb_spec a b); try lia
    end; try reflexivity; f_equal; lia.
Qed.

Lemma swap_same (i : nat) (l : list meas) : swap i i l = l.
Proof.
  unfold swap. rewrite upd_same_value.
  destruct (Nat.lt_ge_cases i (length l)) as [Hi|Hi].
  - apply (nth_ext _ _ meas_zero meas_zero).
    + apply upd_length.
    + intros idx _. destruct (Nat.eq_dec idx i) as [->|Hne].
      * rewrite nth_upd_same by assumption. reflexivity.
      * apply nth_upd_other. auto.
  - apply (nth_ext _ _ meas_zero meas_zero).
    + apply upd_length.
    + intros idx Hidx. rewrite upd_length in Hidx.
      apply nth_upd_other. lia.
Qed.

Lemma rotated_prefix (k : nat) (nav : list meas) :
  (k < length nav)%nat ->
  same_prefix (length nav - 1) (rotated k nav) (remove_nth k nav).
Proof.
  intros Hk. unfold same_prefix, rotated.
  rewrite firstn_app, remove_nth_length, Nat.sub_diag by assumption.
  rewrite firstn_O, app_nil_r. reflexivity.
Qed.

(** *** The search loop of pvt_repair is the leave-one-out search *)

Lemma repair_loop_refines (nav : list meas) (k : nat) :
  forall (arr : list meas) (m : mem) (passing : list nat),
  (0 < length nav)%nat -> (k <= length nav)%nat ->
  arr = (if (k =? length nav)%nat then nav else rotated k nav) ->
  (length passing + k < 256)%nat ->
  repair_loop E k (length nav - 1) arr m
              (Z.of_nat (length passing)) (bad_of passing)
  = (fst (leave_one_out E k nav m passing),
     option_map (fun p => (Z.of_nat (length p), bad_of p))
                (snd (leave_one_out E k nav m passing))).
Proof.
  induction k as [|drop IH]; intros arr m passing Hn Hk Harr Hsmall.
  - reflexivity.
  - cbn [repair_loop leave_one_out].
    assert (Hsub : swap drop (length nav - 1) arr = rotated drop nav).
    { subst arr. destruct (Nat.eqb_spec (S drop) (length nav)) as [Heq|Hne].
      - replace drop with (length nav - 1)%nat by lia.
        rewrite swap_same. symmetry. apply rotated_last. assumption.
      - apply swap_rotated. lia. }
    rewrite Hsub.
    rewrite remove_nth_length by lia.
    rewrite (pvt_iter_ext m _ _ _ (rotated_prefix drop nav ltac:(lia))).
    destruct (pvt_iter E m (length nav - 1) (remove_nth drop nav)) as [flag m1].
    destruct (flag =? -1)%Z; [reflexivity|].
    destruct (residual_test (length nav - 1) m1) as [[passed norm] m2].
    assert (Harr' : rotated drop nav
                    = if (drop =? length nav)%nat then nav else rotated drop nav).
    { destruct (Nat.eqb_spec drop (length nav)); [lia | reflexivity]. }
    destruct passed.
    + replace ((Z.of_nat (length passing) + 1) mod 256)%Z
        with (Z.of_nat (length (drop :: passing)))
        by (cbn [length]; rewrite Z.mod_small; lia).
      change (Z.of_nat drop) with (bad_of (drop :: passing)).
      apply IH; auto; cbn [length]; lia.
    + apply IH; auto; lia.
Qed.

(** The candidates a search reports were all tried: they are below the
    starting index, or were in the list before. *)
Lemma leave_one_out_candidates (nav : list meas) (k : nat) :
  forall (m : mem) (passing found : list nat),
  snd (leave_one_out E k nav m passing) = Some found ->
  forall b, In b found -> (b < k)%nat \/ In b passing.
Proof.
  induction k as [|drop IH]; intros m passing found; cbn [leave_one_out].
  - intros Heq b Hb. inversion Heq; subst. auto.
  - destruct (pvt_iter E m _ _) as [flag m1].
    destruct (flag =? -1)%Z; [discriminate|].
    destruct (residual_test _ m1) as [[passed norm] m2].
    intros Heq b Hb. destruct (IH _ _ _ Heq b Hb) as [Hlt|Hin].
    + left. lia.
    + destruct passed; [|auto].
      destruct Hin as [<-|Hin]; [left; lia | auto].
Qed.

(** The array pvt_repair solves again after the search holds, in its first
    [n - 1] entries, the measurements other than [b]. *)
Lemma resolve_subset_permutation (b : nat) (nav : list meas) :
  (b < length nav)%nat ->
  Permutation
    (firstn (length nav - 1) (upd b (nth (length nav - 1) nav meas_zero) nav))
    (remove_nth b nav).
Proof.
  intros Hb. unfold remove_nth.
  destruct (Nat.eq_dec b (length nav - 1)) as [->|Hne].
  - rewrite upd_same_value.
    replace (S (length nav - 1)) with (length nav) by lia.
    rewrite skipn_all, app_nil_r. apply Permutation_refl.
  - rewrite upd_as_app by assumption.
    rewrite firstn_app, length_firstn.
    rewrite (firstn_all2 (n := length nav - 1) (firstn b nav))
      by (rewrite length_firstn; lia).
    apply Permutation_app_head.
    replace (length nav - 1 - Nat.min b (length nav))%nat
      with (S (length nav - 2 - b)) by lia.
    cbn [firstn].
    set (tl := skipn (S b) nav).
    assert (Hlen : length tl = (length nav - 1 - b)%nat).
    { subst tl. rewrite length_skipn. lia. }
    rewrite (split_last meas_zero tl) at 2 by lia.
    replace (length tl - 1)%nat with (length nav - 2 - b)%nat by lia.
    replace (nth (length nav - 2 - b) tl meas_zero)
      with (nth (length nav - 1) nav meas_zero).
    + apply Permutation_cons_append.
    + subst tl. rewrite nth_skipn. f_equal. lia.
Qed.

(** pvt_repair in terms of the leave-one-out search. *)
Lemma pvt_repair_spec (m : mem) (n : nat) (nav : list meas) :
  (0 < n < 256)%nat -> (n <= length nav)%nat ->
  let nav' := firstn n nav in
  let search := leave_one_out E n nav' m [] in
  pvt_repair E m n nav
  = match snd search with
    | Some [b] =>
        let '(flag, m2) :=
          pvt_iter E (fst search) (n - 1)
                   (upd b (nth (n - 1) nav' meas_zero) nav') in
        if (flag =? 0)%Z
        then Ret (1%Z, Some (sid (nth b nav meas_zero)), m2)
        else Assert_failed
    | _ => Ret ((-1)%Z, None, fst search)
    end.
Proof.
  intros Hn Hlen nav' search. unfold pvt_repair.
  assert (Hl : length nav' = n).
  { subst nav'. rewrite length_firstn. lia. }
  change 0%Z with (Z.of_nat (length (@nil nat))).
  change (-1)%Z with (bad_of []) at 1.
  fold nav'. rewrite <- Hl at 1 2.
  rewrite repair_loop_refines; try lia.
  2:{ rewrite Nat.eqb_refl. reflexivity. }
  2:{ cbn [length]. lia. }
  rewrite Hl. fold search.
  destruct (snd search) as [[|b [|b' rest]]|]; cbn [option_map length bad_of].
  - reflexivity.
  - cbn [Z.of_nat Pos.of_succ_nat Z.eqb Pos.eqb Z.compare].
    rewrite Nat2Z.id. reflexivity.
  - destruct (Z.eqb_spec (Z.of_nat (S (S (length rest)))) 1); [lia|].
    reflexivity.
  - reflexivity.
Qed.

(** *** The log only grows *)

Lemma pvt_iter_log_extends (m : mem) (n : nat) (nav : list meas) :
  exists l, log (snd (pvt_iter E m n nav)) = log m ++ l.
Proof.
  destruct (pvt_iter_flag_log m n nav) as [_ Hl]. eexists. exact Hl.
Qed.

Lemma residual_test_log_extends (n : nat) (m : mem) :
  exists l, log (snd (residual_test n m)) = log m ++ l.
Proof.
  destruct (residual_test_frame n m) as (_ & _ & Hl). eexists. exact Hl.
Qed.

Lemma repair_loop_log_extends (k one_less : nat) :
  forall (subset : list meas) (m : mem) (np bad : Z),
  exists l, log (fst (repair_loop E k one_less subset m np bad)) = log m ++ l.
Proof.
  induction k as [|drop IH]; intros subset m np bad; cbn [repair_loop].
  - exists []. rewrite app_nil_r. reflexivity.
  - destruct (pvt_iter_log_extends m one_less (swap drop one_less subset))
      as [l1 Hl1].
    destruct (pvt_iter E m one_less _) as [flag m1]. cbn [snd] in Hl1.
    destruct (flag =? -1)%Z.
    + exists l1. exact Hl1.
    + destruct (residual_test_log_extends one_less m1) as [l2 Hl2].
      destruct (residual_test one_less m1) as [[passed norm] m2].
      cbn [snd] in Hl2.
      destruct passed;
        match goal with |- context [repair_loop E drop one_less ?s m2 ?a ?b] =>
          destruct (IH s m2 a b) as [l3 Hl3] end;
        exists (l1 ++ l2 ++ l3);
        rewrite Hl3, Hl2, Hl1, <- !app_assoc; reflexivity.
Qed.

Lemma pvt_repair_log_extends (m : mem) (n : nat) (nav : list meas)
  (r : Z) (removed : option gnss_signal_t) (m' : mem) :
  pvt_repair E m n nav = Ret (r, removed, m') ->
  exists l, log m' = log m ++ l.
Proof.
  unfold pvt_repair.
  destruct (repair_loop_log_extends n (n - 1) (firstn n nav) m 0 (-1))
    as [l1 Hl1].
  destruct (repair_loop E n (n - 1) (firstn n nav) m 0 (-1)) as [m1 [[np bad]|]];
    cbn [fst] in Hl1.
  - destruct (np =? 1)%Z.
    + match goal with |- context [pvt_iter E m1 ?k ?s] =>
        destruct (pvt_iter_log_extends m1 k s) as [l2 Hl2];
        destruct (pvt_iter E m1 k s) as [flag m2] end.
      cbn [snd] in Hl2.
      destruct (flag =? 0)%Z; [|discriminate].
      intros Heq; inversion Heq; subst.
      exists (l1 ++ l2). rewrite Hl2, Hl1, <- app_assoc. reflexivity.
    + intros Heq; inversion Heq; subst. exists l1. exact Hl1.
  - intros Heq; inversion Heq; subst. exists l1. exact Hl1.
Qed.

(** *** The buffer [omp] keeps its length *)

Lemma pvt_iter_loop_omp_length (fuel : nat) (n : nat) (nav : list meas) :
  forall m : mem,
  length (omp (snd (pvt_iter_loop E fuel m n nav))) = length (omp m).
Proof.
  induction fuel as [|fuel IH]; intros m; cbn [pvt_iter_loop]; [reflexivity|].
  pose proof (pvt_solve_omp m n nav) as Ho.
  destruct (pvt_solve E m n nav) as [r m1]. cbn [snd] in Ho.
  assert (Hl : length (omp m1) = length (omp m))
    by (rewrite Ho; apply write_from_length).
  destruct (d_lt d_zero r); cbn [snd]; [exact Hl|].
  rewrite IH. exact Hl.
Qed.

Lemma pvt_iter_omp_length (m : mem) (n : nat) (nav : list meas) :
  length (omp (snd (pvt_iter E m n nav))) = length (omp m).
Proof.
  unfold pvt_iter.
  match goal with |- context [pvt_iter_loop E ?f ?m0 n nav] =>
    pose proof (pvt_iter_loop_omp_length f n nav m0) as Hl;
    destruct (pvt_iter_loop E f m0 n nav) as [[|] m1] end;
    cbn [snd omp] in *; exact Hl.
Qed.

Lemma residual_test_omp_length (n : nat) (m : mem) :
  length (omp (snd (residual_test n m))) = length (omp m).
Proof. unfold residual_test. cbn [snd omp]. apply write_from_length. Qed.

Lemma repair_loop_omp_length (k one_less : nat) :
  forall (subset : list meas) (m : mem) (np bad : Z),
  length (omp (fst (repair_loop E k one_less subset m np bad))) = length (omp m).
Proof.
  induction k as [|drop IH]; intros subset m np bad; cbn [repair_loop];
    [reflexivity|].
  pose proof (pvt_iter_omp_length m one_less (swap drop one_less subset)) as Hl1.
  destruct (pvt_iter E m one_less _) as [flag m1]. cbn [snd] in Hl1.
  destruct (flag =? -1)%Z; [exact Hl1|].
  pose proof (residual_test_omp_length one_less m1) as Hl2.
  destruct (residual_test one_less m1) as [[passed norm] m2]. cbn [snd] in Hl2.
  destruct passed; rewrite IH, Hl2; exact Hl1.
Qed.

(** A return of 1 from pvt_repair comes from its final solve, which
    converged and left the memory that is returned. *)
Lemma pvt_repair_success (m : mem) (n : nat) (nav : list meas)
  (removed : option gnss_signal_t) (m' : mem) :
  pvt_repair E m n nav = Ret (1%Z, removed, m') ->
  exists (subset : list meas) (m1 : mem),
    pvt_iter E m1 (n - 1) subset = (0%Z, m') /\
    length (omp m1) = length (omp m).
Proof.
  unfold pvt_repair.
  pose proof (repair_loop_omp_length n (n - 1) (firstn n nav) m 0 (-1)) as Hl.
  destruct (repair_loop E n (n - 1) (firstn n nav) m 0 (-1)) as [m1 [[np bad]|]].
  - cbn [fst] in Hl. destruct (np =? 1)%Z.
    + match goal with |- context [pvt_iter E m1 ?k ?s] =>
        destruct (pvt_iter E m1 k s) as [flag m2] eqn:Hit end.
      destruct (Z.eqb_spec flag 0); [|discriminate].
      intros Heq. inversion Heq; subst. eexists _, m1. split; [exact Hit|exact Hl].
    + intros Heq; inversion Heq.
  - intros Heq; inversion Heq.
Qed.

(** *** Return codes and what a failure leaves behind *)

Lemma at_write_zero (rx : list D) (i : nat) :
  (i < 3)%nat -> (write_from 0 [d_zero; d_zero; d_zero] rx).[i] = d_zero.
Proof.
  intros Hi. unfold at_.
  destruct (Nat.lt_ge_cases i (length rx)) as [Hlt|Hge].
  - rewrite nth_write_from_inside by (simpl; lia).
    rewrite Nat.sub_0_r.
    destruct i as [|[|[|i]]]; simpl; try reflexivity; lia.
  - apply nth_overflow. rewrite write_from_length. assumption.
Qed.

(** When pvt_iter fails it leaves a zero position. *)
Lemma pvt_iter_failed_position (m : mem) (n : nat) (nav : list meas) (i : nat) :
  fst (pvt_iter E m n nav) = (-1)%Z -> (i < 3)%nat ->
  (rx_state (snd (pvt_iter E m n nav))).[i] = d_zero.
Proof.
  unfold pvt_iter.
  destruct (pvt_iter_loop E _ _ n nav) as [[|] m1]; cbn [fst snd rx_state].
  - discriminate.
  - intros _ Hi. apply at_write_zero; assumption.
Qed.

Lemma filter_solution_range (soln : gnss_solution D) (dops : dops_t D) :
  filter_solution soln dops = 0%Z \/ filter_solution soln dops = 1%Z \/
  filter_solution soln dops = 2%Z.
Proof.
  unfold filter_solution.
  destruct (d_lt _ _); auto.
  destruct (_ || _); auto.
Qed.

Lemma pvt_repair_flag (m : mem) (n : nat) (nav : list meas)
  (r : Z) (removed : option gnss_signal_t) (m' : mem) :
  pvt_repair E m n nav = Ret (r, removed, m') -> r = 1%Z \/ r = (-1)%Z.
Proof.
  unfold pvt_repair.
  destruct (repair_loop E n (n - 1) (firstn n nav) m 0 (-1)) as [m1 [[np bad]|]].
  - destruct (np =? 1)%Z.
    + destruct (pvt_iter E m1 _ _) as [flag m2].
      destruct (flag =? 0)%Z; [|discriminate].
      intros Heq; inversion Heq; auto.
    + intros Heq; inversion Heq; auto.
  - intros Heq; inversion Heq; auto.
Qed.

(** The return values of pvt_solve_raim; -3 comes with a zero position. *)
Lemma pvt_solve_raim_flag (m : mem) (n : nat) (nav : list meas)
  (disable_raim : bool) (r : Z) (removed : option gnss_signal_t) (m' : mem) :
  pvt_solve_raim E m n nav disable_raim = Ret (r, removed, m') ->
  (-3 <= r <= 2)%Z /\
  (r = (-3)%Z -> forall i, (i < 3)%nat -> (rx_state m').[i] = d_zero).
Proof.
  unfold pvt_solve_raim.
  destruct (MAX_CHANNELS E <? n)%nat; [discriminate|].
  pose proof (pvt_iter_failed_position m n (firstn n nav)) as Hpos.
  pose proof (pvt_iter_flag_log m n (firstn n nav)) as [Hflag _].
  destruct (pvt_iter E m n (firstn n nav)) as [flag m1].
  cbn [fst snd] in *.
  destruct Hflag as [-> | ->]; cbn [Z.eqb Z.leb Z.compare].
  - match goal with |- context [if ?c then (true, m1) else ?t] =>
      destruct (if c then (true, m1) else t) as [ok m2] end.
    destruct ok.
    + destruct (_ || _); intros Heq; inversion Heq; subst; split; try lia.
    + destruct (n <? 6)%nat.
      * intros Heq; inversion Heq; subst; split; lia.
      * intros Heq. apply pvt_repair_flag in Heq. split; lia.
  - intros Heq; inversion Heq; subst. split; [lia|].
    intros _ i Hi. apply Hpos; auto.
Qed.

(** A return of -2 by pvt_solve_raim: the first solve converged, the
    residual test on it failed, and the state is the one the solve left
    (the residual test does not write it). *)
Lemma pvt_solve_raim_test_failed_state (m : mem) (n : nat) (nav : list meas)
  (disable_raim : bool) (removed : option gnss_signal_t) (m' : mem) :
  pvt_solve_raim E m n nav disable_raim = Ret ((-2)%Z, removed, m') ->
  let it := pvt_iter E m n (firstn n nav) in
  fst it = 0%Z /\
  fst (fst (residual_test n (snd it))) = false /\
  rx_state m' = rx_state (snd it).
Proof.
  cbv zeta. unfold pvt_solve_raim.
  destruct (MAX_CHANNELS E <? n)%nat; [discriminate|].
  pose proof (pvt_iter_flag_log m n (firstn n nav)) as [Hflag _].
  destruct (pvt_iter E m n (firstn n nav)) as [flag m1].
  cbn [fst snd] in *.
  destruct Hflag as [-> | ->]; cbn [Z.eqb Z.leb Z.compare]; [|discriminate].
  destruct disable_raim; cbn [orb].
  { intros Heq; inversion Heq. }
  pose proof (residual_test_frame n m1) as (Hrx & _ & _).
  destruct (residual_test n m1) as [[passed norm] m2]. cbn [fst snd] in *.
  destruct passed.
  - destruct (n =? 4)%nat; intros Heq; inversion Heq.
  - destruct (n <? 6)%nat.
    + intros Heq; inversion Heq; subst.
      split; [reflexivity|]. split; [reflexivity | exact Hrx].
    + intros Heq. apply pvt_repair_flag in Heq. lia.
Qed.

(** How a call of calc_PVT can end. *)
Lemma calc_PVT_cases (n : nat) (nav : list meas) (disable_raim : bool)
  (w : pvt_world D) (ret : Z) (w' : pvt_world D) :
  calc_PVT E n nav disable_raim w = Ret (ret, w') ->
  ((n < 4)%nat /\ ret = (-7)%Z /\ w' = w) \/
  ((4 <= n)%nat /\
   exists flag removed m1,
     pvt_solve_raim E (entry_mem n w) n nav disable_raim = Ret (flag, removed, m1) /\
     let n_reported := if (flag =? 1)%Z then ((Z.of_nat n - 1) mod 256)%Z
                       else Z.of_nat n in
     let dops := compute_dops E (Hmat m1) (firstn 3 (rx_state m1)) in
     let soln := populate E n_reported nav (rx_state m1) (Hmat m1) dops in
     (((-3 <= flag < 0)%Z /\ ret = (flag - 3)%Z /\
       w' = {| w_rx_state := rx_state m1;
               w_soln := set_n_used (Z.of_nat n) (set_valid 0 (w_soln w));
               w_dops := w_dops w; w_log := log m1 |}) \/
      ((0 <= flag <= 2)%Z /\ quality E n_reported nav m1 = 0%Z /\ ret = flag /\
       w' = {| w_rx_state := rx_state m1; w_soln := set_valid 1 soln;
               w_dops := dops; w_log := log m1 |}) \/
      ((0 <= flag <= 2)%Z /\
       (quality E n_reported nav m1 = 1 \/ quality E n_reported nav m1 = 2)%Z /\
       ret = (- quality E n_reported nav m1)%Z /\
       w' = {| w_rx_state := write_from 0 [d_zero; d_zero; d_zero] (rx_state m1);
               w_soln := soln_zero; w_dops := dops; w_log := log m1 |}))).
Proof.
  unfold calc_PVT.
  destruct (Nat.ltb_spec n 4) as [Hlt|Hge].
  - intros Heq; inversion Heq; left; auto.
  - destruct (pvt_solve_raim E (entry_mem n w) n nav disable_raim)
      as [[[flag removed] m1]|] eqn:Hraim; [|discriminate].
    intros Heq. right. split; [assumption|].
    exists flag, removed, m1. split; [reflexivity|].
    apply pvt_solve_raim_flag in Hraim as [Hrange _].
    unfold calc_PVT_finish in Heq. unfold quality. cbv zeta.
    destruct (Z.ltb_spec flag 0).
    + inversion Heq; subst. left. repeat split; try lia.
    + match type of Heq with context [filter_solution ?s ?d] =>
        pose proof (filter_solution_range s d) as Hf;
        destruct (Z.eqb_spec (filter_solution s d) 0) as [H0|Hn0] end.
      * inversion Heq; subst. right; left. repeat split; try lia; try assumption.
      * inversion Heq; subst. right; right. repeat split; try lia; try assumption.
Qed.

(** *** The correction does not depend on the old clock bias *)

Lemma channel_clock_independent (rx : list D) (b : D) (nm : meas) :
  channel E (upd 3 b rx) nm = channel E rx nm.
Proof.
  assert (Hat : forall i, (i < 3)%nat -> (upd 3 b rx).[i] = rx.[i]).
  { intros i Hi. unfold at_. apply nth_upd_other. lia. }
  assert (Hl : forall x, vector_subtract 3 (upd 3 b rx) x = vector_subtract 3 rx x).
  { intros x. unfold vector_subtract. cbn [seq map].
    rewrite !Hat by lia. reflexivity. }
  assert (Hr : forall x, vector_subtract 3 x (upd 3 b rx) = vector_subtract 3 x rx).
  { intros x. unfold vector_subtract. cbn [seq map].
    rewrite !Hat by lia. reflexivity. }
  unfold channel. rewrite Hl, Hr. reflexivity.
Qed.

Lemma step_correction_clock_independent (rx : list D) (b : D) (n : nat)
  (nav : list meas) :
  step_correction E (upd 3 b rx) n nav = step_correction E rx n nav.
Proof.
  assert (Homp : step_omp E (upd 3 b rx) n nav = step_omp E rx n nav).
  { unfold step_omp. apply map_ext. intros j.
    rewrite channel_clock_independent. reflexivity. }
  assert (HG : step_G E (upd 3 b rx) n nav = step_G E rx n nav).
  { unfold step_G. apply flat_map_ext. intros j.
    rewrite channel_clock_independent. reflexivity. }
  unfold step_correction, step_X, step_H. rewrite Homp, HG. reflexivity.
Qed.

(** *** The end of calc_PVT *)

Lemma quality_after_test (k : Z) (nav : list meas) (n : nat) (m : mem) :
  quality E k nav (snd (residual_test n m)) = quality E k nav m.
Proof.
  destruct (residual_test_frame n m) as (Hrx & HH & _).
  unfold quality. rewrite Hrx, HH. reflexivity.
Qed.

(** calc_PVT_finish after a non-negative flag, in terms of [quality]. *)
Lemma calc_PVT_finish_nonneg (n : nat) (nav : list meas) (w : pvt_world D)
  (soln0 : gnss_solution D) (flag : Z) (m : mem) :
  (0 <= flag)%Z ->
  let k := if (flag =? 1)%Z then ((Z.of_nat n - 1) mod 256)%Z else Z.of_nat n in
  let dops := compute_dops E (Hmat m) (firstn 3 (rx_state m)) in
  calc_PVT_finish E n nav w soln0 flag m
  = if (quality E k nav m =? 0)%Z
    then (flag,
          {| w_rx_state := rx_state m;
             w_soln := set_valid 1 (populate E k nav (rx_state m) (Hmat m) dops);
             w_dops := dops; w_log := log m |})
    else ((- quality E k nav m)%Z,
          {| w_rx_state := write_from 0 [d_zero; d_zero; d_zero] (rx_state m);
             w_soln := soln_zero; w_dops := dops; w_log := log m |}).
Proof.
  intros Hflag k dops. unfold calc_PVT_finish, quality.
  destruct (Z.ltb_spec flag 0); [lia|]. reflexivity.
Qed.

(** With RAIM enabled, a converged first solve of 6 or more measurements
    whose residual test fails hands over to pvt_repair. *)
Lemma pvt_solve_raim_repairs (n : nat) (nav : list meas) (w : pvt_world D) :
  (6 <= n)%nat -> (n <= MAX_CHANNELS E)%nat ->
  converged E n nav w -> test_passed E n nav w = false ->
  pvt_solve_raim E (entry_mem n w) n nav false
  = pvt_repair E (snd (first_test E n nav w)) n nav.
Proof.
  intros Hn Hmax Hconv Hfail.
  unfold pvt_solve_raim.
  destruct (Nat.ltb_spec (MAX_CHANNELS E) n); [lia|]. cbv zeta.
  unfold converged, test_passed, first_test, first_solve in *.
  destruct (pvt_iter E (entry_mem n w) n (firstn n nav)) as [flag m1].
  cbn [fst snd] in *. subst flag. cbn [Z.eqb Z.leb Z.compare].
  destruct (residual_test n m1) as [[passed norm] m2].
  cbn [fst snd] in *. subst passed.
  destruct (Nat.ltb_spec n 6); [lia|]. reflexivity.
Qed.


(** *** When the iteration controller declares convergence *)

Lemma pvt_iter_loop_breaks_iff (fuel : nat) (n : nat) (nav : list meas) :
  forall m : mem,
  fst (pvt_iter_loop E fuel m n nav) = true <->
  exists k, (k < fuel)%nat /\ (step_return E k m n nav >? d_zero) = true.
Proof.
  induction fuel as [|fuel IH]; intros m; cbn [pvt_iter_loop].
  - split; [discriminate | intros (k & Hk & _); lia].
  - unfold step_return in *.
    destruct (pvt_solve E m n nav) as [r m'] eqn:Hs.
    destruct (d_lt d_zero r) eqn:Hr; cbn [fst].
    + split; [|reflexivity]. intros _. exists 0%nat.
      cbn [solve_steps]. rewrite Hs. split; [lia | exact Hr].
    + rewrite IH. split.
      * intros (k & Hk & Hpos). exists (S k). split; [lia|].
        cbn [solve_steps]. rewrite Hs. exact Hpos.
      * intros (k & Hk & Hpos). destruct k as [|k].
        -- cbn [solve_steps] in Hpos. rewrite Hs in Hpos. cbn [fst] in Hpos.
           congruence.
        -- exists k. split; [lia|].
           cbn [solve_steps] in Hpos. rewrite Hs in Hpos. exact Hpos.
Qed.
End SolverFacts.

(** ** The claims *)

Section Claims.
Context {D : Type} {SD : Scalar D}.
Variable E : Externals D.
Local Open Scope double_scope.

Abbreviation meas := (navigation_measurement_t D).
Abbreviation mem := (solver_mem D).

Ltac nat_tests :=
  repeat match goal with
  | |- context [(?a <? ?b)%nat] => destruct (Nat.ltb_spec a b); try lia
  | |- context [(?a =? ?b)%nat] => destruct (Nat.eqb_spec a b); try lia
  end.

(** C1 (amended): exactly 4 measurements whose solve converges.  With RAIM
    disabled the residual test is skipped and pvt_solve_raim yields 2.  With
    RAIM enabled the residual test is run once on the 4-measurement
    solution, and when it passes pvt_solve_raim yields 2 (not 0).  In both
    cases calc_PVT returns that 2 when the quality filter accepts the
    solution, and the filter's code negated otherwise. *)
Theorem exactly_four_measurements (nav : list meas) (w : pvt_world D) :
  (4 <= MAX_CHANNELS E)%nat -> converged E 4 nav w ->
  let m1 := snd (first_solve E 4 nav w) in
  let m2 := snd (first_test E 4 nav w) in
  (pvt_solve_raim E (entry_mem 4 w) 4 nav true = Ret (2%Z, None, m1) /\
   log m1 = w_log w ++ [Ev_pvt_iter 4 (firstn 4 nav) 0%Z]) /\
  (log m2 = w_log w ++ [Ev_pvt_iter 4 (firstn 4 nav) 0%Z;
                        Ev_residual_test 4 (test_passed E 4 nav w)] /\
   exists r, pvt_solve_raim E (entry_mem 4 w) 4 nav false = Ret (r, None, m2) /\
             (test_passed E 4 nav w = true -> r = 2%Z)) /\
  (forall disable_raim,
     disable_raim = true \/ test_passed E 4 nav w = true ->
     exists w',
       calc_PVT E 4 nav disable_raim w
       = Ret (if (quality E 4 nav m1 =? 0)%Z then 2%Z
              else (- quality E 4 nav m1)%Z, w') /\
       w_log w' = log (if disable_raim then m1 else m2)).
Proof.
  intros Hmax Hconv m1 m2.
  assert (Hlog1 : log m1 = w_log w ++ [Ev_pvt_iter 4 (firstn 4 nav) 0%Z]).
  { subst m1. unfold first_solve.
    destruct (pvt_iter_flag_log E (entry_mem 4 w) 4 (firstn 4 nav)) as [_ Hl].
    rewrite Hl. unfold converged, first_solve in Hconv. rewrite Hconv.
    rewrite firstn_firstn. reflexivity. }
  assert (Hlog2 : log m2 = w_log w ++ [Ev_pvt_iter 4 (firstn 4 nav) 0%Z;
                        Ev_residual_test 4 (test_passed E 4 nav w)]).
  { subst m2. unfold first_test.
    destruct (residual_test_frame 4 (snd (first_solve E 4 nav w)))
      as (_ & _ & Hl).
    rewrite Hl. fold m1. rewrite Hlog1, <- app_assoc. reflexivity. }
  assert (Hoff : pvt_solve_raim E (entry_mem 4 w) 4 nav true = Ret (2%Z, None, m1)).
  { unfold pvt_solve_raim.
    destruct (Nat.ltb_spec (MAX_CHANNELS E) 4); [lia|].
    cbv zeta. subst m1. unfold converged, first_solve in *.
    destruct (pvt_iter E (entry_mem 4 w) 4 (firstn 4 nav)) as [flag m].
    cbn [fst snd] in *. subst flag. reflexivity. }
  assert (Hon : exists r,
             pvt_solve_raim E (entry_mem 4 w) 4 nav false = Ret (r, None, m2) /\
             (test_passed E 4 nav w = true -> r = 2%Z)).
  { unfold pvt_solve_raim.
    destruct (Nat.ltb_spec (MAX_CHANNELS E) 4); [lia|].
    cbv zeta. subst m2. unfold test_passed, first_test.
    subst m1. unfold converged, first_solve in *.
    destruct (pvt_iter E (entry_mem 4 w) 4 (firstn 4 nav)) as [flag m].
    cbn [fst snd] in *. subst flag. cbn [Z.eqb Z.leb Z.compare].
    destruct (residual_test 4 m) as [[passed norm] m'].
    cbn [fst snd]. destruct passed; cbn.
    - exists 2%Z. split; reflexivity.
    - exists (-2)%Z. split; [reflexivity | discriminate]. }
  split; [split; assumption|]. split; [split; assumption|].
  intros disable_raim Hcase.
  assert (Hraim : pvt_solve_raim E (entry_mem 4 w) 4 nav disable_raim
                  = Ret (2%Z, None, if disable_raim then m1 else m2)).
  { destruct disable_raim; [assumption|].
    destruct Hon as (r & Hr & Hpass).
    destruct Hcase as [Hc|Hc]; [discriminate|].
    rewrite (Hpass Hc) in Hr. assumption. }
  assert (Hq : quality E 4 nav (if disable_raim then m1 else m2)
               = quality E 4 nav m1).
  { destruct disable_raim; [reflexivity|].
    subst m2. unfold first_test. apply quality_after_test. }
  unfold calc_PVT. cbn [Nat.ltb Nat.leb]. rewrite Hraim.
  rewrite calc_PVT_finish_nonneg by lia. cbv zeta.
  change (2 =? 1)%Z with false. cbv iota. change (Z.of_nat 4) with 4%Z.
  rewrite Hq.
  destruct (quality E 4 nav m1 =? 0)%Z; eexists; split; reflexivity.
Qed.

(** C2 (amended): the repair of a converged solution of n >= 6
    measurements whose residual test failed.  The search solves the
    leave-one-out subsets from the last candidate to the first, and stops
    with failure as soon as one does not converge.  When all n converge and
    exactly one passes the residual test, that subset (the same
    measurements, in another order) is solved again; if this converges (the
    code asserts it), the solution is kept, the identity of the excluded
    satellite is recorded through [removed_sid], pvt_solve_raim yields 1,
    and calc_PVT returns 1 with the measurement count decremented by one
    when the quality filter accepts the repaired solution, and the filter's
    code negated otherwise.  When no subset or more than one passes, or the
    search was stopped, calc_PVT returns -4. *)
Theorem repair_search_outcome (n : nat) (nav : list meas) (w : pvt_world D) :
  (6 <= n)%nat -> (n <= MAX_CHANNELS E)%nat -> (n <= 127)%nat ->
  (n <= length nav)%nat ->
  converged E n nav w -> test_passed E n nav w = false ->
  let nav' := firstn n nav in
  let search := leave_one_out E n nav' (snd (first_test E n nav w)) [] in
  let failed :=
    Ret ((-4)%Z,
         {| w_rx_state := rx_state (fst search);
            w_soln := set_n_used (Z.of_nat n) (set_valid 0 (w_soln w));
            w_dops := w_dops w; w_log := log (fst search) |}) in
  match snd search with
  | None => calc_PVT E n nav false w = failed
  | Some [bad_sat] =>
      let subset := upd bad_sat (nth (n - 1) nav' meas_zero) nav' in
      let resolve := pvt_iter E (fst search) (n - 1) subset in
      let q := quality E (Z.of_nat n - 1) nav (snd resolve) in
      (bad_sat < n)%nat /\
      Permutation (firstn (n - 1) subset) (remove_nth bad_sat nav') /\
      (fst resolve = 0%Z ->
       pvt_solve_raim E (entry_mem n w) n nav false
       = Ret (1%Z, Some (sid (nth bad_sat nav meas_zero)), snd resolve) /\
       exists w',
         calc_PVT E n nav false w
         = Ret (if (q =? 0)%Z then 1%Z else (- q)%Z, w') /\
         (q = 0%Z ->
          n_used (w_soln w') = (Z.of_nat n - 1)%Z /\
          valid (w_soln w') = 1%Z /\
          w_rx_state w' = rx_state (snd resolve)))
  | Some _ => calc_PVT E n nav false w = failed
  end.
Proof.
  intros Hn Hmax Hs8 Hlen Hconv Hfail nav' search failed.
  pose proof (pvt_solve_raim_repairs E n nav w Hn Hmax Hconv Hfail) as Hraim.
  rewrite pvt_repair_spec in Hraim by lia. cbv zeta in Hraim.
  fold nav' in Hraim. fold search in Hraim.
  assert (Hl : length nav' = n).
  { subst nav'. rewrite length_firstn. lia. }
  assert (Hfailed : forall m,
            pvt_solve_raim E (entry_mem n w) n nav false = Ret ((-1)%Z, None, m) ->
            m = fst search ->
            calc_PVT E n nav false w = failed).
  { intros m Hr ->. unfold calc_PVT.
    destruct (Nat.ltb_spec n 4); [lia|]. rewrite Hr. reflexivity. }
  destruct (snd search) as [[|b [|b' rest]]|] eqn:Hsearch.
  - apply (Hfailed _ Hraim eq_refl).
  - intros subset resolve q.
    assert (Hb : (b < n)%nat).
    { destruct (leave_one_out_candidates E nav' n _ _ _ Hsearch b
                  (or_introl eq_refl)) as [Hb|[]]. exact Hb. }
    split; [exact Hb|]. split.
    { subst subset. rewrite <- Hl.
      apply resolve_subset_permutation. lia. }
    intros Hres.
    assert (Hr1 : pvt_solve_raim E (entry_mem n w) n nav false
                  = Ret (1%Z, Some (sid (nth b nav meas_zero)), snd resolve)).
    { rewrite Hraim. subst resolve subset.
      destruct (pvt_iter E (fst search) (n - 1) _) as [flag m2].
      cbn [fst snd] in *. subst flag. reflexivity. }
    split; [exact Hr1|].
    unfold calc_PVT. destruct (Nat.ltb_spec n 4); [lia|]. rewrite Hr1.
    rewrite calc_PVT_finish_nonneg by lia. cbv zeta.
    change (1 =? 1)%Z with true. cbv iota.
    rewrite Z.mod_small by lia. fold q.
    destruct (Z.eqb_spec q 0) as [Hq|Hq]; eexists; (split; [reflexivity|]);
      intros Hq'; [|contradiction].
    cbn [w_soln w_rx_state]. unfold populate, set_valid. cbn [n_used valid].
    auto.
  - apply (Hfailed _ Hraim eq_refl).
  - apply (Hfailed _ Hraim eq_refl).
Qed.

(** C3 (amended): what a negative return leaves behind.  A rejection by the
    quality filter (-1, -2) zeroes the output solution and clears the
    position part of the persistent state.  Non-convergence (-6) clears the
    position part too, but of the output solution only [valid] (0) and
    [n_used] are written.  The RAIM failures (-4, -5) write only [valid]
    (0) and [n_used] as well, and calc_PVT does not clear the position: the
    persistent state is the one pvt_solve_raim left behind, which for -5 is
    the converged estimate of the first solve, the one whose residual test
    has just failed.  With -7 nothing is touched. *)
Theorem calc_PVT_rejection_effects
  (n : nat) (nav : list meas) (disable_raim : bool) (w : pvt_world D)
  (ret : Z) (w' : pvt_world D) :
  calc_PVT E n nav disable_raim w = Ret (ret, w') ->
  ((ret = -1 \/ ret = -2)%Z ->
   w_soln w' = soln_zero /\
   forall i, (i < 3)%nat -> (w_rx_state w').[i] = d_zero) /\
  (ret = (-6)%Z ->
   w_soln w' = set_n_used (Z.of_nat n) (set_valid 0 (w_soln w)) /\
   forall i, (i < 3)%nat -> (w_rx_state w').[i] = d_zero) /\
  ((ret = -4 \/ ret = -5)%Z ->
   w_soln w' = set_n_used (Z.of_nat n) (set_valid 0 (w_soln w)) /\
   exists removed m1,
     pvt_solve_raim E (entry_mem n w) n nav disable_raim
     = Ret ((ret + 3)%Z, removed, m1) /\
     w_rx_state w' = rx_state m1) /\
  (ret = (-5)%Z ->
   converged E n nav w /\ test_passed E n nav w = false /\
   w_rx_state w' = rx_state (snd (first_solve E n nav w))) /\
  (ret = (-7)%Z -> w' = w).
Proof.
  intros Hcall.
  destruct (calc_PVT_cases E _ _ _ _ _ _ Hcall)
    as [(Hn & -> & ->) | (Hn & flag & removed & m1 & Hraim & Hcase)].
  { repeat split; intros; try lia; reflexivity. }
  cbv zeta in Hcase.
  pose proof (pvt_solve_raim_flag E _ _ _ _ _ _ _ Hraim) as [Hrange Hpos].
  destruct Hcase as [(Hf & -> & ->) | [(Hf & Hq & -> & ->) | (Hf & Hq & -> & ->)]];
    cbn [w_soln w_rx_state].
  - split; [intros; lia|].
    split; [intros Hret; split; [reflexivity|]; intros i Hi; apply Hpos;
            [lia | assumption]|].
    split; [intros Hret; split; [reflexivity|]; exists removed, m1;
            replace (flag - 3 + 3)%Z with flag by lia; split;
            [exact Hraim | reflexivity]|].
    split; [|intros; lia].
    intros Hret. assert (Hflag : flag = (-2)%Z) by lia. subst flag.
    apply pvt_solve_raim_test_failed_state in Hraim as (Hconv & Htest & Hrx).
    unfold converged, test_passed, first_test, first_solve.
    split; [exact Hconv|]. split; [exact Htest | exact Hrx].
  - repeat split; intros; lia.
  - split; [|repeat split; intros; lia].
    intros Hret. split; [reflexivity|].
    intros i Hi. apply at_write_zero; assumption.
Qed.

(** C5: with fewer than 4 measurements calc_PVT returns -7 at once; the
    output solution, the DOP structure, the persistent state and the log of
    solver calls are what they were. *)
Theorem calc_PVT_too_few_measurements
  (n : nat) (nav : list meas) (disable_raim : bool) (w : pvt_world D) :
  (n < 4)%nat -> calc_PVT E n nav disable_raim w = Ret ((-7)%Z, w).
Proof.
  intros Hn. unfold calc_PVT. nat_tests. reflexivity.
Qed.

(** C6: a converged solution of 5 measurements (4 < n < 6) with RAIM
    enabled whose residual test fails makes calc_PVT return -5; the log shows
    the first solve and its test and nothing after them (no leave-one-out
    solve), the state is the one the first solve left, and of the output
    solution only [valid] and [n_used] were written. *)
Theorem calc_PVT_repair_impossible
  (n : nat) (nav : list meas) (w : pvt_world D) :
  (4 < n < 6)%nat -> (n <= MAX_CHANNELS E)%nat ->
  converged E n nav w -> test_passed E n nav w = false ->
  calc_PVT E n nav false w
  = Ret ((-5)%Z,
         {| w_rx_state := rx_state (snd (first_solve E n nav w));
            w_soln := set_n_used (Z.of_nat n) (set_valid 0 (w_soln w));
            w_dops := w_dops w;
            w_log := w_log w ++ [Ev_pvt_iter n (firstn n nav) 0%Z;
                                 Ev_residual_test n false] |}).
Proof.
  intros Hn Hmax Hconv Hfail.
  unfold converged, test_passed, first_test in *.
  pose proof (pvt_iter_flag_log E (entry_mem n w) n (firstn n nav)) as [_ Hlog].
  unfold first_solve in *.
  unfold calc_PVT, pvt_solve_raim. nat_tests.
  rewrite firstn_firstn, Nat.min_id in *.
  destruct (pvt_iter E (entry_mem n w) n (firstn n nav)) as [flag m1].
  cbn [fst snd] in *. subst flag. cbn [Z.eqb Z.leb Z.compare].
  pose proof (residual_test_frame n m1) as (Hrx & _ & Hl2).
  destruct (residual_test n m1) as [[passed norm] m2].
  cbn [fst snd] in *. subst passed.
  unfold calc_PVT_finish. cbn.
  rewrite Hrx, Hl2, Hlog, <- app_assoc. reflexivity.
Qed.

(** C7: one Newton-Raphson iteration adds the position correction to the
    running position estimate and stores the clock-bias correction in place
    of the old clock bias: the new clock bias is the correction, and the
    correction does not depend on the old clock bias. *)
Theorem pvt_solve_state_update (m : mem) (n : nat) (nav : list meas) :
  length (rx_state m) = 8%nat ->
  let correction := step_correction E (rx_state m) n nav in
  let rx' := rx_state (snd (pvt_solve E m n nav)) in
  (forall i, (i < 3)%nat -> rx'.[i] = (rx_state m).[i] + correction.[i]) /\
  rx'.[3] = correction.[3] /\
  (forall b, step_correction E (upd 3 b (rx_state m)) n nav = correction).
Proof.
  intros Hlen correction rx'.
  assert (Hpos : forall rx2 vel,
    rx2 = upd 3 correction.[3]
            (upd 2 ((rx_state m).[2] + correction.[2])
            (upd 1 ((rx_state m).[1] + correction.[1])
            (upd 0 ((rx_state m).[0] + correction.[0]) (rx_state m)))) ->
    (forall i, (i < 3)%nat ->
       (write_from 4 vel rx2).[i] = (rx_state m).[i] + correction.[i]) /\
    (write_from 4 vel rx2).[3] = correction.[3]).
  { intros rx2 vel ->. unfold at_. split.
    - intros i Hi. rewrite nth_write_from_before by lia.
      rewrite nth_upd_other by lia.
      destruct i as [|[|[|i]]]; try lia.
      + rewrite !nth_upd_other by lia. apply nth_upd_same. lia.
      + rewrite nth_upd_other by lia. apply nth_upd_same.
        rewrite upd_length. lia.
      + apply nth_upd_same. rewrite !upd_length. lia.
    - rewrite nth_write_from_before by lia.
      apply nth_upd_same. rewrite !upd_length. lia. }
  split; [|split].
  - subst rx'. unfold pvt_solve. fold correction.
    destruct (d_lt _ _); cbn [snd rx_state].
    + intros i Hi.
      destruct (Hpos _ [] eq_refl) as [Hp _]. apply (Hp i Hi).
    + intros i Hi.
      match goal with |- context [write_from 4 ?v _] =>
        destruct (Hpos _ v eq_refl) as [Hp _] end.
      apply (Hp i Hi).
  - subst rx'. unfold pvt_solve. fold correction.
    destruct (d_lt _ _); cbn [snd rx_state].
    + destruct (Hpos _ [] eq_refl) as [_ Hc]. exact Hc.
    + match goal with |- context [write_from 4 ?v _] =>
        destruct (Hpos _ v eq_refl) as [_ Hc] end.
      exact Hc.
  - intros b. apply step_correction_clock_independent.
Qed.

(** C9 (amended): the validity flag after a call.  A return code in
    -6 .. -1 leaves [valid = 0]; with at least 4 measurements the solution
    is marked valid exactly when the return code is non-negative; with
    fewer than 4 measurements the flag is left as the caller passed it. *)
Theorem calc_PVT_valid_flag
  (n : nat) (nav : list meas) (disable_raim : bool) (w : pvt_world D)
  (ret : Z) (w' : pvt_world D) :
  calc_PVT E n nav disable_raim w = Ret (ret, w') ->
  ((-6 <= ret <= -1)%Z -> valid (w_soln w') = 0%Z) /\
  ((4 <= n)%nat -> (valid (w_soln w') = 1%Z <-> (0 <= ret)%Z)) /\
  ((n < 4)%nat -> ret = (-7)%Z /\ valid (w_soln w') = valid (w_soln w)).
Proof.
  intros Hcall.
  destruct (calc_PVT_cases E _ _ _ _ _ _ Hcall)
    as [(Hn & -> & ->) | (Hn & flag & removed & m1 & Hraim & Hcase)].
  { repeat split; intros; try lia; reflexivity. }
  cbv zeta in Hcase.
  destruct Hcase as [(Hf & -> & ->) | [(Hf & Hq & -> & ->) | (Hf & Hq & -> & ->)]];
    cbn [w_soln valid set_valid set_n_used soln_zero];
    repeat split; intros; try lia; try reflexivity; try discriminate.
Qed.

(** C10 (amended): every invocation of the residual test subtracts the
    clock-bias component of the state from the first [n] entries of [omp],
    in place, and takes the norm of the adjusted entries.  Consequently,
    after a RAIM-enabled pvt_solve_raim whose first solve converged the test
    has run, and when the call ends without a repair search (return 0, 2 or
    -2) the buffer holds the bias-adjusted values of the raw residuals that
    the last least-squares step of that solve had stored ([ml] is the memory
    that step left, [mp] the one it started from).  After a successful
    repair (return 1) the state and the buffer are as the last least-squares
    step of the final solve left them: the first [n - 1] entries of the
    buffer are the raw residuals of that step. *)
Theorem residual_test_adjusts_omp (m : mem) (n : nat) (nav : list meas) :
  (n <= length (omp m))%nat ->
  (forall i, (i < n)%nat ->
     (omp (snd (residual_test n m))).[i] = (omp m).[i] - (rx_state m).[3]) /\
  snd (fst (residual_test n m)) = vector_norm n (omp (snd (residual_test n m))) /\
  fst (fst (residual_test n m))
  = (vector_norm n (omp (snd (residual_test n m))) <? d_lit 3000 0) /\
  (forall r removed m',
     (n <= MAX_CHANNELS E)%nat ->
     fst (pvt_iter E m n (firstn n nav)) = 0%Z ->
     pvt_solve_raim E m n nav false = Ret (r, removed, m') ->
     let m1 := snd (pvt_iter E m n (firstn n nav)) in
     (exists mp r_last ml,
        pvt_solve E mp n nav = (r_last, ml) /\
        rx_state m1 = rx_state ml /\ omp m1 = omp ml /\
        firstn n (omp ml) = step_omp E (rx_state mp) n nav) /\
     residual_test_invoked (log m') /\
     ((r = 0 \/ r = 2 \/ r = -2)%Z ->
      forall i, (i < n)%nat ->
        (omp m').[i] = (omp m1).[i] - (rx_state m1).[3]) /\
     (r = 1%Z ->
      exists subset mp r_last ml,
        pvt_solve E mp (n - 1) subset = (r_last, ml) /\
        rx_state m' = rx_state ml /\ omp m' = omp ml /\
        firstn (n - 1) (omp ml) = step_omp E (rx_state mp) (n - 1) subset)).
Proof.
  intros Hlen. split; [|split; [|split]].
  - intros i Hi. rewrite residual_test_omp by assumption.
    destruct (Nat.ltb_spec i n); [reflexivity | lia].
  - reflexivity.
  - reflexivity.
  - intros r removed m' Hmax Hconv Hraim m1.
    destruct (pvt_iter_converged_omp E m n (firstn n nav) Hlen Hconv)
      as (mp & r0 & ml & Hstep & _ & Hrx1 & Homp1 & Hraw & Hlen1).
    fold m1 in Hrx1, Homp1.
    rewrite <- Homp1 in Hlen1.
    split.
    { exists mp, r0, ml.
      rewrite <- (pvt_solve_ext E mp n _ _ (same_prefix_firstn n nav)).
      rewrite <- (step_omp_ext E (rx_state mp) n _ _ (same_prefix_firstn n nav)).
      auto. }
    assert (Hend : (m' = snd (residual_test n m1) /\ r <> 1%Z) \/
                   (pvt_repair E (snd (residual_test n m1)) n nav
                    = Ret (r, removed, m') /\ (r = 1 \/ r = -1)%Z)).
    { unfold pvt_solve_raim in Hraim.
      destruct (Nat.ltb_spec (MAX_CHANNELS E) n); [lia|].
      cbv zeta in Hraim. subst m1.
      destruct (pvt_iter E m n (firstn n nav)) as [flag m1].
      cbn [fst snd] in *. subst flag. cbn [Z.eqb Z.leb Z.compare] in Hraim.
      destruct (residual_test n m1) as [[passed norm] m2].
      cbn [snd].
      destruct passed.
      - left. destruct (_ || _); inversion Hraim; split; (reflexivity || lia).
      - destruct (n <? 6)%nat.
        + left. inversion Hraim; split; (reflexivity || lia).
        + right. split; [exact Hraim|]. apply pvt_repair_flag in Hraim. exact Hraim. }
    assert (Htest : residual_test_invoked (log (snd (residual_test n m1)))).
    { destruct (residual_test_frame n m1) as (_ & _ & Hlog).
      exists n, (fst (fst (residual_test n m1))).
      rewrite Hlog. apply in_or_app. right. left. reflexivity. }
    split; [|split].
    + destruct Hend as [[-> _] | [Hrep _]]; [exact Htest|].
      destruct (pvt_repair_log_extends E _ _ _ _ _ _ Hrep) as [l Hl].
      destruct Htest as (k & p & Hin). exists k, p.
      rewrite Hl. apply in_or_app. left. exact Hin.
    + intros Hr i Hi.
      destruct Hend as [[-> _] | [_ Hr']]; [|lia].
      rewrite residual_test_omp by lia.
      destruct (Nat.ltb_spec i n); [reflexivity | lia].
    + intros ->.
      destruct Hend as [[_ Hne] | [Hrep _]]; [contradiction|].
      destruct (pvt_repair_success E _ _ _ _ _ Hrep) as (subset & ms & Hit & Hlms).
      assert (Hflag : fst (pvt_iter E ms (n - 1) subset) = 0%Z)
        by (rewrite Hit; reflexivity).
      assert (Hlen' : (n - 1 <= length (omp ms))%nat).
      { rewrite Hlms, residual_test_omp_length. lia. }
      destruct (pvt_iter_converged_omp E ms (n - 1) subset Hlen' Hflag)
        as (mq & rq & mlq & Hsq & _ & Hrxq & Hompq & Hrawq & _).
      rewrite Hit in Hrxq, Hompq. cbn [snd] in Hrxq, Hompq.
      exists subset, mq, rq, mlq. auto.
Qed.

(** X1: pvt_iter declares convergence (returns 0) exactly when some
    least-squares step within PVT_MAX_ITERATIONS returns a strictly positive
    value; a step that returns 0.0 does not end the loop. *)
Theorem pvt_iter_converges_iff (m : mem) (n : nat) (nav : list meas) :
  fst (pvt_iter E m n nav) = 0%Z <->
  exists k, (k < PVT_MAX_ITERATIONS E)%nat /\
            (step_return E k (iter_start m) n nav >? d_zero) = true.
Proof.
  rewrite <- pvt_iter_loop_breaks_iff.
  unfold pvt_iter. fold (iter_start m).
  destruct (pvt_iter_loop E _ _ n nav) as [[|] m1]; cbn [fst];
    split; intros; try reflexivity; discriminate.
Qed.

(** X2: calc_PVT returns one of 2, 1, 0, -1, -2, -4, -5, -6, -7; the code
    -3 of the message table is never returned. *)
Theorem calc_PVT_return_codes
  (n : nat) (nav : list meas) (disable_raim : bool) (w : pvt_world D)
  (ret : Z) (w' : pvt_world D) :
  calc_PVT E n nav disable_raim w = Ret (ret, w') -> pvt_code ret.
Proof.
  intros Hcall. unfold pvt_code.
  destruct (calc_PVT_cases E _ _ _ _ _ _ Hcall)
    as [(Hn & -> & ->) | (Hn & flag & removed & m1 & Hraim & Hcase)].
  { cbn [In]. tauto. }
  cbv zeta in Hcase.
  destruct Hcase as [(Hf & -> & _) | [(Hf & _ & -> & _) | (Hf & Hq & -> & _)]].
  - assert (Hc : (flag = -1 \/ flag = -2 \/ flag = -3)%Z) by lia.
    destruct Hc as [Hc|[Hc|Hc]]; subst flag; cbn; tauto.
  - assert (Hc : (flag = 0 \/ flag = 1 \/ flag = 2)%Z) by lia.
    destruct Hc as [Hc|[Hc|Hc]]; subst flag; cbn [In]; tauto.
  - destruct Hq as [->| ->]; cbn [In Z.opp]; tauto.
Qed.

(** X3: pvt_repair is the leave-one-out search of the spec: its loop
    solves, for each candidate from the last to the first, the measurements
    without that candidate (in their order), and its result is decided by
    the list of candidates whose subset passed. *)
Theorem pvt_repair_is_leave_one_out (m : mem) (n : nat) (nav : list meas) :
  (0 < n <= 127)%nat -> (n <= length nav)%nat ->
  let search := leave_one_out E n (firstn n nav) m [] in
  pvt_repair E m n nav
  = match snd search with
    | Some [b] =>
        let '(flag, m2) :=
          pvt_iter E (fst search) (n - 1)
                   (upd b (nth (n - 1) (firstn n nav) meas_zero) (firstn n nav)) in
        if (flag =? 0)%Z
        then Ret (1%Z, Some (sid (nth b nav meas_zero)), m2)
        else Assert_failed
    | _ => Ret ((-1)%Z, None, fst search)
    end.
Proof.
  intros Hn Hlen. apply pvt_repair_spec; lia.
Qed.
End Claims.

(** ** Facts about whole calls *)

Section CallFacts.
Context {D : Type} {SD : Scalar D}.
Variable E : Externals D.
Local Open Scope double_scope.

Abbreviation meas := (navigation_measurement_t D).
Abbreviation mem := (solver_mem D).

(** pvt_solve_raim, branch by branch, in terms of its first solve and of
    the residual test on it. *)
Lemma pvt_solve_raim_branches (m : mem) (n : nat) (nav : list meas)
  (disable_raim : bool) :
  let it := pvt_iter E m n (firstn n nav) in
  let t := residual_test n (snd it) in
  pvt_solve_raim E m n nav disable_raim
  = if (MAX_CHANNELS E <? n)%nat then Assert_failed
    else if (fst it =? -1)%Z then Ret ((-3)%Z, None, snd it)
    else if disable_raim then Ret (2%Z, None, snd it)
    else if fst (fst t)
         then Ret (if (n =? 4)%nat then 2%Z else 0%Z, None, snd t)
         else if (n <? 6)%nat then Ret ((-2)%Z, None, snd t)
              else pvt_repair E (snd t) n nav.
Proof.
  cbv zeta. unfold pvt_solve_raim.
  destruct (MAX_CHANNELS E <? n)%nat; [reflexivity|].
  pose proof (pvt_iter_flag_log E m n (firstn n nav)) as [Hflag _].
  destruct (pvt_iter E m n (firstn n nav)) as [flag m1]. cbn [fst snd] in *.
  destruct Hflag as [-> | ->]; cbn [Z.eqb Z.leb Z.compare]; [|reflexivity].
  destruct disable_raim; cbn [orb]; [reflexivity|].
  destruct (residual_test n m1) as [[passed norm] m2]. cbn [fst snd].
  destruct passed; [|reflexivity].
  destruct (n =? 4)%nat; reflexivity.
Qed.

(** *** The index of the excluded measurement *)

Lemma repair_loop_bad_sat (k one_less N : nat) :
  forall (subset : list meas) (m : mem) (np bad : Z) (m' : mem) (np' bad' : Z),
  repair_loop E k one_less subset m np bad = (m', Some (np', bad')) ->
  (k <= N)%nat -> (Z.to_nat bad < N)%nat -> (Z.to_nat bad' < N)%nat.
Proof.
  induction k as [|drop IH]; intros subset m np bad m' np' bad';
    cbn [repair_loop].
  - intros Heq _ Hb. inversion Heq; subst. exact Hb.
  - destruct (pvt_iter E m one_less _) as [flag m1].
    destruct (flag =? -1)%Z; [discriminate|].
    destruct (residual_test one_less m1) as [[passed norm] m2].
    destruct passed; intros Heq Hk Hb.
    + apply (IH _ _ _ _ _ _ _ Heq); [lia|]. rewrite Nat2Z.id. lia.
    + apply (IH _ _ _ _ _ _ _ Heq); [lia|exact Hb].
Qed.

(** What pvt_repair stores through [removed_sid]. *)
Lemma pvt_repair_removed (m : mem) (n : nat) (nav : list meas)
  (r : Z) (removed : option gnss_signal_t) (m' : mem) :
  (0 < n)%nat ->
  pvt_repair E m n nav = Ret (r, removed, m') ->
  (r = 1%Z /\ exists b, (b < n)%nat /\
                        removed = Some (sid (nth b nav meas_zero))) \/
  (r = (-1)%Z /\ removed = None).
Proof.
  intros Hn. unfold pvt_repair.
  destruct (repair_loop E n (n - 1) (firstn n nav) m 0 (-1))
    as [m1 [[np bad]|]] eqn:Hloop.
  - assert (Hb : (Z.to_nat bad < n)%nat).
    { apply (repair_loop_bad_sat _ _ n _ _ _ _ _ _ _ Hloop); [lia|].
      change (Z.to_nat (-1)) with 0%nat. exact Hn. }
    destruct (np =? 1)%Z.
    + destruct (pvt_iter E m1 _ _) as [flag m2].
      destruct (flag =? 0)%Z; [|discriminate].
      intros Heq; inversion Heq; subst. left. split; [reflexivity|].
      exists (Z.to_nat bad). split; [exact Hb | reflexivity].
    + intros Heq; inversion Heq; subst. right. split; reflexivity.
  - intros Heq; inversion Heq; subst. right. split; reflexivity.
Qed.

(** *** Measurements past the first [n_used] are not read *)

Lemma pvt_repair_ext (m : mem) (n : nat) (nav1 nav2 : list meas) :
  (0 < n)%nat -> same_prefix n nav1 nav2 ->
  pvt_repair E m n nav1 = pvt_repair E m n nav2.
Proof.
  intros Hn Hp. unfold pvt_repair.
  pose proof Hp as Hp'. unfold same_prefix in Hp'. rewrite Hp'.
  destruct (repair_loop E n (n - 1) (firstn n nav2) m 0 (-1))
    as [m1 [[np bad]|]] eqn:Hloop; [|reflexivity].
  assert (Hb : (Z.to_nat bad < n)%nat).
  { apply (repair_loop_bad_sat _ _ n _ _ _ _ _ _ _ Hloop); [lia|].
    change (Z.to_nat (-1)) with 0%nat. exact Hn. }
  rewrite (same_prefix_nth n nav1 nav2 _ Hp Hb). reflexivity.
Qed.

Lemma pvt_solve_raim_ext (m : mem) (n : nat) (nav1 nav2 : list meas)
  (disable_raim : bool) :
  same_prefix n nav1 nav2 ->
  pvt_solve_raim E m n nav1 disable_raim = pvt_solve_raim E m n nav2 disable_raim.
Proof.
  intros Hp. rewrite !pvt_solve_raim_branches. cbv zeta.
  pose proof Hp as Hp'. unfold same_prefix in Hp'. rewrite Hp'.
  destruct (MAX_CHANNELS E <? n)%nat; [reflexivity|].
  destruct (_ =? -1)%Z; [reflexivity|].
  destruct disable_raim; [reflexivity|].
  destruct (fst (fst _)); [reflexivity|].
  destruct (Nat.ltb_spec n 6); [reflexivity|].
  apply pvt_repair_ext; [lia | exact Hp].
Qed.

Lemma calc_PVT_ext (n : nat) (nav1 nav2 : list meas) (disable_raim : bool)
  (w : pvt_world D) :
  same_prefix n nav1 nav2 ->
  calc_PVT E n nav1 disable_raim w = calc_PVT E n nav2 disable_raim w.
Proof.
  intros Hp. unfold calc_PVT.
  destruct (Nat.ltb_spec n 4) as [|Hn]; [reflexivity|].
  rewrite (pvt_solve_raim_ext _ _ _ _ _ Hp).
  destruct (pvt_solve_raim E _ n nav2 disable_raim) as [[[flag removed] m1]|];
    [|reflexivity].
  unfold calc_PVT_finish, populate.
  rewrite (same_prefix_nth n nav1 nav2 0 Hp) by lia. reflexivity.
Qed.

(** *** Counting the calls in the log *)

Lemma count_iters_app (l1 l2 : list (event D)) :
  count_iters (l1 ++ l2) = (count_iters l1 + count_iters l2)%nat.
Proof. unfold count_iters. rewrite filter_app, length_app. reflexivity. Qed.

Lemma count_tests_app (l1 l2 : list (event D)) :
  count_tests (l1 ++ l2) = (count_tests l1 + count_tests l2)%nat.
Proof. unfold count_tests. rewrite filter_app, length_app. reflexivity. Qed.

Lemma repair_loop_counts (k one_less : nat) :
  forall (subset : list meas) (m : mem) (np bad : Z),
  exists l, log (fst (repair_loop E k one_less subset m np bad)) = log m ++ l /\
            (count_iters l <= k)%nat /\ (count_tests l <= k)%nat.
Proof.
  induction k as [|drop IH]; intros subset m np bad; cbn [repair_loop].
  - exists []. rewrite app_nil_r. repeat split; cbn; lia.
  - pose proof (pvt_iter_flag_log E m one_less (swap drop one_less subset))
      as [_ Hl1].
    destruct (pvt_iter E m one_less _) as [flag m1]. cbn [fst snd] in Hl1.
    destruct (flag =? -1)%Z.
    + eexists. split; [exact Hl1|]. cbn. lia.
    + destruct (residual_test_frame one_less m1) as (_ & _ & Hl2).
      destruct (residual_test one_less m1) as [[passed norm] m2].
      cbn [fst snd] in Hl2.
      destruct passed;
        match goal with |- context [repair_loop E drop one_less ?s m2 ?a ?b] =>
          destruct (IH s m2 a b) as (l3 & Hl3 & Hi & Ht) end;
        eexists; (split; [rewrite Hl3, Hl2, Hl1, <- !app_assoc; reflexivity|]);
        rewrite !count_iters_app, !count_tests_app; cbn; lia.
Qed.

Lemma pvt_repair_counts (m : mem) (n : nat) (nav : list meas)
  (r : Z) (removed : option gnss_signal_t) (m' : mem) :
  pvt_repair E m n nav = Ret (r, removed, m') ->
  exists l, log m' = log m ++ l /\
            (count_iters l <= n + 1)%nat /\ (count_tests l <= n)%nat.
Proof.
  unfold pvt_repair.
  destruct (repair_loop_counts n (n - 1) (firstn n nav) m 0 (-1))
    as (l1 & Hl1 & Hi & Ht).
  destruct (repair_loop E n (n - 1) (firstn n nav) m 0 (-1)) as [m1 [[np bad]|]];
    cbn [fst] in Hl1.
  - destruct (np =? 1)%Z.
    + match goal with |- context [pvt_iter E m1 ?k ?s] =>
        pose proof (pvt_iter_flag_log E m1 k s) as [_ Hl2];
        destruct (pvt_iter E m1 k s) as [flag m2] end.
      cbn [fst snd] in Hl2.
      destruct (flag =? 0)%Z; [|discriminate].
      intros Heq; inversion Heq; subst.
      eexists. split; [rewrite Hl2, Hl1, <- app_assoc; reflexivity|].
      rewrite !count_iters_app, !count_tests_app; cbn; lia.
    + intros Heq; inversion Heq; subst. exists l1. repeat split; (assumption || lia).
  - intros Heq; inversion Heq; subst. exists l1. repeat split; (assumption || lia).
Qed.

Lemma pvt_solve_raim_counts (m : mem) (n : nat) (nav : list meas)
  (disable_raim : bool) (r : Z) (removed : option gnss_signal_t) (m' : mem) :
  pvt_solve_raim E m n nav disable_raim = Ret (r, removed, m') ->
  exists l, log m' = log m ++ l /\
            (1 <= count_iters l <= n + 2)%nat /\ (count_tests l <= n + 1)%nat /\
            ((n < 6)%nat -> count_iters l = 1%nat /\ (count_tests l <= 1)%nat) /\
            (disable_raim = true -> count_iters l = 1%nat /\ count_tests l = 0%nat).
Proof.
  rewrite pvt_solve_raim_branches. cbv zeta.
  destruct (MAX_CHANNELS E <? n)%nat; [discriminate|].
  pose proof (pvt_iter_flag_log E m n (firstn n nav)) as [_ Hl1].
  destruct (pvt_iter E m n (firstn n nav)) as [flag m1]. cbn [fst snd] in *.
  destruct (flag =? -1)%Z.
  { intros Heq; inversion Heq; subst.
    eexists. split; [exact Hl1|]. cbn. repeat split; intros; lia. }
  destruct disable_raim.
  { intros Heq; inversion Heq; subst.
    eexists. split; [exact Hl1|]. cbn. repeat split; intros; lia. }
  destruct (residual_test_frame n m1) as (_ & _ & Hl2).
  destruct (residual_test n m1) as [[passed norm] m2]. cbn [fst snd] in *.
  destruct passed.
  { intros Heq; inversion Heq; subst.
    eexists. split; [rewrite Hl2, Hl1, <- app_assoc; reflexivity|].
    cbn. repeat split; intros; (lia || discriminate). }
  destruct (Nat.ltb_spec n 6).
  { intros Heq; inversion Heq; subst.
    eexists. split; [rewrite Hl2, Hl1, <- app_assoc; reflexivity|].
    cbn. repeat split; intros; (lia || discriminate). }
  intros Hrep. apply pvt_repair_counts in Hrep as (l3 & Hl3 & Hi & Ht).
  eexists. split; [rewrite Hl3, Hl2, Hl1, <- !app_assoc; reflexivity|].
  rewrite !count_iters_app, !count_tests_app. cbn.
  repeat split; intros; (lia || discriminate).
Qed.
End CallFacts.

(** ** What a solve reads of the state *)

Section StateFacts.
Context {D : Type} {SD : Scalar D}.
Variable E : Externals D.
Local Open Scope double_scope.

Abbreviation meas := (navigation_measurement_t D).
Abbreviation mem := (solver_mem D).

Lemma upd_comm {A : Type} (i j : nat) (v w : A) (a : list A) :
  i <> j -> upd i v (upd j w a) = upd j w (upd i v a).
Proof.
  revert i j; induction a as [|h t IH]; intros [|i] [|j] Hij; cbn [upd];
    try reflexivity; try lia.
  f_equal. apply IH. lia.
Qed.

Lemma upd_upd {A : Type} (i : nat) (v w : A) (a : list A) :
  upd i v (upd i w a) = upd i v a.
Proof.
  revert i; induction a as [|h t IH]; intros [|i]; cbn [upd]; try reflexivity.
  f_equal. apply IH.
Qed.

(** The channel loop reads the position entries of the state only. *)
Lemma channel_position_only (rx1 rx2 : list D) (nm : meas) :
  (forall i, (i < 3)%nat -> rx1.[i] = rx2.[i]) ->
  channel E rx1 nm = channel E rx2 nm.
Proof.
  intros Hat.
  assert (Hl : forall x, vector_subtract 3 rx1 x = vector_subtract 3 rx2 x).
  { intros x. unfold vector_subtract. cbn [seq map].
    rewrite !Hat by lia. reflexivity. }
  assert (Hr : forall x, vector_subtract 3 x rx1 = vector_subtract 3 x rx2).
  { intros x. unfold vector_subtract. cbn [seq map].
    rewrite !Hat by lia. reflexivity. }
  unfold channel. rewrite Hl, Hr. reflexivity.
Qed.

Lemma step_omp_position_only (rx1 rx2 : list D) (n : nat) (nav : list meas) :
  (forall i, (i < 3)%nat -> rx1.[i] = rx2.[i]) ->
  step_omp E rx1 n nav = step_omp E rx2 n nav.
Proof.
  intros Hat. unfold step_omp. apply map_ext. intros j.
  rewrite (channel_position_only rx1 rx2 _ Hat). reflexivity.
Qed.

Lemma step_G_position_only (rx1 rx2 : list D) (n : nat) (nav : list meas) :
  (forall i, (i < 3)%nat -> rx1.[i] = rx2.[i]) ->
  step_G E rx1 n nav = step_G E rx2 n nav.
Proof.
  intros Hat. unfold step_G. apply flat_map_ext. intros j.
  rewrite (channel_position_only rx1 rx2 _ Hat). reflexivity.
Qed.

(** A least-squares step does not read the clock entry of the state. *)
Lemma pvt_solve_clock_independent (rx o H : list D) (l : list (event D))
  (b : D) (n : nat) (nav : list meas) :
  pvt_solve E (Build_solver_mem (upd 3 b rx) o H l) n nav
  = pvt_solve E (Build_solver_mem rx o H l) n nav.
Proof.
  assert (Hat : forall i, (i < 3)%nat -> (upd 3 b rx).[i] = rx.[i]).
  { intros i Hi. unfold at_. apply nth_upd_other. lia. }
  unfold pvt_solve, step_correction, step_X, step_H.
  cbn [rx_state omp Hmat log].
  rewrite (step_omp_position_only _ _ n nav Hat),
          (step_G_position_only _ _ n nav Hat).
  rewrite !Hat by lia.
  rewrite (upd_comm 0 3), (upd_comm 1 3), (upd_comm 2 3), upd_upd by lia.
  reflexivity.
Qed.

(** The iterated solve reads the position entries of the state only. *)
Lemma pvt_iter_position_only (rx1 rx2 o H : list D) (l : list (event D))
  (n : nat) (nav : list meas) :
  length rx1 = 8%nat -> length rx2 = 8%nat ->
  (forall i, (i < 3)%nat -> rx1.[i] = rx2.[i]) ->
  (1 <= PVT_MAX_ITERATIONS E)%nat ->
  pvt_iter E (Build_solver_mem rx1 o H l) n nav
  = pvt_iter E (Build_solver_mem rx2 o H l) n nav.
Proof.
  intros H1 H2 Hat Hfuel.
  assert (Hstart : write_from 4 [d_zero; d_zero; d_zero; d_zero] rx2
                   = upd 3 rx2.[3]
                       (write_from 4 [d_zero; d_zero; d_zero; d_zero] rx1)).
  { pose proof (Hat 0%nat) as A0. pose proof (Hat 1%nat) as A1.
    pose proof (Hat 2%nat) as A2.
    destruct rx1 as [|a0 [|a1 [|a2 [|a3 [|a4 [|a5 [|a6 [|a7 [|]]]]]]]]];
      try discriminate.
    destruct rx2 as [|b0 [|b1 [|b2 [|b3 [|b4 [|b5 [|b6 [|b7 [|]]]]]]]]];
      try discriminate.
    unfold at_ in *. cbn [nth] in *.
    rewrite A0, A1, A2 by lia. reflexivity. }
  unfold pvt_iter. cbn [rx_state omp Hmat log].
  destruct (PVT_MAX_ITERATIONS E) as [|fuel]; [lia|].
  cbn [pvt_iter_loop].
  rewrite Hstart, pvt_solve_clock_independent. reflexivity.
Qed.

(** *** The state vector keeps its length *)

Lemma pvt_solve_rx_length (m : mem) (n : nat) (nav : list meas) :
  length (rx_state (snd (pvt_solve E m n nav))) = length (rx_state m).
Proof.
  unfold pvt_solve. destruct (d_lt _ _); cbn [snd rx_state];
    rewrite ?write_from_length, !upd_length; reflexivity.
Qed.

Lemma pvt_iter_loop_rx_length (fuel : nat) (n : nat) (nav : list meas) :
  forall m : mem,
  length (rx_state (snd (pvt_iter_loop E fuel m n nav))) = length (rx_state m).
Proof.
  induction fuel as [|fuel IH]; intros m; cbn [pvt_iter_loop]; [reflexivity|].
  pose proof (pvt_solve_rx_length m n nav) as Hl.
  destruct (pvt_solve E m n nav) as [r m1]. cbn [snd] in Hl.
  destruct (d_lt d_zero r); cbn [snd]; [exact Hl|].
  rewrite IH. exact Hl.
Qed.

Lemma pvt_iter_rx_length (m : mem) (n : nat) (nav : list meas) :
  length (rx_state (snd (pvt_iter E m n nav))) = length (rx_state m).
Proof.
  unfold pvt_iter.
  match goal with |- context [pvt_iter_loop E ?f ?m0 n nav] =>
    pose proof (pvt_iter_loop_rx_length f n nav m0) as Hl;
    destruct (pvt_iter_loop E f m0 n nav) as [[|] m1] end;
    cbn [snd rx_state] in *; rewrite ?write_from_length in *; exact Hl.
Qed.

Lemma repair_loop_rx_length (k one_less : nat) :
  forall (subset : list meas) (m : mem) (np bad : Z),
  length (rx_state (fst (repair_loop E k one_less subset m np bad)))
  = length (rx_state m).
Proof.
  induction k as [|drop IH]; intros subset m np bad; cbn [repair_loop];
    [reflexivity|].
  pose proof (pvt_iter_rx_length m one_less (swap drop one_less subset)) as Hl1.
  destruct (pvt_iter E m one_less _) as [flag m1]. cbn [snd] in Hl1.
  destruct (flag =? -1)%Z; [exact Hl1|].
  destruct (residual_test_frame one_less m1) as (Hl2 & _ & _).
  destruct (residual_test one_less m1) as [[passed norm] m2]. cbn [snd] in Hl2.
  destruct passed; rewrite IH, Hl2; exact Hl1.
Qed.

Lemma pvt_repair_rx_length (m : mem) (n : nat) (nav : list meas)
  (r : Z) (removed : option gnss_signal_t) (m' : mem) :
  pvt_repair E m n nav = Ret (r, removed, m') ->
  length (rx_state m') = length (rx_state m).
Proof.
  unfold pvt_repair.
  pose proof (repair_loop_rx_length n (n - 1) (firstn n nav) m 0 (-1)) as Hl.
  destruct (repair_loop E n (n - 1) (firstn n nav) m 0 (-1)) as [m1 [[np bad]|]];
    cbn [fst] in Hl.
  - destruct (np =? 1)%Z.
    + match goal with |- context [pvt_iter E m1 ?k ?s] =>
        pose proof (pvt_iter_rx_length m1 k s) as Hl2;
        destruct (pvt_iter E m1 k s) as [flag m2] end.
      cbn [snd] in Hl2.
      destruct (flag =? 0)%Z; [|discriminate].
      intros Heq; inversion Heq; subst. rewrite Hl2. exact Hl.
    + intros Heq; inversion Heq; subst. exact Hl.
  - intros Heq; inversion Heq; subst. exact Hl.
Qed.

Lemma pvt_solve_raim_rx_length (m : mem) (n : nat) (nav : list meas)
  (disable_raim : bool) (r : Z) (removed : option gnss_signal_t) (m' : mem) :
  pvt_solve_raim E m n nav disable_raim = Ret (r, removed, m') ->
  length (rx_state m') = length (rx_state m).
Proof.
  rewrite pvt_solve_raim_branches. cbv zeta.
  destruct (MAX_CHANNELS E <? n)%nat; [discriminate|].
  pose proof (pvt_iter_rx_length m n (firstn n nav)) as Hl1.
  destruct (pvt_iter E m n (firstn n nav)) as [flag m1]. cbn [fst snd] in *.
  destruct (flag =? -1)%Z; [intros Heq; inversion Heq; subst; exact Hl1|].
  destruct disable_raim; [intros Heq; inversion Heq; subst; exact Hl1|].
  destruct (residual_test_frame n m1) as (Hl2 & _ & _).
  destruct (residual_test n m1) as [[passed norm] m2]. cbn [fst snd] in *.
  destruct passed; [intros Heq; inversion Heq; subst; congruence|].
  destruct (n <? 6)%nat; [intros Heq; inversion Heq; subst; congruence|].
  intros Hrep. apply pvt_repair_rx_length in Hrep. congruence.
Qed.

(** calc_PVT leaves a static state of the length it found. *)
Lemma calc_PVT_rx_length (n : nat) (nav : list meas) (disable_raim : bool)
  (w : pvt_world D) (ret : Z) (w' : pvt_world D) :
  calc_PVT E n nav disable_raim w = Ret (ret, w') ->
  length (w_rx_state w') = length (w_rx_state w).
Proof.
  intros Hcall.
  destruct (calc_PVT_cases E _ _ _ _ _ _ Hcall)
    as [(Hn & -> & ->) | (Hn & flag & removed & m1 & Hraim & Hcase)];
    [reflexivity|].
  apply pvt_solve_raim_rx_length in Hraim.
  change (rx_state (entry_mem n w)) with (w_rx_state w) in Hraim.
  cbv zeta in Hcase.
  destruct Hcase as [(_ & _ & ->) | [(_ & _ & _ & ->) | (_ & _ & _ & ->)]];
    cbn [w_rx_state]; rewrite ?write_from_length; exact Hraim.
Qed.

(** A call reads the position entries of the static state only. *)
Lemma calc_PVT_position_only (n : nat) (nav : list meas) (disable_raim : bool)
  (w1 w2 : pvt_world D) :
  (4 <= n)%nat -> (1 <= PVT_MAX_ITERATIONS E)%nat ->
  length (w_rx_state w1) = 8%nat -> length (w_rx_state w2) = 8%nat ->
  (forall i, (i < 3)%nat -> (w_rx_state w1).[i] = (w_rx_state w2).[i]) ->
  w_soln w1 = w_soln w2 -> w_dops w1 = w_dops w2 -> w_log w1 = w_log w2 ->
  calc_PVT E n nav disable_raim w1 = calc_PVT E n nav disable_raim w2.
Proof.
  intros Hn Hfuel H1 H2 Hat Hs Hd Hl.
  unfold calc_PVT. destruct (Nat.ltb_spec n 4); [lia|].
  assert (Hraim : pvt_solve_raim E (entry_mem n w1) n nav disable_raim
                  = pvt_solve_raim E (entry_mem n w2) n nav disable_raim).
  { unfold pvt_solve_raim, entry_mem. rewrite Hl.
    rewrite (pvt_iter_position_only _ _ _ _ _ _ _ H1 H2 Hat Hfuel).
    reflexivity. }
  rewrite Hraim, Hs.
  destruct (pvt_solve_raim E (entry_mem n w2) n nav disable_raim)
    as [[[flag removed] m1]|]; [|reflexivity].
  unfold calc_PVT_finish. rewrite Hd. reflexivity.
Qed.
End StateFacts.

(** ** Whole calls: inputs read, stages run, codes and outputs *)

Section WholeCalls.
Context {D : Type} {SD : Scalar D}.
Variable E : Externals D.
Local Open Scope double_scope.

Abbreviation meas := (navigation_measurement_t D).
Abbreviation mem := (solver_mem D).

(** How the value pvt_solve_raim returns depends on its first solve, on
    the RAIM switch, on the number of measurements and on the residual
    test. *)
Lemma pvt_solve_raim_conditions (m : mem) (n : nat) (nav : list meas)
  (disable_raim : bool) (r : Z) (removed : option gnss_signal_t) (m' : mem) :
  pvt_solve_raim E m n nav disable_raim = Ret (r, removed, m') ->
  let it := pvt_iter E m n (firstn n nav) in
  let passed := fst (fst (residual_test n (snd it))) in
  (n <= MAX_CHANNELS E)%nat /\
  ((r = (-3)%Z /\ fst it = (-1)%Z) \/
   (fst it = 0%Z /\
    ((r = 2%Z /\ disable_raim = true) \/
     (r = 2%Z /\ disable_raim = false /\ n = 4%nat /\ passed = true) \/
     (r = 0%Z /\ disable_raim = false /\ n <> 4%nat /\ passed = true) \/
     (r = (-2)%Z /\ disable_raim = false /\ (n < 6)%nat /\ passed = false) \/
     ((r = 1 \/ r = -1)%Z /\ disable_raim = false /\ (6 <= n)%nat /\
      passed = false)))).
Proof.
  rewrite pvt_solve_raim_branches. cbv zeta.
  destruct (Nat.ltb_spec (MAX_CHANNELS E) n); [discriminate|].
  pose proof (pvt_iter_flag_log E m n (firstn n nav)) as [Hflag _].
  destruct (pvt_iter E m n (firstn n nav)) as [flag m1]. cbn [fst snd] in *.
  destruct Hflag as [-> | ->]; cbn [Z.eqb].
  2:{ intros Heq; inversion Heq; subst. split; [lia|]. left. split; reflexivity. }
  intros Heq. split; [lia|]. right. split; [reflexivity|].
  destruct disable_raim.
  { inversion Heq; subst. left. split; reflexivity. }
  destruct (fst (fst (residual_test n m1))).
  - destruct (Nat.eqb_spec n 4); inversion Heq; subst.
    + right; left. repeat split; reflexivity.
    + right; right; left. repeat split; auto.
  - destruct (Nat.ltb_spec n 6).
    + inversion Heq; subst. right; right; right; left. repeat split; auto.
    + apply pvt_repair_flag in Heq.
      right; right; right; right. repeat split; auto.
Qed.

(** X5: calc_PVT reads the first [n_used] entries of the measurement
    array only: two arrays with the same first [n_used] entries give the
    same return value, solution, DOPs and state. *)
Theorem calc_PVT_reads_first_n_measurements
  (n : nat) (nav1 nav2 : list meas) (disable_raim : bool) (w : pvt_world D) :
  firstn n nav1 = firstn n nav2 ->
  calc_PVT E n nav1 disable_raim w = calc_PVT E n nav2 disable_raim w.
Proof.
  intros Hp. apply calc_PVT_ext. exact Hp.
Qed.

(** X6: with RAIM disabled and at least 4 measurements (at most
    MAX_CHANNELS), calc_PVT always returns, runs the iterated solve exactly
    once and the residual test not at all, and its return value is 2, -1,
    -2 or -6; it is -6 exactly when that solve did not converge. *)
Theorem raim_disabled_single_solve (n : nat) (nav : list meas) (w : pvt_world D) :
  (4 <= n)%nat -> (n <= MAX_CHANNELS E)%nat ->
  exists ret w',
    calc_PVT E n nav true w = Ret (ret, w') /\
    w_log w' = w_log w ++ [Ev_pvt_iter n (firstn n nav)
                                       (fst (first_solve E n nav w))] /\
    (ret = 2 \/ ret = -1 \/ ret = -2 \/ ret = -6)%Z /\
    (ret = (-6)%Z <-> fst (first_solve E n nav w) = (-1)%Z).
Proof.
  intros Hn Hmax. unfold calc_PVT, first_solve.
  destruct (Nat.ltb_spec n 4); [lia|].
  rewrite pvt_solve_raim_branches. cbv zeta.
  destruct (Nat.ltb_spec (MAX_CHANNELS E) n); [lia|].
  pose proof (pvt_iter_flag_log E (entry_mem n w) n (firstn n nav)) as [Hflag Hlog].
  rewrite firstn_firstn, Nat.min_id in Hlog.
  destruct (pvt_iter E (entry_mem n w) n (firstn n nav)) as [flag m1].
  cbn [fst snd] in *. change (log (entry_mem n w)) with (w_log w) in Hlog.
  destruct Hflag as [-> | ->]; cbn [Z.eqb].
  - rewrite calc_PVT_finish_nonneg by lia. cbv zeta.
    change (2 =? 1)%Z with false. cbv iota.
    pose proof (filter_solution_range
                  (populate E (Z.of_nat n) nav (rx_state m1) (Hmat m1)
                     (compute_dops E (Hmat m1) (firstn 3 (rx_state m1))))
                  (compute_dops E (Hmat m1) (firstn 3 (rx_state m1)))) as Hq.
    fold (quality E (Z.of_nat n) nav m1) in Hq.
    destruct (Z.eqb_spec (quality E (Z.of_nat n) nav m1) 0) as [Hq0|Hq0];
      eexists _, _; (split; [reflexivity|]); cbn [w_log];
      (split; [exact Hlog|]); split; try lia; split; intros; lia.
  - unfold calc_PVT_finish. cbn [Z.ltb Z.compare].
    eexists _, _. split; [reflexivity|]. cbn [w_log].
    split; [exact Hlog|]. split; [lia|]. split; intros; lia.
Qed.

(** X7: a call of calc_PVT ends in a failed assertion when it is given at
    least 4 and more than MAX_CHANNELS measurements.  It returns whenever
    it is given fewer than 4 measurements, or at most MAX_CHANNELS
    measurements with RAIM disabled or fewer than 6 of them.  Within
    MAX_CHANNELS a failed assertion is the one of pvt_repair: RAIM was
    enabled, there were 6 or more measurements, the first solve converged
    and its residual test failed. *)
Theorem calc_PVT_assertions
  (n : nat) (nav : list meas) (disable_raim : bool) (w : pvt_world D) :
  ((4 <= n)%nat -> (MAX_CHANNELS E < n)%nat ->
   calc_PVT E n nav disable_raim w = Assert_failed) /\
  ((n < 4)%nat \/
   ((n <= MAX_CHANNELS E)%nat /\ (disable_raim = true \/ (n < 6)%nat)) ->
   exists ret w', calc_PVT E n nav disable_raim w = Ret (ret, w')) /\
  (calc_PVT E n nav disable_raim w = Assert_failed ->
   (n <= MAX_CHANNELS E)%nat ->
   disable_raim = false /\ (6 <= n)%nat /\ converged E n nav w /\
   test_passed E n nav w = false /\
   pvt_repair E (snd (first_test E n nav w)) n nav = Assert_failed).
Proof.
  unfold calc_PVT, converged, test_passed, first_test, first_solve.
  rewrite pvt_solve_raim_branches. cbv zeta.
  pose proof (pvt_iter_flag_log E (entry_mem n w) n (firstn n nav)) as [Hflag _].
  destruct (pvt_iter E (entry_mem n w) n (firstn n nav)) as [flag m1].
  cbn [fst snd] in *.
  split; [|split].
  - intros Hn Hmax. destruct (Nat.ltb_spec n 4); [lia|].
    destruct (Nat.ltb_spec (MAX_CHANNELS E) n); [reflexivity | lia].
  - assert (Hret : forall x : Z * pvt_world D,
              exists ret w', Ret x = Ret (ret, w')).
    { intros [ret w']. exists ret, w'. reflexivity. }
    intros Hcase. destruct (Nat.ltb_spec n 4); [apply Hret|].
    destruct Hcase as [Hlt | [Hmax Hcase]]; [lia|].
    destruct (Nat.ltb_spec (MAX_CHANNELS E) n); [lia|].
    destruct (flag =? -1)%Z; [apply Hret|].
    destruct disable_raim; [apply Hret|].
    destruct (fst (fst (residual_test n m1))); [apply Hret|].
    destruct Hcase as [Hc|Hc]; [discriminate|].
    destruct (Nat.ltb_spec n 6); [apply Hret | lia].
  - intros Hfail Hmax. destruct (Nat.ltb_spec n 4); [discriminate|].
    destruct (Nat.ltb_spec (MAX_CHANNELS E) n); [lia|].
    destruct Hflag as [-> | ->]; cbn [Z.eqb] in Hfail; [|discriminate].
    destruct disable_raim; [discriminate|].
    destruct (fst (fst (residual_test n m1))); [discriminate|].
    destruct (Nat.ltb_spec n 6); [discriminate|].
    destruct (pvt_repair E (snd (residual_test n m1)) n nav)
      as [[[r removed] m2]|]; [discriminate|].
    repeat split; auto.
Qed.

(** X8: one call of calc_PVT with [n] measurements only appends to the
    log, at most [n + 2] iterated solves and [n + 1] residual tests; with
    fewer than 6 measurements at most one of each. *)
Theorem calc_PVT_work_bound
  (n : nat) (nav : list meas) (disable_raim : bool) (w : pvt_world D)
  (ret : Z) (w' : pvt_world D) :
  calc_PVT E n nav disable_raim w = Ret (ret, w') ->
  exists l, w_log w' = w_log w ++ l /\
            (count_iters l <= n + 2)%nat /\ (count_tests l <= n + 1)%nat /\
            ((n < 6)%nat -> (count_iters l <= 1)%nat /\ (count_tests l <= 1)%nat) /\
            ((n < 4)%nat -> l = []).
Proof.
  intros Hcall.
  destruct (calc_PVT_cases E _ _ _ _ _ _ Hcall)
    as [(Hn & -> & ->) | (Hn & flag & removed & m1 & Hraim & Hcase)].
  { exists []. rewrite app_nil_r. cbn. repeat split; intros; lia. }
  apply pvt_solve_raim_counts in Hraim as (l & Hl & Hi & Ht & Hsmall & _).
  change (log (entry_mem n w)) with (w_log w) in Hl.
  assert (Hlog : w_log w' = log m1).
  { cbv zeta in Hcase.
    destruct Hcase as [(_ & _ & ->) | [(_ & _ & _ & ->) | (_ & _ & _ & ->)]];
      reflexivity. }
  exists l. rewrite Hlog. split; [exact Hl|].
  split; [lia|]. split; [lia|]. split; [|intros; lia].
  intros H6. destruct (Hsmall H6). lia.
Qed.

(** X9: what each return value of calc_PVT says about the call.  -7 is
    returned exactly for fewer than 4 measurements, -6 exactly when the
    first solve of at least 4 measurements does not converge.  2 needs RAIM
    disabled or exactly 4 measurements; 0 needs RAIM enabled, at least 5
    measurements and a passed residual test; 1 and -4 need RAIM enabled, at
    least 6 measurements and a failed residual test; -5 needs RAIM enabled,
    fewer than 6 measurements and a failed residual test. *)
Theorem calc_PVT_code_conditions
  (n : nat) (nav : list meas) (disable_raim : bool) (w : pvt_world D)
  (ret : Z) (w' : pvt_world D) :
  calc_PVT E n nav disable_raim w = Ret (ret, w') ->
  (ret = (-7)%Z <-> (n < 4)%nat) /\
  (ret = (-6)%Z <-> (4 <= n)%nat /\ fst (first_solve E n nav w) = (-1)%Z) /\
  (ret = 2%Z -> disable_raim = true \/ n = 4%nat) /\
  (ret = 0%Z ->
   disable_raim = false /\ (5 <= n)%nat /\ test_passed E n nav w = true) /\
  ((ret = 1 \/ ret = -4)%Z ->
   disable_raim = false /\ (6 <= n)%nat /\ test_passed E n nav w = false) /\
  (ret = (-5)%Z ->
   disable_raim = false /\ (n < 6)%nat /\ test_passed E n nav w = false).
Proof.
  intros Hcall.
  destruct (calc_PVT_cases E _ _ _ _ _ _ Hcall)
    as [(Hn & -> & ->) | (Hn & flag & removed & m1 & Hraim & Hcase)].
  { repeat split; intros; try lia; try discriminate. }
  apply pvt_solve_raim_conditions in Hraim as [_ Hcond]. cbv zeta in Hcond, Hcase.
  unfold test_passed, first_test, first_solve.
  set (it := pvt_iter E (entry_mem n w) n (firstn n nav)) in *.
  set (passed := fst (fst (residual_test n (snd it)))) in *.
  assert (Hret : (flag < 0 /\ ret = flag - 3)%Z \/ (0 <= flag /\ ret = flag)%Z \/
                 (0 <= flag /\ (ret = -1 \/ ret = -2))%Z).
  { destruct Hcase as [(Hf & -> & _) | [(Hf & _ & -> & _) | (Hf & Hq & -> & _)]];
      lia. }
  clear Hcase Hcall.
  destruct Hcond as [[-> Hit] | [Hit Hcond]].
  { repeat split; intros; try lia; try assumption. }
  destruct Hcond as [(-> & Hd) | [(-> & Hd & H4 & Hp) | [(-> & Hd & H4 & Hp)
                     | [(-> & Hd & H6 & Hp) | (Hr & Hd & H6 & Hp)]]]];
    repeat split; intros; try lia; auto;
    try (destruct H as [H|H]; lia).
Qed.

(** X10: when calc_PVT returns a non-negative value, the solution is
    marked valid and mirrors the static state left for the next call: its
    ECEF position and velocity and its clock offset and clock bias are the
    entries of that state (the clock terms divided by GPS_C), its geodetic
    position and local-level velocity are their conversions, its time is
    the normalised time of transmission of the first measurement of the
    array plus its pseudorange over GPS_C minus the clock offset, the
    seventh covariance entry is the GDOP stored in [dops], and the
    measurement count is [n_used], less one after a repair. *)
Theorem calc_PVT_success_solution
  (n : nat) (nav : list meas) (disable_raim : bool) (w : pvt_world D)
  (ret : Z) (w' : pvt_world D) :
  calc_PVT E n nav disable_raim w = Ret (ret, w') -> (0 <= ret)%Z ->
  (n <= 255)%nat ->
  let rx := w_rx_state w' in
  let s := w_soln w' in
  let nm0 := nth 0 nav meas_zero in
  valid s = 1%Z /\
  n_used s = (if (ret =? 1)%Z then Z.of_nat n - 1 else Z.of_nat n)%Z /\
  pos_ecef s = [rx.[0]; rx.[1]; rx.[2]] /\
  vel_ecef s = [rx.[4]; rx.[5]; rx.[6]] /\
  pos_llh s = wgsecef2llh E (firstn 3 rx) /\
  vel_ned s = wgsecef2ned E (vel_ecef s) (pos_ecef s) /\
  clock_offset s = rx.[3] / GPS_C E /\
  clock_bias s = rx.[7] / GPS_C E /\
  time s = normalize_gps_time E
             (Build_gps_time_t
                (tow (tot nm0) + pseudorange nm0 / GPS_C E - rx.[3] / GPS_C E)
                (wn (tot nm0))) /\
  (err_cov s).[6] = gdop (w_dops w').
Proof.
  intros Hcall Hret Hu8.
  destruct (calc_PVT_cases E _ _ _ _ _ _ Hcall)
    as [(Hn & -> & ->) | (Hn & flag & removed & m1 & Hraim & Hcase)]; [lia|].
  apply pvt_solve_raim_conditions in Hraim as [_ Hcond].
  cbv zeta in Hcase, Hcond.
  destruct Hcase as [(Hf & -> & _) | [(Hf & _ & -> & ->) | (Hf & Hq & -> & _)]];
    try lia.
  assert (H6 : flag = 1%Z -> (6 <= n)%nat) by (intros ->; intuition lia).
  cbv zeta. cbn [w_soln w_rx_state w_dops].
  unfold populate, set_valid. cbn [valid n_used pos_ecef vel_ecef pos_llh vel_ned
    clock_offset clock_bias time err_cov tow wn].
  repeat split.
  destruct (Z.eqb_spec flag 1) as [H1|H1]; [|reflexivity].
  rewrite Z.mod_small by (specialize (H6 H1); lia). reflexivity.
Qed.

(** X11: the quality of what calc_PVT reports.  A non-negative return
    comes with a PDOP that is not above 50 and an altitude that is neither
    below -1000 m nor above 1e6 m.  With -1 the PDOP stored in [dops] is
    above 50, with -2 it is not.  With -4, -5, -6 and -7 [dops] is left as
    the caller passed it. *)
Theorem calc_PVT_quality
  (n : nat) (nav : list meas) (disable_raim : bool) (w : pvt_world D)
  (ret : Z) (w' : pvt_world D) :
  calc_PVT E n nav disable_raim w = Ret (ret, w') ->
  ((0 <= ret)%Z ->
   (pdop (w_dops w') >? d_lit 50 0) = false /\
   ((pos_llh (w_soln w')).[2] <? d_lit (-1) 3) = false /\
   ((pos_llh (w_soln w')).[2] >? d_lit 1 6) = false) /\
  (ret = (-1)%Z -> (pdop (w_dops w') >? d_lit 50 0) = true) /\
  (ret = (-2)%Z -> (pdop (w_dops w') >? d_lit 50 0) = false) /\
  ((ret <= -4)%Z -> w_dops w' = w_dops w).
Proof.
  intros Hcall.
  destruct (calc_PVT_cases E _ _ _ _ _ _ Hcall)
    as [(Hn & -> & ->) | (Hn & flag & removed & m1 & Hraim & Hcase)].
  { repeat split; intros; try lia; reflexivity. }
  cbv zeta in Hcase. unfold quality, filter_solution in Hcase.
  destruct Hcase as [(Hf & -> & ->) | [(Hf & Hq & -> & ->) | (Hf & Hq & -> & ->)]];
    cbn [w_soln w_dops set_valid pos_llh].
  - repeat split; intros; try lia; reflexivity.
  - destruct (d_lt (d_lit 50 0) _); [discriminate|].
    destruct (d_lt _ (d_lit (-1) 3)); [discriminate|].
    destruct (d_lt (d_lit 1 6) _); [discriminate|].
    repeat split; intros; try lia; reflexivity.
  - destruct (d_lt (d_lit 50 0) _).
    + repeat split; intros; try lia; try reflexivity.
    + destruct (_ || _); repeat split; intros; try lia; try reflexivity.
Qed.

(** X12: pvt_solve_raim stores a satellite identity through
    [removed_sid] exactly when it returns 1, and what it stores is the
    identity of one of the first [n_used] measurements. *)
Theorem removed_sid_written_iff_repaired
  (m : mem) (n : nat) (nav : list meas) (disable_raim : bool)
  (r : Z) (removed : option gnss_signal_t) (m' : mem) :
  pvt_solve_raim E m n nav disable_raim = Ret (r, removed, m') ->
  (r = 1%Z <-> removed <> None) /\
  (forall s, removed = Some s ->
     exists b, (b < n)%nat /\ s = sid (nth b nav meas_zero)).
Proof.
  rewrite pvt_solve_raim_branches. cbv zeta.
  destruct (MAX_CHANNELS E <? n)%nat; [discriminate|].
  assert (Hnone : forall k mm, Ret (k, None, mm) = Ret (r, removed, m') ->
            k <> 1%Z ->
            (r = 1%Z <-> removed <> None) /\
            (forall s, removed = Some s ->
               exists b, (b < n)%nat /\ s = sid (nth b nav meas_zero))).
  { intros k mm Heq Hk. inversion Heq; subst. split.
    - split; [contradiction | intros Hx; contradiction Hx; reflexivity].
    - intros s Hs. discriminate. }
  destruct (_ =? -1)%Z; [intros Heq; apply (Hnone _ _ Heq); lia|].
  destruct disable_raim; [intros Heq; apply (Hnone _ _ Heq); lia|].
  destruct (fst (fst _)).
  { intros Heq; apply (Hnone _ _ Heq). destruct (n =? 4)%nat; lia. }
  destruct (Nat.ltb_spec n 6); [intros Heq; apply (Hnone _ _ Heq); lia|].
  intros Hrep. apply pvt_repair_removed in Hrep; [|lia].
  destruct Hrep as [(-> & b & Hb & ->) | (-> & ->)].
  - split; [split; [discriminate | reflexivity]|].
    intros s Hs. inversion Hs; subst. exists b. split; [exact Hb | reflexivity].
  - split; [split; [discriminate | intros Hx; contradiction Hx; reflexivity]|].
    intros s Hs. discriminate.
Qed.
(** X13: a call of calc_PVT reads the position entries of the static
    state only: from two states with the same first three entries, at least
    4 measurements and at least one iteration allowed, it returns the same
    value and leaves the same solution, DOPs and state.  The clock and
    velocity entries an earlier call left are never read. *)
Theorem calc_PVT_depends_on_position_only
  (n : nat) (nav : list meas) (disable_raim : bool) (w1 w2 : pvt_world D) :
  (4 <= n)%nat -> (1 <= PVT_MAX_ITERATIONS E)%nat ->
  length (w_rx_state w1) = 8%nat -> length (w_rx_state w2) = 8%nat ->
  (forall i, (i < 3)%nat -> (w_rx_state w1).[i] = (w_rx_state w2).[i]) ->
  w_soln w1 = w_soln w2 -> w_dops w1 = w_dops w2 -> w_log w1 = w_log w2 ->
  calc_PVT E n nav disable_raim w1 = calc_PVT E n nav disable_raim w2.
Proof.
  apply calc_PVT_position_only.
Qed.

(** X14: after a call that returned -1, -2 or -6 the next call (with at
    least 4 measurements) behaves as it would from the all-zero state of a
    fresh process: same return value, solution, DOPs and state. *)
Theorem call_after_rejection_starts_afresh
  (n1 : nat) (nav1 : list meas) (raim1 : bool) (w : pvt_world D)
  (ret : Z) (w' : pvt_world D)
  (n2 : nat) (nav2 : list meas) (raim2 : bool) :
  calc_PVT E n1 nav1 raim1 w = Ret (ret, w') ->
  (ret = -1 \/ ret = -2 \/ ret = -6)%Z ->
  length (w_rx_state w) = 8%nat ->
  (4 <= n2)%nat -> (1 <= PVT_MAX_ITERATIONS E)%nat ->
  calc_PVT E n2 nav2 raim2 w'
  = calc_PVT E n2 nav2 raim2 (with_rx_state (repeat d_zero 8) w').
Proof.
  intros Hcall Hret Hlen Hn Hfuel.
  apply calc_PVT_position_only; try assumption; try reflexivity.
  - rewrite (calc_PVT_rx_length E _ _ _ _ _ _ Hcall). exact Hlen.
  - intros i Hi.
    assert (Hz : (w_rx_state w').[i] = d_zero).
    { destruct (calc_PVT_cases E _ _ _ _ _ _ Hcall)
        as [(_ & -> & _) | (_ & flag & removed & m1 & Hraim & Hcase)]; [lia|].
      apply pvt_solve_raim_flag in Hraim as [_ Hpos]. cbv zeta in Hcase.
      destruct Hcase as [(Hf & -> & ->) | [(Hf & _ & -> & _) | (Hf & _ & _ & ->)]];
        cbn [w_rx_state].
      - apply Hpos; [lia | exact Hi].
      - lia.
      - apply at_write_zero. exact Hi. }
    rewrite Hz. cbn [with_rx_state w_rx_state].
    destruct i as [|[|[|i]]]; try lia; reflexivity.
Qed.

(** X15: the RAIM switch does not change a solution that passes the
    check: when calc_PVT with RAIM enabled returns 0 or 2, the same call
    with RAIM disabled returns 2 and leaves the same solution, DOPs and
    static state. *)
Theorem raim_switch_keeps_the_solution
  (n : nat) (nav : list meas) (w : pvt_world D) (ret : Z) (w' : pvt_world D) :
  calc_PVT E n nav false w = Ret (ret, w') -> (ret = 0 \/ ret = 2)%Z ->
  exists w'',
    calc_PVT E n nav true w = Ret (2%Z, w'') /\
    w_soln w'' = w_soln w' /\ w_dops w'' = w_dops w' /\
    w_rx_state w'' = w_rx_state w'.
Proof.
  intros Hcall Hret.
  destruct (calc_PVT_cases E _ _ _ _ _ _ Hcall)
    as [(Hn & -> & ->) | (Hn & flag & removed & m1 & Hraim & Hcase)]; [lia|].
  cbv zeta in Hcase.
  destruct Hcase as [(Hf & -> & _) | [(Hf & Hq & -> & ->) | (Hf & Hq & -> & _)]];
    try lia.
  rewrite pvt_solve_raim_branches in Hraim. cbv zeta in Hraim.
  unfold calc_PVT. destruct (Nat.ltb_spec n 4); [lia|].
  rewrite pvt_solve_raim_branches. cbv zeta.
  destruct (MAX_CHANNELS E <? n)%nat; [discriminate|].
  destruct (pvt_iter E (entry_mem n w) n (firstn n nav)) as [f m0].
  cbn [fst snd] in *.
  destruct (f =? -1)%Z; [inversion Hraim; subst; lia|].
  destruct (residual_test_frame n m0) as (Hrx & HH & _).
  pose proof (quality_after_test E (Z.of_nat n) nav n m0) as Hqt.
  destruct (residual_test n m0) as [[passed norm] mt]. cbn [fst snd] in *.
  destruct passed.
  2:{ destruct (n <? 6)%nat; [inversion Hraim; subst; lia|].
      apply pvt_repair_flag in Hraim. lia. }
  assert (Hm : m1 = mt) by (inversion Hraim; reflexivity). subst m1.
  assert (Hk : (if (flag =? 1)%Z then ((Z.of_nat n - 1) mod 256)%Z
                else Z.of_nat n) = Z.of_nat n).
  { destruct (Z.eqb_spec flag 1); [lia | reflexivity]. }
  rewrite Hk in *.
  rewrite calc_PVT_finish_nonneg by lia. cbv zeta.
  change (2 =? 1)%Z with false. cbv iota.
  rewrite <- Hqt, Hq. cbn [Z.eqb].
  eexists. split; [reflexivity|]. cbn [w_soln w_dops w_rx_state].
  rewrite Hrx, HH. repeat split.
Qed.
End WholeCalls.

(** ** The error string of a return value *)

Section ErrorStringFacts.
Context {D : Type} {SD : Scalar D}.
Variable E : Externals D.
Local Open Scope string_scope.

(** X16: for every negative return value [ret] of calc_PVT, the index
    [-ret - 1] is inside the table pvt_err_msg; the string it selects is
    never the one for a velocity of 1000 kts or more, and it is the one for
    too few measurements exactly when fewer than 4 were given. *)
Theorem calc_PVT_error_string
  (n : nat) (nav : list (navigation_measurement_t D)) (disable_raim : bool)
  (w : pvt_world D) (ret : Z) (w' : pvt_world D) :
  calc_PVT E n nav disable_raim w = Ret (ret, w') -> (ret < 0)%Z ->
  exists s, err_msg ret = Some s /\
            s <> "Velocity >= 1000 kts" /\
            (s = "Not enough measurements for solution (< 4)" <-> (n < 4)%nat).
Proof.
  intros Hcall Hneg.
  destruct (calc_PVT_cases E _ _ _ _ _ _ Hcall)
    as [(Hn & -> & ->) | (Hn & flag & removed & m1 & Hraim & Hcase)].
  { eexists. split; [reflexivity|]. split; [discriminate|].
    split; intros; [assumption | reflexivity]. }
  cbv zeta in Hcase.
  assert (Hc : (ret = -1 \/ ret = -2 \/ ret = -4 \/ ret = -5 \/ ret = -6)%Z).
  { destruct Hcase as [(Hf & -> & _) | [(Hf & _ & -> & _) | (Hf & Hq & -> & _)]];
      lia. }
  destruct Hc as [-> | [-> | [-> | [-> | ->]]]];
    (eexists; split; [reflexivity|]; split; [discriminate|];
     split; intros; [discriminate | lia]).
Qed.
End ErrorStringFacts.

(** ** Facts about the matrices of a step *)

Section MatrixFacts.
Context {D : Type} {SD : Scalar D}.
Variable E : Externals D.
Local Open Scope double_scope.

(** Row [j], column [i] of a matrix built row by row. *)
Lemma nth_flat_map_rows {B : Type} (f : nat -> list B) (c : nat) (d : B) :
  (forall j, length (f j) = c) ->
  forall (n s j i : nat), (j < n)%nat -> (i < c)%nat ->
  nth (c * j + i) (flat_map f (seq s n)) d = nth i (f (s + j)%nat) d.
Proof.
  intros Hlen. induction n as [|n IH]; intros s j i Hj Hi; [lia|].
  cbn [seq flat_map]. destruct j as [|j].
  - rewrite Nat.mul_0_r, Nat.add_0_l, Nat.add_0_r.
    apply app_nth1. rewrite Hlen. exact Hi.
  - rewrite app_nth2 by (rewrite Hlen; lia). rewrite Hlen.
    replace (c * S j + i - c)%nat with (c * j + i)%nat by lia.
    rewrite IH by lia. f_equal. f_equal. lia.
Qed.

(** [G[j][i]] is entry [i] of the row the channel loop builds for
    measurement [j]. *)
Lemma step_G_entry (rx : list D) (n : nat)
  (nav : list (navigation_measurement_t D)) (j i : nat) :
  (j < n)%nat -> (i < 4)%nat ->
  (step_G E rx n nav).[(4 * j + i)]
  = (snd (channel E rx (nth j nav meas_zero))).[i].
Proof.
  intros Hj Hi. unfold step_G, at_.
  rewrite (nth_flat_map_rows _ 4) by (auto; lia). reflexivity.
Qed.

(** [Gtrans[i][k] = G[k][i]]. *)
Lemma matrix_transpose_entry (a : list D) (n m : nat) (i k : nat) :
  (i < m)%nat -> (k < n)%nat ->
  (matrix_transpose n m a).[(n * i + k)] = a.[(m * k + i)].
Proof.
  intros Hi Hk. unfold matrix_transpose, at_ at 1.
  rewrite (nth_flat_map_rows _ n)
    by (try (intros; rewrite length_map, length_seq); auto; lia).
  rewrite nth_map_seq by lia. reflexivity.
Qed.

(** [C[i][j]] of a matrix product is the dot product of row [i] and
    column [j]. *)
Lemma matrix_multiply_entry (a b : list D) (n m p : nat) (i j : nat) :
  (i < n)%nat -> (j < p)%nat ->
  (matrix_multiply n m p a b).[(p * i + j)]
  = fold_left (fun acc k => acc + a.[(m * i + k)] * b.[(p * k + j)])
              (seq 0 m) d_zero.
Proof.
  intros Hi Hj. unfold matrix_multiply, at_ at 1.
  rewrite (nth_flat_map_rows _ p)
    by (try (intros; rewrite length_map, length_seq); auto; lia).
  rewrite nth_map_seq by lia. reflexivity.
Qed.

Lemma fold_left_ext_in {A B : Type} (f g : A -> B -> A) (l : list B) :
  (forall a b, In b l -> f a b = g a b) ->
  forall a, fold_left f l a = fold_left g l a.
Proof.
  induction l as [|b l IH]; intros Hfg a; cbn [fold_left]; [reflexivity|].
  rewrite Hfg by (left; reflexivity). apply IH.
  intros a' b' Hb. apply Hfg. right. exact Hb.
Qed.

(** [GtG[i][j]] is the sum over the measurements of [G[k][i] * G[k][j]]. *)
Lemma step_GtG_entry (rx : list D) (n : nat)
  (nav : list (navigation_measurement_t D)) (i j : nat) :
  (i < 4)%nat -> (j < 4)%nat ->
  (step_GtG E rx n nav).[(4 * i + j)]
  = fold_left (fun acc k => acc + (step_G E rx n nav).[(4 * k + i)]
                                  * (step_G E rx n nav).[(4 * k + j)])
              (seq 0 n) d_zero.
Proof.
  intros Hi Hj. unfold step_GtG.
  rewrite matrix_multiply_entry by assumption.
  apply fold_left_ext_in. intros acc k Hk. apply in_seq in Hk.
  rewrite matrix_transpose_entry by lia. reflexivity.
Qed.
End MatrixFacts.

(** ** binary64: what is not a number *)

(** X23: the quality filter does not reject what is not a number: a PDOP
    that is NaN is never answered with code 1, and an altitude that is NaN
    never with code 2. *)
Theorem filter_solution_accepts_nan
  (soln : gnss_solution float) (dops : dops_t float) :
  (pdop dops = PrimFloat.nan -> filter_solution soln dops <> 1%Z) /\
  ((pos_llh soln).[2] = PrimFloat.nan -> filter_solution soln dops <> 2%Z).
Proof.
  unfold filter_solution. split; intros Hnan; rewrite Hnan.
  - replace (d_lt (d_lit 50 0) PrimFloat.nan) with false
      by (vm_compute; reflexivity).
    destruct (_ || _); discriminate.
  - replace (d_lt PrimFloat.nan (d_lit (-1) 3)) with false
      by (vm_compute; reflexivity).
    replace (d_lt (d_lit 1 6) PrimFloat.nan) with false
      by (vm_compute; reflexivity).
    destruct (d_lt _ _); discriminate.
Qed.

(** *** NaN is absorbing *)

Lemma nan_spec : FloatOps.Prim2SF PrimFloat.nan = SpecFloat.S754_nan.
Proof. reflexivity. Qed.

Lemma add_nan_l (x : float) : PrimFloat.add PrimFloat.nan x = PrimFloat.nan.
Proof.
  apply FloatAxioms.Prim2SF_inj. rewrite FloatAxioms.add_spec, nan_spec.
  reflexivity.
Qed.

Lemma add_nan_r (x : float) : PrimFloat.add x PrimFloat.nan = PrimFloat.nan.
Proof.
  apply FloatAxioms.Prim2SF_inj. rewrite FloatAxioms.add_spec, nan_spec.
  destruct (FloatOps.Prim2SF x); reflexivity.
Qed.

Lemma sub_nan_l (x : float) : PrimFloat.sub PrimFloat.nan x = PrimFloat.nan.
Proof.
  apply FloatAxioms.Prim2SF_inj. rewrite FloatAxioms.sub_spec, nan_spec.
  reflexivity.
Qed.

Lemma mul_nan_r (x : float) : PrimFloat.mul x PrimFloat.nan = PrimFloat.nan.
Proof.
  apply FloatAxioms.Prim2SF_inj. rewrite FloatAxioms.mul_spec, nan_spec.
  destruct (FloatOps.Prim2SF x); reflexivity.
Qed.

Section NotANumber.
Variable E : Externals float.

(** A sum of products one of whose factors is NaN is NaN. *)
Lemma fold_left_nan (f g : nat -> float) (j : nat) (l : list nat) :
  In j l -> g j = PrimFloat.nan ->
  forall acc : float,
  fold_left (fun acc k => d_add acc (d_mul (f k) (g k))) l acc = PrimFloat.nan.
Proof.
  intros Hj Hg.
  assert (Hab : forall l' : list nat,
            fold_left (fun acc k => d_add acc (d_mul (f k) (g k))) l'
                      PrimFloat.nan = PrimFloat.nan).
  { induction l' as [|k l' IH]; cbn [fold_left]; [reflexivity|].
    cbn [d_add Scalar_float]. rewrite add_nan_l. exact IH. }
  induction l as [|k l IH]; intros acc; cbn [fold_left]; [contradiction|].
  destruct Hj as [->|Hj].
  - rewrite Hg. cbn [d_add d_mul Scalar_float].
    rewrite mul_nan_r, add_nan_r. apply Hab.
  - apply IH. exact Hj.
Qed.

(** A least-squares step on measurements one of whose pseudoranges is NaN
    returns NaN, whatever the state. *)
Lemma nan_step (m : solver_mem float) (n : nat)
  (nav : list (navigation_measurement_t float)) (j : nat) :
  (j < n)%nat -> pseudorange (nth j nav meas_zero) = PrimFloat.nan ->
  fst (pvt_solve E m n nav) = PrimFloat.nan.
Proof.
  intros Hj Hnan.
  assert (Hcorr : step_correction E (rx_state m) n nav
                  = [PrimFloat.nan; PrimFloat.nan; PrimFloat.nan; PrimFloat.nan]).
  { unfold step_correction, matrix_multiply. cbn [seq flat_map map app].
    assert (Homp : (step_omp E (rx_state m) n nav).[(1 * j + 0)] = PrimFloat.nan).
    { replace (1 * j + 0)%nat with j by lia.
      unfold step_omp, at_. rewrite nth_map_seq by lia.
      unfold channel. cbn [fst]. rewrite Hnan.
      cbn [d_sub Scalar_float]. apply sub_nan_l. }
    assert (Hin : In j (seq 0 n)) by (apply in_seq; lia).
    rewrite !(fold_left_nan _
                (fun k => (step_omp E (rx_state m) n nav).[(1 * k + 0)])
                j _ Hin Homp).
    reflexivity. }
  unfold pvt_solve. rewrite Hcorr.
  replace (vector_norm 3 [PrimFloat.nan; PrimFloat.nan; PrimFloat.nan;
                          PrimFloat.nan]) with PrimFloat.nan
    by (vm_compute; reflexivity).
  replace (d_lt (d_lit 1 (-3)) PrimFloat.nan) with false
    by (vm_compute; reflexivity).
  reflexivity.
Qed.

Lemma nan_loop (n : nat) (nav : list (navigation_measurement_t float))
  (j : nat) (fuel : nat) :
  (j < n)%nat -> pseudorange (nth j nav meas_zero) = PrimFloat.nan ->
  forall m : solver_mem float, fst (pvt_iter_loop E fuel m n nav) = false.
Proof.
  intros Hj Hnan.
  induction fuel as [|fuel IH]; intros m; cbn [pvt_iter_loop]; [reflexivity|].
  pose proof (nan_step m n nav j Hj Hnan) as Hr.
  destruct (pvt_solve E m n nav) as [r m1]. cbn [fst] in Hr. subst r.
  replace (d_lt d_zero PrimFloat.nan) with false by (vm_compute; reflexivity).
  apply IH.
Qed.

(** X24: on binary64, when one of the first [n_used] pseudoranges is NaN,
    every least-squares step returns NaN, the iteration is never left by
    [break], and calc_PVT (given 4 to MAX_CHANNELS measurements) returns
    -6 with the solution not marked valid and a zero position in the
    static state. *)
Theorem nan_pseudorange_is_reported_as_failure
  (n : nat) (nav : list (navigation_measurement_t float)) (disable_raim : bool)
  (w : pvt_world float) (j : nat) :
  (4 <= n)%nat -> (n <= MAX_CHANNELS E)%nat -> (j < n)%nat ->
  pseudorange (nth j nav meas_zero) = PrimFloat.nan ->
  (forall m, fst (pvt_solve E m n nav) = PrimFloat.nan) /\
  (forall m, fst (pvt_iter E m n nav) = (-1)%Z) /\
  exists w',
    calc_PVT E n nav disable_raim w = Ret ((-6)%Z, w') /\
    valid (w_soln w') = 0%Z /\
    forall i, (i < 3)%nat -> (w_rx_state w').[i] = d_zero.
Proof.
  intros Hn Hmax Hj Hnan.
  assert (Hall : forall m, fst (pvt_iter E m n nav) = (-1)%Z).
  { intros m. unfold pvt_iter.
    match goal with |- context [pvt_iter_loop E ?f ?m0 n nav] =>
      pose proof (nan_loop n nav j f Hj Hnan m0) as Hloop;
      destruct (pvt_iter_loop E f m0 n nav) as [broke m1] end.
    cbn [fst] in Hloop. subst broke. reflexivity. }
  split; [intros m; apply (nan_step m n nav j Hj Hnan)|].
  split; [exact Hall|].
  assert (Hiter : fst (pvt_iter E (entry_mem n w) n (firstn n nav)) = (-1)%Z).
  { rewrite (pvt_iter_ext E _ _ _ _ (same_prefix_firstn n nav)). apply Hall. }
  pose proof (pvt_iter_failed_position E (entry_mem n w) n (firstn n nav)) as Hpos.
  unfold calc_PVT. destruct (Nat.ltb_spec n 4); [lia|].
  rewrite pvt_solve_raim_branches. cbv zeta.
  destruct (Nat.ltb_spec (MAX_CHANNELS E) n); [lia|].
  rewrite Hiter. cbn [Z.eqb]. unfold calc_PVT_finish. cbn [Z.ltb Z.compare Z.sub].
  eexists. split; [reflexivity|]. cbn [w_soln w_rx_state].
  split; [reflexivity|]. intros i Hi. apply Hpos; [exact Hiter | exact Hi].
Qed.
End NotANumber.


(** ** binary64: zeros, finite values, comparisons and square roots *)

Lemma zero_spec : FloatOps.Prim2SF PrimFloat.zero = SpecFloat.S754_zero false.
Proof. reflexivity. Qed.

Lemma mul_comm (x y : float) : PrimFloat.mul x y = PrimFloat.mul y x.
Proof.
  apply FloatAxioms.Prim2SF_inj. rewrite !FloatAxioms.mul_spec.
  unfold FloatAxioms.SF64mul, SpecFloat.SFmul.
  destruct (FloatOps.Prim2SF x) as [sx|sx| |sx mx ex];
    destruct (FloatOps.Prim2SF y) as [sy|sy| |sy my ey];
    try reflexivity; rewrite (xorb_comm sx sy); try reflexivity.
  rewrite (Pos.mul_comm mx my), (Z.add_comm ex ey). reflexivity.
Qed.

Lemma mul_finite_zero (x z : float) :
  is_finite x = true -> is_zero z = true -> is_zero (PrimFloat.mul x z) = true.
Proof.
  unfold is_finite, is_zero. rewrite FloatAxioms.mul_spec.
  destruct (FloatOps.Prim2SF x); destruct (FloatOps.Prim2SF z);
    try discriminate; reflexivity.
Qed.

Lemma mul_zero_finite (z x : float) :
  is_zero z = true -> is_finite x = true -> is_zero (PrimFloat.mul z x) = true.
Proof.
  intros Hz Hx. rewrite mul_comm. apply mul_finite_zero; assumption.
Qed.

Lemma div_zero_finite (z x : float) :
  is_zero z = true -> is_finite x = true -> is_zero x = false ->
  is_zero (PrimFloat.div z x) = true.
Proof.
  unfold is_zero, is_finite. rewrite FloatAxioms.div_spec.
  destruct (FloatOps.Prim2SF z); destruct (FloatOps.Prim2SF x);
    try discriminate; reflexivity.
Qed.

Lemma sub_zero_zero (x y : float) :
  is_zero x = true -> is_zero y = true -> is_zero (PrimFloat.sub x y) = true.
Proof.
  unfold is_zero. rewrite FloatAxioms.sub_spec.
  destruct (FloatOps.Prim2SF x) as [[|]| | |];
    destruct (FloatOps.Prim2SF y) as [[|]| | |];
    try discriminate; reflexivity.
Qed.

Lemma is_zero_opp (x : float) :
  is_zero x = true -> is_zero (PrimFloat.opp x) = true.
Proof.
  unfold is_zero. rewrite FloatAxioms.opp_spec.
  destruct (FloatOps.Prim2SF x); try discriminate; reflexivity.
Qed.

(** [0.0 + z] is [0.0] for either zero [z]. *)
Lemma add_zero_zero (z : float) :
  is_zero z = true -> PrimFloat.add PrimFloat.zero z = PrimFloat.zero.
Proof.
  unfold is_zero. intros Hz. apply FloatAxioms.Prim2SF_inj.
  rewrite FloatAxioms.add_spec, zero_spec.
  destruct (FloatOps.Prim2SF z) as [[|]| | |]; try discriminate; reflexivity.
Qed.

(** [x + 0.0] is [x], except for [x = -0.0], where it is [0.0]. *)
Lemma add_zero_r (x : float) :
  x <> neg_zero -> PrimFloat.add x PrimFloat.zero = x.
Proof.
  intros Hx. apply FloatAxioms.Prim2SF_inj.
  rewrite FloatAxioms.add_spec, zero_spec.
  destruct (FloatOps.Prim2SF x) as [[|]|s| |s m e] eqn:Hs; try reflexivity.
  exfalso. apply Hx. apply FloatAxioms.Prim2SF_inj. rewrite Hs. reflexivity.
Qed.

Lemma at_finite (a : list float) (i : nat) :
  all_finite a = true -> is_finite a.[i] = true.
Proof.
  intros Ha. unfold at_.
  destruct (Nat.lt_ge_cases i (length a)) as [Hlt|Hge].
  - unfold all_finite in Ha. rewrite forallb_forall in Ha.
    apply Ha, nth_In, Hlt.
  - rewrite nth_overflow by exact Hge. reflexivity.
Qed.

Lemma at_zero (a : list float) (i : nat) :
  forallb is_zero a = true -> is_zero a.[i] = true.
Proof.
  intros Ha. unfold at_.
  destruct (Nat.lt_ge_cases i (length a)) as [Hlt|Hge].
  - rewrite forallb_forall in Ha. apply Ha, nth_In, Hlt.
  - rewrite nth_overflow by exact Hge. reflexivity.
Qed.

(** *** Comparisons *)

Lemma SFcompare_antisym (x y : SpecFloat.spec_float) :
  SpecFloat.SFcompare y x = option_map CompOpp (SpecFloat.SFcompare x y).
Proof.
  destruct x as [sx|sx| |sx mx ex]; destruct y as [sy|sy| |sy my ey];
    cbn [SpecFloat.SFcompare option_map];
    try reflexivity;
    try (destruct sx; reflexivity); try (destruct sy; reflexivity);
    try (destruct sx, sy; reflexivity).
  destruct sx, sy; try reflexivity.
  - rewrite (Z.compare_antisym ey ex).
    destruct (ey ?= ex)%Z; cbn [CompOpp]; try reflexivity.
    change (Pos.compare_cont Eq my mx) with (Pos.compare my mx).
    change (Pos.compare_cont Eq mx my) with (Pos.compare mx my).
    rewrite (Pos.compare_antisym my mx).
    destruct (my ?= mx)%positive; reflexivity.
  - rewrite (Z.compare_antisym ey ex).
    destruct (ey ?= ex)%Z; cbn [CompOpp]; try reflexivity.
    change (Pos.compare_cont Eq my mx) with (Pos.compare my mx).
    change (Pos.compare_cont Eq mx my) with (Pos.compare mx my).
    rewrite (Pos.compare_antisym my mx).
    destruct (my ?= mx)%positive; reflexivity.
Qed.

(** Of two numbers (not NaN), when the one is not below the other, the
    other is at most the one. *)
Lemma leb_of_not_ltb (x y : float) :
  PrimFloat.eqb x x = true -> PrimFloat.eqb y y = true ->
  PrimFloat.ltb y x = false -> PrimFloat.leb x y = true.
Proof.
  rewrite !FloatAxioms.ltb_spec, !FloatAxioms.eqb_spec, FloatAxioms.leb_spec.
  unfold SpecFloat.SFltb, SpecFloat.SFeqb, SpecFloat.SFleb.
  rewrite (SFcompare_antisym (FloatOps.Prim2SF x) (FloatOps.Prim2SF y)).
  destruct (FloatOps.Prim2SF x) as [sx|sx| |sx mx ex];
    destruct (FloatOps.Prim2SF y) as [sy|sy| |sy my ey];
    try discriminate; intros _ _;
    destruct (SpecFloat.SFcompare _ _) as [[| |]|] eqn:Hc;
    cbn [option_map CompOpp]; try congruence; discriminate.
Qed.

(** What is above zero is a number. *)
Lemma ltb_zero_number (r : float) :
  PrimFloat.ltb PrimFloat.zero r = true -> PrimFloat.eqb r r = true.
Proof.
  rewrite FloatAxioms.ltb_spec, FloatAxioms.eqb_spec, zero_spec.
  unfold SpecFloat.SFltb, SpecFloat.SFeqb, SpecFloat.SFcompare.
  destruct (FloatOps.Prim2SF r) as [s|[|]| |[|] m e]; try discriminate;
    intros _; try reflexivity.
  rewrite Z.compare_refl, Pos.compare_cont_refl. reflexivity.
Qed.

Lemma thousandth_spec :
  exists m e, FloatOps.Prim2SF (float_lit 1 (-3)) = SpecFloat.S754_finite false m e.
Proof. eexists _, _. vm_compute. reflexivity. Qed.

(** [0.001 < t] excludes [0 < - t]. *)
Lemma ltb_thousandth_opp (t : float) :
  PrimFloat.ltb (float_lit 1 (-3)) t = true ->
  PrimFloat.ltb PrimFloat.zero (PrimFloat.opp t) = false.
Proof.
  destruct thousandth_spec as (m0 & e0 & H0).
  rewrite !FloatAxioms.ltb_spec, FloatAxioms.opp_spec, zero_spec, H0.
  unfold SpecFloat.SFltb, SpecFloat.SFcompare, SpecFloat.SFopp.
  destruct (FloatOps.Prim2SF t) as [s|[|]| |[|] m e]; try discriminate;
    intros _; reflexivity.
Qed.

(** *** Square roots *)











(** *** Sums of zeros *)

(** A sum of products of a finite factor and a zero, from [0.0], is [0.0]. *)
Lemma fold_left_zero_terms (f g : nat -> float) (l : list nat) :
  (forall k, In k l -> is_finite (f k) = true /\ is_zero (g k) = true) ->
  fold_left (fun acc k => d_add acc (d_mul (f k) (g k))) l d_zero = d_zero.
Proof.
  induction l as [|k l IH]; intros Hfg; cbn [fold_left]; [reflexivity|].
  destruct (Hfg k (or_introl eq_refl)) as [Hf Hg].
  cbn [d_add d_mul d_zero Scalar_float] in *.
  rewrite add_zero_zero by (apply mul_finite_zero; assumption).
  apply IH. intros k' Hk'. apply Hfg. right. exact Hk'.
Qed.

(** A finite matrix times a vector of zeros. *)
Lemma matrix_multiply_zero_vector (X v : list float) (n : nat) :
  all_finite X = true ->
  (forall k, (k < n)%nat -> is_zero v.[k] = true) ->
  matrix_multiply 4 n 1 X v = [d_zero; d_zero; d_zero; d_zero].
Proof.
  intros HX Hv. unfold matrix_multiply. cbn [seq flat_map map app].
  rewrite !(fold_left_zero_terms (fun k => X.[_ + k]) (fun k => v.[1 * k + 0]));
    [reflexivity|..];
    intros k Hk; apply in_seq in Hk;
    (split; [apply at_finite, HX|]);
    rewrite Nat.mul_1_l, Nat.add_0_r; apply Hv; lia.
Qed.

Lemma zero_norm :
  vector_norm 3 [d_zero; d_zero; d_zero; d_zero] = (d_zero : float).
Proof. vm_compute. reflexivity. Qed.

Lemma at_zeros_after_write (rx : list float) (i : nat) :
  (4 <= i < 8)%nat ->
  (write_from 4 [d_zero; d_zero; d_zero; d_zero] rx).[i] = d_zero.
Proof.
  intros Hi. unfold at_.
  destruct (Nat.lt_ge_cases i (length rx)) as [Hlt|Hge].
  - rewrite nth_write_from_inside by (cbn [length]; lia).
    destruct i as [|[|[|[|[|[|[|[|i]]]]]]]]; try lia; reflexivity.
  - apply nth_overflow. rewrite write_from_length. exact Hge.
Qed.

Lemma count_up_exact :
  forallb (fun n => PrimFloat.Leibniz.eqb (count_up n) (float_of_Z (Z.of_nat n)))
          (seq 0 256) = true.
Proof. vm_compute. reflexivity. Qed.

(** ** binary64: the DOP values *)

Section DopsOnDoubles.
Variable E : Externals float.
Local Open Scope double_scope.

End DopsOnDoubles.

(** ** binary64: the accuracy of a converged solve *)

Section Accuracy.
Variable E : Externals float.
Local Open Scope double_scope.

Abbreviation meas := (navigation_measurement_t float).
Abbreviation mem := (solver_mem float).

(** A loop left by [break] ends with the step taken from the state that
    [k] steps reach, for some [k] below the number of iterations allowed. *)
Lemma pvt_iter_loop_break_step (fuel : nat) (n : nat) (nav : list meas) :
  forall m m' : mem,
  pvt_iter_loop E fuel m n nav = (true, m') ->
  exists k r, (k < fuel)%nat /\
    pvt_solve E (solve_steps E k m n nav) n nav = (r, m') /\
    (r >? d_zero) = true.
Proof.
  induction fuel as [|fuel IH]; intros m m'; cbn [pvt_iter_loop].
  - discriminate.
  - destruct (pvt_solve E m n nav) as [r m1] eqn:Hs.
    destruct (d_lt d_zero r) eqn:Hr.
    + intros Heq; inversion Heq; subst. exists 0%nat, r.
      cbn [solve_steps]. repeat split; [lia | exact Hs | exact Hr].
    + intros Hloop. destruct (IH _ _ Hloop) as (k & r' & Hk & Hs' & Hr').
      exists (S k), r'. cbn [solve_steps]. rewrite Hs. cbn [snd].
      repeat split; [lia | exact Hs' | exact Hr'].
Qed.

(** X18: on binary64, when pvt_iter reports convergence, the loop ended
    with the step taken after some [k < PVT_MAX_ITERATIONS] earlier steps;
    that step returned the norm of its position correction, a number
    greater than 0 and at most 0.001 (metres), and the state and the
    matrix H that pvt_iter leaves are the ones that step left. *)
Theorem pvt_iter_converged_accuracy (m : mem) (n : nat) (nav : list meas) :
  fst (pvt_iter E m n nav) = 0%Z ->
  exists k r ml,
    (k < PVT_MAX_ITERATIONS E)%nat /\
    let mp := solve_steps E k (iter_start m) n nav in
    pvt_solve E mp n nav = (r, ml) /\
    rx_state (snd (pvt_iter E m n nav)) = rx_state ml /\
    Hmat (snd (pvt_iter E m n nav)) = Hmat ml /\
    r = vector_norm 3 (step_correction E (rx_state mp) n nav) /\
    PrimFloat.ltb d_zero r = true /\
    PrimFloat.leb r (d_lit 1 (-3)) = true.
Proof.
  unfold pvt_iter. fold (iter_start m).
  destruct (pvt_iter_loop E _ _ n nav) as [[|] m1] eqn:Hloop;
    cbn [fst snd rx_state Hmat]; [|discriminate].
  intros _. apply pvt_iter_loop_break_step in Hloop as (k & r & Hk & Hs & Hr).
  exists k, r, m1. split; [exact Hk|]. cbv zeta.
  split; [exact Hs|]. split; [reflexivity|]. split; [reflexivity|].
  cbn [d_lt d_zero Scalar_float] in Hr.
  unfold pvt_solve in Hs.
  destruct (d_lt (d_lit 1 (-3)) _) eqn:Hgt in Hs; inversion Hs; subst.
  - cbn [d_lt d_lit d_opp Scalar_float] in Hgt, Hr.
    apply ltb_thousandth_opp in Hgt. congruence.
  - split; [reflexivity|]. split; [exact Hr|].
    apply leb_of_not_ltb.
    + apply ltb_zero_number, Hr.
    + vm_compute. reflexivity.
    + exact Hgt.
Qed.
End Accuracy.

(** ** binary64: measurements that fit the state exactly *)

Section ExactFit.
Variable E : Externals float.
Local Open Scope double_scope.

Abbreviation meas := (navigation_measurement_t float).
Abbreviation mem := (solver_mem float).

Lemma step_X_position_only (rx1 rx2 : list float) (n : nat) (nav : list meas) :
  (forall i, (i < 3)%nat -> rx1.[i] = rx2.[i]) ->
  step_X E rx1 n nav = step_X E rx2 n nav.
Proof.
  intros Hat. unfold step_X, step_H.
  rewrite (step_G_position_only E _ _ n nav Hat). reflexivity.
Qed.

(** The position entries after a step whose correction is zero. *)
Lemma position_after_zero_correction (rx vel : list float) (c : float) (i : nat) :
  (forall i, (i < 3)%nat -> rx.[i] <> neg_zero) ->
  (i < 3)%nat ->
  (write_from 4 vel
     (upd 3 c (upd 2 (rx.[2] + d_zero) (upd 1 (rx.[1] + d_zero)
                 (upd 0 (rx.[0] + d_zero) rx))))).[i] = rx.[i].
Proof.
  intros Hnz Hi.
  cbn [d_add d_zero Scalar_float].
  rewrite !add_zero_r by (apply Hnz; lia).
  unfold at_ at 2 3 4. rewrite !upd_same_value.
  unfold at_. rewrite nth_write_from_before by lia.
  apply nth_upd_other. lia.
Qed.

Lemma exact_fit_step (m : mem) (n : nat) (nav : list meas) :
  (forall i, (i < 3)%nat -> (rx_state m).[i] <> neg_zero) ->
  exact_fit E (rx_state m) n nav = true ->
  all_finite (step_X E (rx_state m) n nav) = true ->
  fst (pvt_solve E m n nav) = d_zero /\
  forall i, (i < 3)%nat ->
    (rx_state (snd (pvt_solve E m n nav))).[i] = (rx_state m).[i].
Proof.
  intros Hnz Hfit HX.
  assert (Hcorr : step_correction E (rx_state m) n nav
                  = [d_zero; d_zero; d_zero; d_zero]).
  { unfold step_correction. apply matrix_multiply_zero_vector; [exact HX|].
    intros k _. apply at_zero. exact Hfit. }
  unfold pvt_solve. rewrite Hcorr, zero_norm.
  assert (Hlt : d_lt (d_lit 1 (-3)) (d_zero : float) = false)
    by (vm_compute; reflexivity).
  rewrite Hlt. cbn [fst snd rx_state]. split; [reflexivity|].
  intros i Hi. unfold at_ at 2 3 4 5. cbn [nth].
  apply position_after_zero_correction; assumption.
Qed.

Lemma exact_fit_loop (n : nat) (nav : list meas) (fuel : nat) :
  forall m : mem,
  (forall i, (i < 3)%nat -> (rx_state m).[i] <> neg_zero) ->
  exact_fit E (rx_state m) n nav = true ->
  all_finite (step_X E (rx_state m) n nav) = true ->
  fst (pvt_iter_loop E fuel m n nav) = false.
Proof.
  induction fuel as [|fuel IH]; intros m Hnz Hfit HX; cbn [pvt_iter_loop];
    [reflexivity|].
  destruct (exact_fit_step m n nav Hnz Hfit HX) as [Hr Hpos].
  destruct (pvt_solve E m n nav) as [r m1]. cbn [fst snd] in *. subst r.
  assert (Hlt : d_lt (d_zero : float) d_zero = false) by (vm_compute; reflexivity).
  rewrite Hlt. apply IH.
  - intros i Hi. rewrite (Hpos i Hi). apply Hnz, Hi.
  - unfold exact_fit. rewrite (step_omp_position_only E _ _ n nav Hpos).
    exact Hfit.
  - rewrite (step_X_position_only _ _ n nav Hpos). exact HX.
Qed.

(** X17: on binary64, measurements that fit the static state exactly are
    reported as a failure to converge.  When every observed minus predicted
    pseudorange computed from the state is zero, the matrix [X = H G^T] of
    the step has finite entries and no position entry of the state is
    [-0.0], the step computes a zero correction, returns [0.0] and leaves
    the position where it was, pvt_iter returns -1 and calc_PVT (4 to
    MAX_CHANNELS measurements) returns -6. *)
Theorem exact_fit_never_converges
  (n : nat) (nav : list meas) (disable_raim : bool) (w : pvt_world float) :
  (4 <= n)%nat -> (n <= MAX_CHANNELS E)%nat ->
  (forall i, (i < 3)%nat -> (w_rx_state w).[i] <> neg_zero) ->
  exact_fit E (w_rx_state w) n nav = true ->
  all_finite (step_X E (w_rx_state w) n nav) = true ->
  fst (pvt_solve E (entry_mem n w) n nav) = d_zero /\
  (forall i, (i < 3)%nat ->
     (rx_state (snd (pvt_solve E (entry_mem n w) n nav))).[i]
     = (w_rx_state w).[i]) /\
  fst (pvt_iter E (entry_mem n w) n nav) = (-1)%Z /\
  exists w', calc_PVT E n nav disable_raim w = Ret ((-6)%Z, w').
Proof.
  intros Hn Hmax Hnz Hfit HX.
  assert (Hstart : forall i, (i < 3)%nat ->
            (write_from 4 [d_zero; d_zero; d_zero; d_zero] (w_rx_state w)).[i]
            = (w_rx_state w).[i]).
  { intros i Hi. unfold at_. rewrite nth_write_from_before by lia. reflexivity. }
  assert (Hiter : forall nav',
            same_prefix n nav' nav ->
            fst (pvt_iter E (entry_mem n w) n nav') = (-1)%Z).
  { intros nav' Hp. rewrite (pvt_iter_ext E _ _ _ _ Hp).
    unfold pvt_iter.
    match goal with |- context [pvt_iter_loop E ?f ?m0 n nav] =>
      pose proof (exact_fit_loop n nav f m0) as Hloop;
      destruct (pvt_iter_loop E f m0 n nav) as [broke m1] end.
    cbn [fst rx_state] in Hloop.
    change (rx_state (entry_mem n w)) with (w_rx_state w) in Hloop.
    rewrite Hloop; [reflexivity|..].
    - intros i Hi. rewrite (Hstart i Hi). apply Hnz, Hi.
    - unfold exact_fit. rewrite (step_omp_position_only E _ _ n nav Hstart).
      exact Hfit.
    - rewrite (step_X_position_only _ _ n nav Hstart). exact HX. }
  split; [apply (exact_fit_step (entry_mem n w) n nav); assumption|].
  split; [apply (exact_fit_step (entry_mem n w) n nav); assumption|].
  split; [apply Hiter; reflexivity|].
  unfold calc_PVT. destruct (Nat.ltb_spec n 4); [lia|].
  rewrite pvt_solve_raim_branches. cbv zeta.
  destruct (Nat.ltb_spec (MAX_CHANNELS E) n); [lia|].
  rewrite (Hiter (firstn n nav)) by apply same_prefix_firstn.
  cbn [Z.eqb]. unfold calc_PVT_finish. cbn [Z.ltb Z.compare Z.sub].
  eexists. reflexivity.
Qed.
End ExactFit.

(** ** binary64: the normal matrix *)

Section NormalMatrix.
Variable E : Externals float.
Local Open Scope double_scope.

(** X20: on binary64 the matrix [G^T G] that pvt_solve hands to
    matrix_inverse is symmetric, rounding included, and for up to 255
    measurements (the range of the u8 [n_used]) its clock diagonal entry
    [3][3] is exactly the number of measurements. *)
Theorem normal_matrix_symmetric (rx : list float) (n : nat)
  (nav : list (navigation_measurement_t float)) :
  (forall i j, (i < 4)%nat -> (j < 4)%nat ->
     (step_GtG E rx n nav).[(4 * i + j)] = (step_GtG E rx n nav).[(4 * j + i)]) /\
  ((n <= 255)%nat -> (step_GtG E rx n nav).[15] = float_of_Z (Z.of_nat n)).
Proof.
  split.
  - intros i j Hi Hj. rewrite !(step_GtG_entry E) by assumption.
    apply fold_left_ext_in. intros acc k _.
    cbn [d_add d_mul Scalar_float]. rewrite mul_comm. reflexivity.
  - intros Hn. change 15%nat with (4 * 3 + 3)%nat.
    rewrite (step_GtG_entry E) by lia.
    rewrite (fold_left_ext_in _ (fun acc (_ : nat) => acc + d_one * d_one)).
    + fold (count_up n). pose proof count_up_exact as Hc.
      rewrite forallb_forall in Hc.
      apply FloatAxioms.Leibniz.eqb_spec, Hc, in_seq. lia.
    + intros acc k Hk. apply in_seq in Hk.
      rewrite (step_G_entry E) by lia. reflexivity.
Qed.
End NormalMatrix.

(** ** binary64: a sky at rest *)

Section StaticSky.
Variable E : Externals float.
Local Open Scope double_scope.

Abbreviation meas := (navigation_measurement_t float).
Abbreviation mem := (solver_mem float).

(** The velocity solution of a sky at rest. *)
Lemma static_velocity (n : nat) (nav : list meas) (G X : list float) :
  is_finite (GPS_C E) = true ->
  is_finite (GPS_L1_HZ E) = true -> is_zero (GPS_L1_HZ E) = false ->
  static_sky n nav = true ->
  all_finite G = true -> all_finite X = true ->
  vel_solve E n nav G X = [d_zero; d_zero; d_zero; d_zero].
Proof.
  intros HC HL HL0 Hstatic HG HX.
  unfold vel_solve. apply matrix_multiply_zero_vector; [exact HX|].
  intros k Hk. unfold at_ at 1. rewrite nth_map_seq by lia.
  unfold static_sky in Hstatic. rewrite forallb_forall in Hstatic.
  assert (Hin : In k (seq 0 n)) by (apply in_seq; lia).
  specialize (Hstatic k Hin). cbv zeta in Hstatic.
  apply andb_prop in Hstatic as [Hd Hv]. rewrite forallb_forall in Hv.
  apply sub_zero_zero.
  - apply div_zero_finite; [|exact HL|exact HL0].
    apply mul_zero_finite; [|exact HC]. apply is_zero_opp, Hd.
  - apply is_zero_opp. unfold vector_dot.
    rewrite (fold_left_zero_terms (fun i => (skipn (4 * k) G).[i])
                                  (fun i => (sat_vel (nth k nav meas_zero)).[i]));
      [reflexivity|].
    intros i Hi. split.
    + apply at_finite. unfold all_finite in *. rewrite forallb_forall in *.
      intros x Hx. apply HG.
      rewrite <- (firstn_skipn (4 * k) G). apply in_or_app. right. exact Hx.
    + apply Hv, Hi.
Qed.

(** X21: on binary64, when every measurement has zero Doppler and a
    satellite at rest, GPS_C is finite, GPS_L1_HZ is finite and not zero,
    and the matrices [G] and [X = H G^T] have finite entries at the states
    the loop can reach, a converged pvt_iter leaves [0.0] in the velocity
    and clock-drift entries rx_state[4..7]. *)
Theorem static_sky_zero_velocity (m : mem) (n : nat) (nav : list meas) :
  is_finite (GPS_C E) = true ->
  is_finite (GPS_L1_HZ E) = true -> is_zero (GPS_L1_HZ E) = false ->
  static_sky n nav = true ->
  finite_steps E m n nav = true ->
  fst (pvt_iter E m n nav) = 0%Z ->
  forall i, (4 <= i < 8)%nat -> (rx_state (snd (pvt_iter E m n nav))).[i] = d_zero.
Proof.
  intros HC HL HL0 Hstatic Hfin. unfold pvt_iter. fold (iter_start m).
  destruct (pvt_iter_loop E _ _ n nav) as [[|] m1] eqn:Hloop;
    cbn [fst snd rx_state]; [|discriminate].
  intros _ i Hi.
  apply pvt_iter_loop_break_step in Hloop as (k & r & Hk & Hs & Hr).
  unfold finite_steps in Hfin. rewrite forallb_forall in Hfin.
  assert (Hin : In k (seq 0 (PVT_MAX_ITERATIONS E))) by (apply in_seq; lia).
  specialize (Hfin k Hin). cbv zeta in Hfin.
  apply andb_prop in Hfin as [HG HX].
  unfold pvt_solve in Hs.
  rewrite (static_velocity n nav _ _ HC HL HL0 Hstatic HG HX) in Hs.
  destruct (d_lt (d_lit 1 (-3)) _) eqn:Hgt in Hs; inversion Hs; subst.
  - cbn [d_lt d_lit d_opp d_zero Scalar_float] in Hgt, Hr.
    apply ltb_thousandth_opp in Hgt. congruence.
  - cbn [rx_state]. apply at_zeros_after_write. exact Hi.
Qed.
End StaticSky.

(** ** Concrete runs *)

(** C1, counterexample: four measurements, RAIM enabled, the solve
    converges and calc_PVT returns 2; the residual test was invoked (and
    passed), as the log shows. *)
Lemma residual_test_runs_on_four_measurements :
  converged fenv 4 sky6 world_fresh /\
  exists w',
    calc_PVT fenv 4 sky6 false world_fresh = Ret (2%Z, w') /\
    w_log w' = [Ev_pvt_iter 4 (firstn 4 sky6) 0%Z; Ev_residual_test 4 true] /\
    residual_test_invoked (w_log w').
Proof.
  split; [vm_compute; reflexivity|].
  exists (world_of (calc_PVT fenv 4 sky6 false world_fresh) world_fresh).
  split; [vm_compute; reflexivity|].
  split; [vm_compute; reflexivity|].
  exists 4%nat, true. vm_compute. right. left. reflexivity.
Qed.

(** C1 (amended), on the same four measurements. *)
Lemma exactly_four_measurements_witness :
  let m1 := snd (first_solve fenv 4 sky6 world_fresh) in
  let m2 := snd (first_test fenv 4 sky6 world_fresh) in
  (pvt_solve_raim fenv (entry_mem 4 world_fresh) 4 sky6 true
   = Ret (2%Z, None, m1) /\
   log m1 = [Ev_pvt_iter 4 (firstn 4 sky6) 0%Z]) /\
  (log m2 = [Ev_pvt_iter 4 (firstn 4 sky6) 0%Z; Ev_residual_test 4 true] /\
   pvt_solve_raim fenv (entry_mem 4 world_fresh) 4 sky6 false
   = Ret (2%Z, None, m2)) /\
  exists w', calc_PVT fenv 4 sky6 false world_fresh = Ret (2%Z, w').
Proof.
  assert (Hmax : (4 <= MAX_CHANNELS fenv)%nat) by (vm_compute; lia).
  assert (Hconv : converged fenv 4 sky6 world_fresh) by (vm_compute; reflexivity).
  assert (Hpass : test_passed fenv 4 sky6 world_fresh = true)
    by (vm_compute; reflexivity).
  assert (Hq : quality fenv 4 sky6 (snd (first_solve fenv 4 sky6 world_fresh))
               = 0%Z) by (vm_compute; reflexivity).
  destruct (exactly_four_measurements fenv sky6 world_fresh Hmax Hconv)
    as (Hoff & (Hlog & r & Hon & Hr) & Hcall).
  rewrite Hpass in Hlog. rewrite (Hr Hpass) in Hon.
  split; [exact Hoff|]. split; [split; [exact Hlog | exact Hon]|].
  destruct (Hcall false (or_intror Hpass)) as (w' & Hw & _).
  rewrite Hq in Hw. exists w'. exact Hw.
Defined.

(** C2, counterexample: six measurements taken 2000 km above the surface,
    one of them 100 km off.  The solve converges, its residual test fails,
    all six leave-one-out subsets converge and exactly one (excluding
    measurement 2, satellite 3) passes, the subset is solved again and
    converges; calc_PVT nevertheless returns -2, not 1, and reports a
    measurement count of 0, not 5, because the quality filter rejects the
    altitude of the repaired solution. *)
Lemma repaired_solution_rejected_by_quality_filter :
  let m2 := snd (first_test fenv 6 sky6_high_biased world_fresh) in
  let search := leave_one_out fenv 6 sky6_high_biased m2 [] in
  let subset := upd 2 (nth 5 sky6_high_biased meas_zero) sky6_high_biased in
  converged fenv 6 sky6_high_biased world_fresh /\
  test_passed fenv 6 sky6_high_biased world_fresh = false /\
  snd search = Some [2%nat] /\
  fst (pvt_iter fenv (fst search) 5 subset) = 0%Z /\
  exists w',
    calc_PVT fenv 6 sky6_high_biased false world_fresh = Ret ((-2)%Z, w') /\
    n_used (w_soln w') = 0%Z /\ valid (w_soln w') = 0%Z.
Proof.
  intros m2 search subset.
  split; [vm_compute; reflexivity|].
  split; [vm_compute; reflexivity|].
  split; [vm_compute; reflexivity|].
  split; [vm_compute; reflexivity|].
  exists (world_of (calc_PVT fenv 6 sky6_high_biased false world_fresh)
                   world_fresh).
  split; [vm_compute; reflexivity|].
  split; vm_compute; reflexivity.
Qed.

(** C2 (amended), on six measurements taken at the surface, one of them
    100 km off: the repair excludes satellite 3 and calc_PVT returns 1 with
    a count of 5. *)
Lemma repair_search_outcome_witness :
  pvt_solve_raim fenv (entry_mem 6 world_fresh) 6 sky6_biased false
  = Ret (1%Z, Some {| sat := 3; code := 0 |},
         snd (pvt_iter fenv
                (fst (leave_one_out fenv 6 sky6_biased
                        (snd (first_test fenv 6 sky6_biased world_fresh)) []))
                5 (upd 2 (nth 5 sky6_biased meas_zero) sky6_biased))) /\
  exists w',
    calc_PVT fenv 6 sky6_biased false world_fresh = Ret (1%Z, w') /\
    n_used (w_soln w') = 5%Z /\ valid (w_soln w') = 1%Z.
Proof.
  pose proof (repair_search_outcome fenv 6 sky6_biased world_fresh
                ltac:(lia) ltac:(vm_compute; lia) ltac:(lia)
                ltac:(vm_compute; lia)
                ltac:(vm_compute; reflexivity)
                ltac:(vm_compute; reflexivity)) as T.
  cbv zeta in T.
  change (firstn 6 sky6_biased) with sky6_biased in T.
  assert (Hs : snd (leave_one_out fenv 6 sky6_biased
                      (snd (first_test fenv 6 sky6_biased world_fresh)) [])
               = Some [2%nat]) by (vm_compute; reflexivity).
  rewrite Hs in T.
  destruct T as (_ & _ & Hres).
  destruct Hres as (Hraim & w' & Hcall & Hok); [vm_compute; reflexivity|].
  assert (Hq : quality fenv (Z.of_nat 6 - 1) sky6_biased
                 (snd (pvt_iter fenv
                    (fst (leave_one_out fenv 6 sky6_biased
                       (snd (first_test fenv 6 sky6_biased world_fresh)) []))
                    (6 - 1) (upd 2 (nth (6 - 1) sky6_biased meas_zero)
                                 sky6_biased)))
               = 0%Z) by (vm_compute; reflexivity).
  split; [exact Hraim|].
  exists w'. rewrite Hq in Hcall. split; [exact Hcall|].
  destruct (Hok Hq) as (Hn & Hv & _). split; [exact Hn | exact Hv].
Defined.

(** C3, counterexample: a call with three measurements returns -7, a
    negative code, and neither zeroes the output solution nor clears the
    position part of the persistent state. *)
Lemma negative_return_leaves_solution_and_state :
  exists w',
    calc_PVT fenv 3 sky6 false world_stale = Ret ((-7)%Z, w') /\
    w_soln w' <> soln_zero /\
    (w_rx_state w').[0] <> d_zero.
Proof.
  exists world_stale. split; [reflexivity|]. split.
  - intros Heq. apply (f_equal (@valid _)) in Heq. vm_compute in Heq.
    discriminate.
  - intros Heq. apply (f_equal (fun x => PrimFloat.ltb d_zero x)) in Heq.
    vm_compute in Heq. discriminate.
Qed.

(** C3 (amended), on three calls.  Six measurements taken 2000 km above
    the surface: the quality filter rejects the altitude (-2), the solution
    is zeroed and the position cleared.  Five measurements of which one is
    100 km off: the residual test fails (-5), only [valid] and [n_used] are
    written, and the state keeps the position of the first solve, which is
    not zero.  Six measurements of which two are 100 km off: the repair
    fails (-4), only [valid] and [n_used] are written, and the state keeps
    the position pvt_solve_raim left, which is not zero. *)
Lemma calc_PVT_rejection_effects_witness :
  let w2 := world_of (calc_PVT fenv 6 sky6_high_biased false world_fresh)
                     world_fresh in
  let w5 := world_of (calc_PVT fenv 5 sky6_biased false world_fresh)
                     world_fresh in
  let w4 := world_of (calc_PVT fenv 6 sky6_two_biased false world_fresh)
                     world_fresh in
  (calc_PVT fenv 6 sky6_high_biased false world_fresh = Ret ((-2)%Z, w2) /\
   w_soln w2 = soln_zero /\
   forall i, (i < 3)%nat -> (w_rx_state w2).[i] = d_zero) /\
  (calc_PVT fenv 5 sky6_biased false world_fresh = Ret ((-5)%Z, w5) /\
   w_soln w5 = set_n_used 5 (set_valid 0 (w_soln world_fresh)) /\
   (converged fenv 5 sky6_biased world_fresh /\
    test_passed fenv 5 sky6_biased world_fresh = false /\
    w_rx_state w5 = rx_state (snd (first_solve fenv 5 sky6_biased world_fresh))) /\
   PrimFloat.ltb d_zero (w_rx_state w5).[0] = true) /\
  (calc_PVT fenv 6 sky6_two_biased false world_fresh = Ret ((-4)%Z, w4) /\
   w_soln w4 = set_n_used 6 (set_valid 0 (w_soln world_fresh)) /\
   (exists removed m1,
      pvt_solve_raim fenv (entry_mem 6 world_fresh) 6 sky6_two_biased false
      = Ret ((-1)%Z, removed, m1) /\
      w_rx_state w4 = rx_state m1) /\
   PrimFloat.ltb d_zero (w_rx_state w4).[0] = true).
Proof.
  intros w2 w5 w4.
  assert (Hrun2 : calc_PVT fenv 6 sky6_high_biased false world_fresh
                  = Ret ((-2)%Z, w2)) by (vm_compute; reflexivity).
  assert (Hrun5 : calc_PVT fenv 5 sky6_biased false world_fresh
                  = Ret ((-5)%Z, w5)) by (vm_compute; reflexivity).
  assert (Hrun4 : calc_PVT fenv 6 sky6_two_biased false world_fresh
                  = Ret ((-4)%Z, w4)) by (vm_compute; reflexivity).
  split; [|split].
  - split; [exact Hrun2|].
    destruct (calc_PVT_rejection_effects fenv 6 sky6_high_biased false
                world_fresh (-2)%Z w2 Hrun2) as (Hquality & _).
    apply Hquality. right. reflexivity.
  - split; [exact Hrun5|].
    destruct (calc_PVT_rejection_effects fenv 5 sky6_biased false
                world_fresh (-5)%Z w5 Hrun5) as (_ & _ & Hraim & Hfirst & _).
    split; [apply Hraim; right; reflexivity|].
    split; [apply Hfirst; reflexivity|].
    vm_compute. reflexivity.
  - split; [exact Hrun4|].
    destruct (calc_PVT_rejection_effects fenv 6 sky6_two_biased false
                world_fresh (-4)%Z w4 Hrun4) as (_ & _ & Hraim & _).
    destruct (Hraim (or_introl eq_refl)) as [Hsoln Hstate].
    split; [exact Hsoln|]. split; [exact Hstate|].
    vm_compute. reflexivity.
Defined.

(** C4, the failing input: four measurements that agree exactly with the
    zero state of a fresh process.  The first least-squares step returns
    0.0, a non-negative value (the correction is zero: pvt_solve takes the
    solution as converged and runs the velocity solution), yet pvt_iter
    keeps iterating, exhausts PVT_MAX_ITERATIONS and reports -1, and
    calc_PVT returns -6. *)
Lemma zero_correction_is_not_convergence :
  fst (pvt_solve fenv (entry_mem 4 world_fresh) 4 sky4_exact) = d_zero /\
  d_lt (fst (pvt_solve fenv (entry_mem 4 world_fresh) 4 sky4_exact)) d_zero
  = false /\
  fst (pvt_iter fenv (entry_mem 4 world_fresh) 4 sky4_exact) = (-1)%Z /\
  exists w',
    calc_PVT fenv 4 sky4_exact false world_fresh = Ret ((-6)%Z, w') /\
    w_log w' = [Ev_pvt_iter 4 sky4_exact (-1)%Z].
Proof.
  split; [vm_compute; reflexivity|].
  split; [vm_compute; reflexivity|].
  split; [vm_compute; reflexivity|].
  exists (world_of (calc_PVT fenv 4 sky4_exact false world_fresh) world_fresh).
  split; vm_compute; reflexivity.
Qed.

(** C5, on three measurements and a world that holds an earlier fix. *)
Lemma calc_PVT_too_few_measurements_witness :
  calc_PVT fenv 3 sky6 false world_stale = Ret ((-7)%Z, world_stale).
Proof.
  apply (calc_PVT_too_few_measurements fenv 3 sky6 false world_stale). lia.
Defined.

(** C6, on five measurements of which one is 100 km off. *)
Lemma calc_PVT_repair_impossible_witness :
  calc_PVT fenv 5 sky6_biased false world_fresh
  = Ret ((-5)%Z,
         {| w_rx_state := rx_state (snd (first_solve fenv 5 sky6_biased world_fresh));
            w_soln := set_n_used 5 (set_valid 0 (w_soln world_fresh));
            w_dops := w_dops world_fresh;
            w_log := w_log world_fresh
                     ++ [Ev_pvt_iter 5 (firstn 5 sky6_biased) 0%Z;
                         Ev_residual_test 5 false] |}).
Proof.
  apply (calc_PVT_repair_impossible fenv 5 sky6_biased world_fresh).
  - lia.
  - vm_compute. lia.
  - vm_compute. reflexivity.
  - vm_compute. reflexivity.
Defined.

(** C7, on a step taken from [mem_running], where the old position and the
    old clock bias are not zero.  The new position is the old one plus the
    correction and differs from the correction alone; the new clock bias is
    the correction and differs from the old bias plus the correction. *)
Lemma pvt_solve_state_update_witness :
  let m := mem_running in
  let correction := step_correction fenv (rx_state m) 6 sky6 in
  let rx' := rx_state (snd (pvt_solve fenv m 6 sky6)) in
  ((forall i, (i < 3)%nat -> rx'.[i] = d_add (rx_state m).[i] correction.[i]) /\
   rx'.[3] = correction.[3] /\
   (forall b, step_correction fenv (upd 3 b (rx_state m)) 6 sky6 = correction)) /\
  (PrimFloat.eqb rx'.[0] correction.[0] = false /\
   PrimFloat.eqb rx'.[1] correction.[1] = false /\
   PrimFloat.eqb rx'.[2] correction.[2] = false) /\
  PrimFloat.eqb (rx_state m).[3] d_zero = false /\
  PrimFloat.eqb rx'.[3] (d_add (rx_state m).[3] correction.[3]) = false.
Proof.
  intros m correction rx'.
  split.
  - apply (pvt_solve_state_update fenv mem_running 6 sky6). reflexivity.
  - split; [split; [|split]|split]; vm_compute; reflexivity.
Defined.



(** C9, counterexample: after a call with three measurements the caller's
    solution is still marked valid, although the return code is negative
    and fewer than 4 measurements were supplied. *)
Lemma stale_valid_flag_after_too_few_measurements :
  exists ret w',
    calc_PVT fenv 3 sky6 false world_stale = Ret (ret, w') /\
    valid (w_soln w') = 1%Z /\
    ~ (valid (w_soln w') = 1%Z <-> (0 <= ret)%Z /\ (4 <= 3)%nat).
Proof.
  exists (-7)%Z, world_stale. split; [reflexivity|].
  split; [reflexivity|].
  intros [Hvalid _]. destruct (Hvalid eq_refl) as [Hret _]. lia.
Qed.

(** C9 (amended), on six clean measurements and a world that holds an
    earlier fix. *)
Lemma calc_PVT_valid_flag_witness :
  let w' := world_of (calc_PVT fenv 6 sky6 false world_stale) world_stale in
  calc_PVT fenv 6 sky6 false world_stale = Ret (0%Z, w') /\
  (valid (w_soln w') = 1%Z <-> (0 <= 0)%Z).
Proof.
  intros w'.
  assert (Hrun : calc_PVT fenv 6 sky6 false world_stale = Ret (0%Z, w'))
    by (vm_compute; reflexivity).
  split; [exact Hrun|].
  destruct (calc_PVT_valid_flag fenv 6 sky6 false world_stale 0%Z w' Hrun)
    as (_ & Hiff & _).
  apply Hiff. lia.
Defined.

(** C10, counterexample: six measurements taken at the surface, one of
    them 100 km off, RAIM enabled.  The residual test ran (seven times),
    the repair succeeded, and the state and [omp] at the end of
    pvt_solve_raim are those the last least-squares step of the final solve
    left: the first 5 entries of [omp] are its raw observed-minus-predicted
    values, not adjusted by the clock bias, which would change every one of
    them. *)
Lemma omp_raw_after_repair :
  let m2 := snd (first_test fenv 6 sky6_biased world_fresh) in
  let search := leave_one_out fenv 6 sky6_biased m2 [] in
  let subset := upd 2 (nth 5 sky6_biased meas_zero) sky6_biased in
  let resolve := pvt_iter fenv (fst search) 5 subset in
  exists removed m',
    pvt_solve_raim fenv (entry_mem 6 world_fresh) 6 sky6_biased false
    = Ret (1%Z, removed, m') /\
    residual_test_invoked (log m') /\
    omp m' = omp (snd resolve) /\
    (exists mp r ml,
       pvt_solve fenv mp 5 subset = (r, ml) /\
       rx_state m' = rx_state ml /\ omp m' = omp ml /\
       firstn 5 (omp ml) = step_omp fenv (rx_state mp) 5 subset) /\
    forall i, (i < 5)%nat ->
      PrimFloat.eqb (d_sub (omp m').[i] (rx_state m').[3]) (omp m').[i] = false.
Proof.
  intros m2 search subset resolve.
  exists (Some {| sat := 3; code := 0 |}), (snd resolve).
  split; [vm_compute; reflexivity|].
  split.
  { exists 6%nat, false. vm_compute. right. left. reflexivity. }
  split; [reflexivity|].
  split.
  { destruct (pvt_iter_converged_omp fenv (fst search) 5 subset)
      as (mp & r & ml & Hstep & _ & Hrx & Homp & Hraw & _).
    - vm_compute. lia.
    - vm_compute. reflexivity.
    - exists mp, r, ml. auto. }
  intros i Hi.
  destruct i as [|[|[|[|[|i]]]]]; try lia; vm_compute; reflexivity.
Qed.

(** C10 (amended), on six clean measurements. *)
Lemma residual_test_adjusts_omp_witness :
  let m := entry_mem 6 world_fresh in
  let m1 := snd (pvt_iter fenv m 6 (firstn 6 sky6)) in
  let m' := snd (residual_test 6 m1) in
  pvt_solve_raim fenv m 6 sky6 false = Ret (0%Z, None, m') /\
  (exists mp r ml,
     pvt_solve fenv mp 6 sky6 = (r, ml) /\
     rx_state m1 = rx_state ml /\ omp m1 = omp ml /\
     firstn 6 (omp ml) = step_omp fenv (rx_state mp) 6 sky6) /\
  residual_test_invoked (log m') /\
  forall i, (i < 6)%nat -> (omp m').[i] = d_sub (omp m1).[i] (rx_state m1).[3].
Proof.
  intros m m1 m'.
  assert (Hrun : pvt_solve_raim fenv m 6 sky6 false = Ret (0%Z, None, m'))
    by (vm_compute; reflexivity).
  split; [exact Hrun|].
  destruct (residual_test_adjusts_omp fenv m 6 sky6) as (_ & _ & _ & Hcons).
  { vm_compute. lia. }
  destruct (Hcons 0%Z None m') as (Hraw & Htest & Hadj & _).
  - vm_compute. lia.
  - vm_compute. reflexivity.
  - exact Hrun.
  - split; [exact Hraw|]. split; [exact Htest|].
    apply Hadj. left. reflexivity.
Defined.

(** X2, on the six measurements taken 2000 km above the surface. *)
Lemma calc_PVT_return_codes_witness :
  pvt_code (-2)%Z.
Proof.
  apply (calc_PVT_return_codes fenv 6 sky6_high_biased false world_fresh (-2)%Z
           (world_of (calc_PVT fenv 6 sky6_high_biased false world_fresh)
                     world_fresh)).
  vm_compute. reflexivity.
Defined.

(** X3, on the six measurements of which one is 100 km off, from the
    memory the failed residual test left. *)
Lemma pvt_repair_is_leave_one_out_witness :
  let m := snd (first_test fenv 6 sky6_biased world_fresh) in
  let search := leave_one_out fenv 6 (firstn 6 sky6_biased) m [] in
  pvt_repair fenv m 6 sky6_biased
  = match snd search with
    | Some [b] =>
        let '(flag, m2) :=
          pvt_iter fenv (fst search) (6 - 1)
                   (upd b (nth (6 - 1) (firstn 6 sky6_biased) meas_zero)
                        (firstn 6 sky6_biased)) in
        if (flag =? 0)%Z
        then Ret (1%Z, Some (sid (nth b sky6_biased meas_zero)), m2)
        else Assert_failed
    | _ => Ret ((-1)%Z, None, fst search)
    end.
Proof.
  intros m.
  apply (pvt_repair_is_leave_one_out fenv m 6 sky6_biased).
  - lia.
  - vm_compute. lia.
Defined.

(** ** Concrete runs of whole calls *)

(** X5, on the first four of six measurements. *)
Lemma calc_PVT_reads_first_n_measurements_witness :
  calc_PVT fenv 4 sky6 false world_fresh
  = calc_PVT fenv 4 (firstn 4 sky6) false world_fresh.
Proof.
  apply (calc_PVT_reads_first_n_measurements fenv 4 sky6 (firstn 4 sky6)
           false world_fresh).
  vm_compute. reflexivity.
Defined.

(** X6, on six clean measurements. *)
Lemma raim_disabled_single_solve_witness :
  exists ret w',
    calc_PVT fenv 6 sky6 true world_fresh = Ret (ret, w') /\
    w_log w' = w_log world_fresh
               ++ [Ev_pvt_iter 6 (firstn 6 sky6)
                               (fst (first_solve fenv 6 sky6 world_fresh))] /\
    (ret = 2 \/ ret = -1 \/ ret = -2 \/ ret = -6)%Z /\
    (ret = (-6)%Z <-> fst (first_solve fenv 6 sky6 world_fresh) = (-1)%Z).
Proof.
  apply (raim_disabled_single_solve fenv 6 sky6 world_fresh).
  - lia.
  - vm_compute. lia.
Defined.

(** X8, on six measurements of which one is 100 km off: the repair runs. *)
Lemma calc_PVT_work_bound_witness :
  let w' := world_of (calc_PVT fenv 6 sky6_biased false world_fresh)
                     world_fresh in
  calc_PVT fenv 6 sky6_biased false world_fresh = Ret (1%Z, w') /\
  exists l, w_log w' = w_log world_fresh ++ l /\
            (count_iters l <= 6 + 2)%nat /\ (count_tests l <= 6 + 1)%nat.
Proof.
  intros w'.
  assert (Hrun : calc_PVT fenv 6 sky6_biased false world_fresh = Ret (1%Z, w'))
    by (vm_compute; reflexivity).
  split; [exact Hrun|].
  destruct (calc_PVT_work_bound fenv 6 sky6_biased false world_fresh 1%Z w' Hrun)
    as (l & Hl & Hi & Ht & _).
  exists l. split; [exact Hl|]. split; [exact Hi | exact Ht].
Defined.

(** X9, on six clean measurements. *)
Lemma calc_PVT_code_conditions_witness :
  let w' := world_of (calc_PVT fenv 6 sky6 false world_fresh) world_fresh in
  calc_PVT fenv 6 sky6 false world_fresh = Ret (0%Z, w') /\
  (5 <= 6)%nat /\ test_passed fenv 6 sky6 world_fresh = true.
Proof.
  intros w'.
  assert (Hrun : calc_PVT fenv 6 sky6 false world_fresh = Ret (0%Z, w'))
    by (vm_compute; reflexivity).
  split; [exact Hrun|].
  destruct (calc_PVT_code_conditions fenv 6 sky6 false world_fresh 0%Z w' Hrun)
    as (_ & _ & _ & Hzero & _).
  destruct (Hzero eq_refl) as (_ & Hn & Hpassed).
  split; [exact Hn | exact Hpassed].
Defined.

(** X10, on six clean measurements. *)
Lemma calc_PVT_success_solution_witness :
  let w' := world_of (calc_PVT fenv 6 sky6 false world_fresh) world_fresh in
  calc_PVT fenv 6 sky6 false world_fresh = Ret (0%Z, w') /\
  valid (w_soln w') = 1%Z /\ n_used (w_soln w') = 6%Z /\
  pos_ecef (w_soln w')
  = [(w_rx_state w').[0]; (w_rx_state w').[1]; (w_rx_state w').[2]].
Proof.
  intros w'.
  assert (Hrun : calc_PVT fenv 6 sky6 false world_fresh = Ret (0%Z, w'))
    by (vm_compute; reflexivity).
  split; [exact Hrun|].
  destruct (calc_PVT_success_solution fenv 6 sky6 false world_fresh 0%Z w' Hrun)
    as (Hv & Hn & Hp & _); [lia | lia |].
  split; [exact Hv|]. split; [exact Hn | exact Hp].
Defined.

(** X11, on six measurements taken 2000 km above the surface: the
    altitude is rejected, not the PDOP. *)
Lemma calc_PVT_quality_witness :
  let w' := world_of (calc_PVT fenv 6 sky6_high_biased false world_fresh)
                     world_fresh in
  calc_PVT fenv 6 sky6_high_biased false world_fresh = Ret ((-2)%Z, w') /\
  d_lt (d_lit 50 0) (pdop (w_dops w')) = false.
Proof.
  intros w'.
  assert (Hrun : calc_PVT fenv 6 sky6_high_biased false world_fresh
                 = Ret ((-2)%Z, w')) by (vm_compute; reflexivity).
  split; [exact Hrun|].
  destruct (calc_PVT_quality fenv 6 sky6_high_biased false world_fresh
              (-2)%Z w' Hrun) as (_ & _ & Hp & _).
  apply Hp. reflexivity.
Defined.

(** X12, on six measurements of which the third is 100 km off. *)
Lemma removed_sid_written_iff_repaired_witness :
  exists m',
    pvt_solve_raim fenv (entry_mem 6 world_fresh) 6 sky6_biased false
    = Ret (1%Z, Some {| sat := 3; code := 0 |}, m') /\
    exists b, (b < 6)%nat /\
              {| sat := 3; code := 0 |} = sid (nth b sky6_biased meas_zero).
Proof.
  destruct (pvt_solve_raim fenv (entry_mem 6 world_fresh) 6 sky6_biased false)
    as [[[r removed] m']|] eqn:Hrun; [|vm_compute in Hrun; discriminate].
  assert (Hr : (r, removed) = (1%Z, Some {| sat := 3; code := 0 |})).
  { assert (Hc : match pvt_solve_raim fenv (entry_mem 6 world_fresh) 6
                         sky6_biased false with
                 | Ret (r0, s0, _) => Some (r0, s0)
                 | Assert_failed => None
                 end = Some (1%Z, Some {| sat := 3; code := 0 |}))
      by (vm_compute; reflexivity).
    rewrite Hrun in Hc. inversion Hc. reflexivity. }
  inversion Hr; subst. exists m'. split; [reflexivity|].
  destruct (removed_sid_written_iff_repaired fenv _ _ _ _ _ _ _ Hrun) as [_ Hsid].
  apply Hsid. reflexivity.
Defined.

(** X13, from the zero state and from a state with other clock and
    velocity entries. *)
Lemma calc_PVT_depends_on_position_only_witness :
  let w2 := with_rx_state [d_zero; d_zero; d_zero; d_lit 5 0; d_lit 1 0;
                           d_lit 2 0; d_lit 3 0; d_lit 4 0] world_fresh in
  calc_PVT fenv 6 sky6 false world_fresh = calc_PVT fenv 6 sky6 false w2.
Proof.
  intros w2.
  apply (calc_PVT_depends_on_position_only fenv 6 sky6 false world_fresh w2);
    try reflexivity; try lia.
  - vm_compute. lia.
  - intros i Hi. destruct i as [|[|[|i]]]; try lia; reflexivity.
Defined.

(** X14, on a call rejected for its altitude followed by a call on six
    clean measurements. *)
Lemma call_after_rejection_starts_afresh_witness :
  let w' := world_of (calc_PVT fenv 6 sky6_high_biased false world_fresh)
                     world_fresh in
  calc_PVT fenv 6 sky6_high_biased false world_fresh = Ret ((-2)%Z, w') /\
  calc_PVT fenv 6 sky6 false w'
  = calc_PVT fenv 6 sky6 false (with_rx_state (repeat d_zero 8) w').
Proof.
  intros w'.
  assert (Hrun : calc_PVT fenv 6 sky6_high_biased false world_fresh
                 = Ret ((-2)%Z, w')) by (vm_compute; reflexivity).
  split; [exact Hrun|].
  apply (call_after_rejection_starts_afresh fenv 6 sky6_high_biased false
           world_fresh (-2)%Z w' 6 sky6 false Hrun).
  - right; left. reflexivity.
  - reflexivity.
  - lia.
  - vm_compute. lia.
Defined.

(** X15, on six clean measurements. *)
Lemma raim_switch_keeps_the_solution_witness :
  let w' := world_of (calc_PVT fenv 6 sky6 false world_fresh) world_fresh in
  calc_PVT fenv 6 sky6 false world_fresh = Ret (0%Z, w') /\
  exists w'',
    calc_PVT fenv 6 sky6 true world_fresh = Ret (2%Z, w'') /\
    w_soln w'' = w_soln w'.
Proof.
  intros w'.
  assert (Hrun : calc_PVT fenv 6 sky6 false world_fresh = Ret (0%Z, w'))
    by (vm_compute; reflexivity).
  split; [exact Hrun|].
  destruct (raim_switch_keeps_the_solution fenv 6 sky6 world_fresh 0%Z w' Hrun)
    as (w'' & Hoff & Hsoln & _); [left; reflexivity|].
  exists w''. split; [exact Hoff | exact Hsoln].
Defined.

Section ErrorStringRuns.
Local Open Scope string_scope.

(** X16, on six measurements taken 2000 km above the surface. *)
Lemma calc_PVT_error_string_witness :
  exists s, err_msg (-2) = Some s /\ s <> "Velocity >= 1000 kts".
Proof.
  destruct (calc_PVT_error_string fenv 6 sky6_high_biased false world_fresh
              (-2)%Z
              (world_of (calc_PVT fenv 6 sky6_high_biased false world_fresh)
                        world_fresh))
    as (s & Hs & Hv & _).
  - vm_compute. reflexivity.
  - lia.
  - exists s. split; [exact Hs | exact Hv].
Defined.
End ErrorStringRuns.

(** ** Runs on binary64 *)

(** X17, on six measurements that agree exactly with a state whose
    position is not zero: each pseudorange is the predicted range, and
    calc_PVT returns -6. *)
Lemma exact_fit_never_converges_witness :
  let w := world_running in
  (forall j, (j < 6)%nat ->
     pseudorange (nth j sky6_fitted meas_zero)
     = predicted_range fenv (w_rx_state w) (nth j sky6_fitted meas_zero)) /\
  PrimFloat.ltb d_zero (w_rx_state w).[0] = true /\
  fst (pvt_solve fenv (entry_mem 6 w) 6 sky6_fitted) = d_zero /\
  (forall i, (i < 3)%nat ->
     (rx_state (snd (pvt_solve fenv (entry_mem 6 w) 6 sky6_fitted))).[i]
     = (w_rx_state w).[i]) /\
  fst (pvt_iter fenv (entry_mem 6 w) 6 sky6_fitted) = (-1)%Z /\
  exists w', calc_PVT fenv 6 sky6_fitted false w = Ret ((-6)%Z, w').
Proof.
  intros w.
  split.
  { intros j Hj.
    destruct j as [|[|[|[|[|[|j]]]]]]; try lia; vm_compute; reflexivity. }
  split; [vm_compute; reflexivity|].
  apply (exact_fit_never_converges fenv 6 sky6_fitted false world_running).
  - lia.
  - vm_compute. lia.
  - intros i Hi H. apply (f_equal FloatOps.Prim2SF) in H.
    destruct i as [|[|[|i]]]; try lia; vm_compute in H; discriminate.
  - vm_compute. reflexivity.
  - vm_compute. reflexivity.
Defined.

(** X18, on six consistent measurements. *)
Lemma pvt_iter_converged_accuracy_witness :
  exists k r ml,
    (k < PVT_MAX_ITERATIONS fenv)%nat /\
    let mp := solve_steps fenv k (iter_start (entry_mem 6 world_fresh)) 6 sky6 in
    pvt_solve fenv mp 6 sky6 = (r, ml) /\
    rx_state (snd (pvt_iter fenv (entry_mem 6 world_fresh) 6 sky6)) = rx_state ml /\
    Hmat (snd (pvt_iter fenv (entry_mem 6 world_fresh) 6 sky6)) = Hmat ml /\
    r = vector_norm 3 (step_correction fenv (rx_state mp) 6 sky6) /\
    PrimFloat.ltb d_zero r = true /\
    PrimFloat.leb r (d_lit 1 (-3)) = true.
Proof.
  apply (pvt_iter_converged_accuracy fenv (entry_mem 6 world_fresh) 6 sky6).
  vm_compute. reflexivity.
Defined.

(** X21, on six consistent measurements of satellites at rest. *)
Lemma static_sky_zero_velocity_witness :
  fst (pvt_iter fenv (entry_mem 6 world_fresh) 6 sky6) = 0%Z /\
  let rx' := rx_state (snd (pvt_iter fenv (entry_mem 6 world_fresh) 6 sky6)) in
  rx'.[4] = d_zero /\ rx'.[5] = d_zero /\ rx'.[6] = d_zero /\ rx'.[7] = d_zero.
Proof.
  assert (Hconv : fst (pvt_iter fenv (entry_mem 6 world_fresh) 6 sky6) = 0%Z)
    by (vm_compute; reflexivity).
  split; [exact Hconv|].
  assert (Hvel : forall i, (4 <= i < 8)%nat ->
            (rx_state (snd (pvt_iter fenv (entry_mem 6 world_fresh) 6 sky6))).[i]
            = d_zero).
  { apply (static_sky_zero_velocity fenv (entry_mem 6 world_fresh) 6 sky6);
      try exact Hconv; vm_compute; reflexivity. }
  cbv zeta.
  split; [apply Hvel; lia|]. split; [apply Hvel; lia|].
  split; apply Hvel; lia.
Defined.

(** ** A run on what is not a number *)

(** X24, on six measurements the first of which has a pseudorange that is
    not a number. *)
Lemma nan_pseudorange_is_reported_as_failure_witness :
  exists w',
    calc_PVT fenv 6 (upd 0 (meas_at 1 26560 0 0 PrimFloat.nan) sky6) false
             world_fresh = Ret ((-6)%Z, w') /\
    valid (w_soln w') = 0%Z.
Proof.
  destruct (nan_pseudorange_is_reported_as_failure fenv 6
              (upd 0 (meas_at 1 26560 0 0 PrimFloat.nan) sky6) false
              world_fresh 0) as (_ & _ & w' & Hret & Hvalid & _).
  - lia.
  - vm_compute. lia.
  - lia.
  - reflexivity.
  - exists w'. split; [exact Hret | exact Hvalid].
Defined.
